(** * The resource lifecycle of the Genesys Cloud Terraform provider

    A shallow embedding of the create/read/update/delete, membership
    reconciliation and listing code of three resources of package
    [genesyscloud]: the routing queue, the journey segment and the journey
    action map.

    Remote calls made through the vendor SDK are recorded in a trace and
    answered by a [Platform], which may look at the calls made so far; waiting
    advances a clock.  Loops that the Go code leaves unbounded take fuel, and
    running out of it is the absence of a result. *)

From stdpp Require Import gmap strings list fin_maps.

Open Scope string_scope.
Open Scope list_scope.
Open Scope nat_scope.

(** ** Go values shared by the resource files *)

(** [platformclientv2.APIResponse]; the code only consults the status code. *)
Record APIResponse := { StatusCode : Z }.

(** A non-nil Go [error], by its message. *)
Definition error := string.

(** What an SDK call hands back: a payload with a nil error, or a non-nil
    error together with the (possibly nil) response. *)
Inductive Reply (A : Type) : Type :=
| Returned (payload : A)
| Failed (resp : option APIResponse) (err : error).
Arguments Returned {A} payload.
Arguments Failed {A} resp err.

(** [diag.Diagnostics]: the summaries of the diagnostics; nil is success. *)
Definition Diagnostics := list string.

Definition diag_Errorf (summary : string) : Diagnostics := [summary].

(** [*resource.RetryError]; a nil pointer is [None]. *)
Inductive RetryError :=
| RetryableError (err : error)
| NonRetryableError (err : error).

(** ** Remote calls *)

Inductive Call :=
| PostRoutingQueues (name : string)
| GetRoutingQueue (queueID : string)
| DeleteRoutingQueue (queueID : string) (forceDelete : bool)
| GetRoutingQueueMembers (queueID : string) (pageNumber pageSize : nat)
| PostRoutingQueueMembers (queueID : string) (body : list string) (remove : bool)
| PatchRoutingQueueMember (queueID userID : string) (ringNum : Z)
| GetJourneySegments (pageSize pageNumber : nat)
| PostJourneySegments (displayName : string)
| GetJourneySegment (segmentID : string)
| PatchJourneySegment (segmentID : string) (version : Z)
| DeleteJourneySegment (segmentID : string)
| GetJourneyActionmaps (pageNumber pageSize : nat)
| PostJourneyActionmaps (displayName : string)
| GetJourneyActionmap (actionMapID : string)
| PatchJourneyActionmap (actionMapID : string) (version : Z)
| DeleteJourneyActionmap (actionMapID : string).

(** ** State and the monad of the embedding *)

Record State := { trace : list Call; now : nat }.

Definition M (A : Type) : Type := State -> option (A * State).

Definition ret {A} (a : A) : M A := fun s => Some (a, s).

Definition bind {A B} (m : M A) (k : A -> M B) : M B :=
  fun s => match m s with
           | Some (a, s') => k a s'
           | None => None
           end.

(** A loop that has used up its fuel. *)
Definition diverge {A} : M A := fun _ => None.

(** Issue a remote call; the calls made before it are handed back so that the
    platform can answer. *)
Definition call (c : Call) : M (list Call) :=
  fun s => Some (trace s, {| trace := trace s ++ [c]; now := now s |}).

(** [time.Sleep], in seconds. *)
Definition sleep (seconds : nat) : M unit :=
  fun s => Some (tt, {| trace := trace s; now := now s + seconds |}).

Definition clock : M nat := fun s => Some (now s, s).

Notation "x <- m ;; k" := (bind m (fun x => k))
  (at level 100, m at next level, right associativity).

(** Go's [diagErr != nil]. *)
Definition failed (diags : Diagnostics) : bool :=
  match diags with
  | [] => false
  | _ :: _ => true
  end.

(** ** Payloads *)

(** [platformclientv2.Queuemember], with its pointers dereferenced. *)
Record Queuemember := { member_Id : string; RingNumber : Z }.

(** [platformclientv2.Queuememberentitylisting]; [Entities] may be nil. *)
Record Queuememberentitylisting := { member_Entities : option (list Queuemember) }.

(** [platformclientv2.Queue], as far as [readQueue] is followed here. *)
Record Queue := { queue_Id : string; queue_Name : string }.

(** [platformclientv2.Journeysegment]; [IsActive] may be nil. *)
Record Journeysegment := {
  segment_Id : string;
  segment_DisplayName : string;
  segment_Version : Z;
  segment_IsActive : option bool
}.

(** [platformclientv2.Segmentlisting]; [Entities] may be nil.  The listing
    reads nothing else of it: whatever page count the backend reports with
    the segments is not looked at. *)
Record Segmentlisting := { segment_Entities : option (list Journeysegment) }.

(** [platformclientv2.Actionmap]. *)
Record Actionmap := {
  actionmap_Id : string;
  actionmap_DisplayName : string;
  actionmap_Version : Z;
  actionmap_IsActive : bool
}.

(** [platformclientv2.Actionmaplisting]; [Entities] may be nil. *)
Record Actionmaplisting := {
  actionmap_Entities : option (list Actionmap);
  PageCount : Z
}.

(** [ResourceMeta] and [ResourceIDMetaMap] of the exporter. *)
Record ResourceMeta := { Name : string }.

Abbreviation ResourceIDMetaMap := (gmap string ResourceMeta).

(** ** The platform

    What the remote side answers.  Every answer may depend on the calls made
    so far, so a platform can change its mind between two polls. *)
Record Platform := {
  on_PostRoutingQueues : list Call -> string -> Reply Queue;
  on_GetRoutingQueue : list Call -> string -> Reply Queue;
  on_DeleteRoutingQueue : list Call -> string -> bool -> Reply unit;
  on_GetRoutingQueueMembers :
    list Call -> string -> nat -> nat -> Reply (option Queuememberentitylisting);
  on_PostRoutingQueueMembers : list Call -> string -> list string -> bool -> Reply unit;
  on_PatchRoutingQueueMember : list Call -> string -> string -> Z -> Reply unit;
  on_GetJourneySegments : list Call -> nat -> nat -> Reply Segmentlisting;
  on_PostJourneySegments : list Call -> string -> Reply Journeysegment;
  on_GetJourneySegment : list Call -> string -> Reply Journeysegment;
  on_PatchJourneySegment : list Call -> string -> Z -> Reply Journeysegment;
  on_DeleteJourneySegment : list Call -> string -> Reply unit;
  on_GetJourneyActionmaps : list Call -> nat -> nat -> Reply Actionmaplisting;
  on_PostJourneyActionmaps : list Call -> string -> Reply Actionmap;
  on_GetJourneyActionmap : list Call -> string -> Reply Actionmap;
  on_PatchJourneyActionmap : list Call -> string -> Z -> Reply Actionmap;
  on_DeleteJourneyActionmap : list Call -> string -> Reply unit
}.

(** ** [schema.ResourceData] of the three resources *)

(** The attributes of a journey segment that the functions below read or
    write. *)
Record SegmentData := {
  segment_id : string;
  segment_display_name : string;
  segment_version : Z;
  segment_is_active : bool
}.

(** The attributes of a journey action map that the functions below read or
    write. *)
Record ActionMapData := {
  actionmap_id : string;
  actionmap_display_name : string;
  actionmap_is_active : bool
}.

(** The attributes of a queue that the functions below read or write.
    [members] is what [d.GetOk("members")] yields: [None] when it reports the
    attribute as not set, else the [(user_id, ring_num)] pairs of the set, in
    the order in which the set lists them.  [timeoutDelete] is
    [d.Timeout(schema.TimeoutDelete)], in seconds. *)
Record QueueData := {
  queue_id : string;
  name : string;
  members : option (list (string * Z));
  timeoutDelete : nat
}.

Definition queue_SetId (d : QueueData) (id : string) : QueueData :=
  {| queue_id := id; name := name d; members := members d;
     timeoutDelete := timeoutDelete d |}.




(** ** Queue membership *)

(** Modelled from the spec: [sliceDifference] is a helper of this package that
    is not among the source files; membership reconciliation is to "compute
    set difference between Desired and Observed membership lists", so the
    helper keeps, in order, the elements of [a] that do not occur in [b]. *)
Definition sliceDifference (a b : list string) : list string :=
  filter (fun x => x ∉ b) a.

(** [sdkGetRoutingQueueMembers]: one hand-built GET of a page of members. *)
Definition sdkGetRoutingQueueMembers (P : Platform) (queueID : string)
    (pageNumber pageSize : nat) : M (Reply (option Queuememberentitylisting)) :=
  h <- call (GetRoutingQueueMembers queueID pageNumber pageSize) ;;
  ret (on_GetRoutingQueueMembers P h queueID pageNumber pageSize).

Definition maxPageSize : nat := 100.

(** The [for pageNum := 1; ; pageNum++] loop of [getRoutingQueueMembers]. *)
Fixpoint getRoutingQueueMembers_loop (fuel : nat) (P : Platform) (queueID : string)
    (pageNum : nat) (members : list Queuemember)
    : M (list Queuemember * Diagnostics) :=
  match fuel with
  | O => diverge
  | S fuel' =>
      r <- sdkGetRoutingQueueMembers P queueID pageNum maxPageSize ;;
      match r with
      | Failed _ err =>
          ret ([], diag_Errorf ("Failed to query users for queue " +:+ queueID
                                +:+ ": " +:+ err))
      | Returned None => ret (members, [])
      | Returned (Some {| member_Entities := None |}) => ret (members, [])
      | Returned (Some {| member_Entities := Some [] |}) => ret (members, [])
      | Returned (Some {| member_Entities := Some (user :: users) |}) =>
          getRoutingQueueMembers_loop fuel' P queueID (S pageNum)
            (members ++ user :: users)
      end
  end.

Definition getRoutingQueueMembers (fuel : nat) (P : Platform) (queueID : string)
    : M (list Queuemember * Diagnostics) :=
  getRoutingQueueMembers_loop fuel P queueID 1 [].

(** *** Batched additions and removals *)

Definition maxBatchSize : nat := 100.

(** A Go pointer to a string: an address in the store below. *)
Definition loc := nat.

(** The string variables that the batching code takes the address of. *)
Abbreviation store := (list string).

Definition deref (σ : store) (p : loc) : string := default "" (σ !! p).

(** [platformclientv2.Writableentity]: [Id] is a [*string]. *)
Record Writableentity := { entity_Id : loc }.

(** The body of [for _, id := range membersToUpdate[i:end]].  By the rule of
    Go before 1.22, under which a module of this age is compiled (the file
    still imports the SDK by its pre-module path), the range clause declares
    the one variable [id], at address [p], for the whole loop: every
    iteration assigns the next element to it and appends [&id], the same
    pointer, to the chunk. *)
Fixpoint range_append (p : loc) (ids : list string) (σ : store)
    (updateChunk : list Writableentity) : store * list Writableentity :=
  match ids with
  | [] => (σ, updateChunk)
  | id :: rest =>
      range_append p rest (<[p := id]> σ) (updateChunk ++ [{| entity_Id := p |}])
  end.

(** What goes over the wire: the strings the chunk points to when the call is
    made. *)
Definition wire (σ : store) (updateChunk : list Writableentity) : list string :=
  (fun e => deref σ (entity_Id e)) <$> updateChunk.

Fixpoint updateMembersInChunks_loop (fuel : nat) (P : Platform) (queueID : string)
    (membersToUpdate : list string) (remove : bool) (i : nat) (σ : store)
    : M Diagnostics :=
  match fuel with
  | O => diverge
  | S fuel' =>
      if i <? length membersToUpdate then
        let end_ := if length membersToUpdate <? i + maxBatchSize
                    then length membersToUpdate else i + maxBatchSize in
        let p := length σ in
        let '(σ', updateChunk) :=
          range_append p (take (end_ - i) (drop i membersToUpdate)) (σ ++ [""]) [] in
        _ <- (if 0 <? length updateChunk then
                (* the reply is dropped: "Ignoring err for now" *)
                h <- call (PostRoutingQueueMembers queueID (wire σ' updateChunk) remove) ;;
                let _ := on_PostRoutingQueueMembers P h queueID (wire σ' updateChunk) remove in
                ret tt
              else ret tt) ;;
        updateMembersInChunks_loop fuel' P queueID membersToUpdate remove
          (i + maxBatchSize) σ'
      else ret []
  end.

(** [i] grows by [maxBatchSize] each round, so one round per element and one
    more for the exit test always suffice. *)
Definition updateMembersInChunks (P : Platform) (queueID : string)
    (membersToUpdate : list string) (remove : bool) : M Diagnostics :=
  updateMembersInChunks_loop (S (length membersToUpdate)) P queueID
    membersToUpdate remove 0 [].

Definition updateQueueUserRingNum (P : Platform) (queueID userID : string)
    (ringNum : Z) : M Diagnostics :=
  h <- call (PatchRoutingQueueMember queueID userID ringNum) ;;
  match on_PatchRoutingQueueMember P h queueID userID ringNum with
  | Failed _ err =>
      ret (diag_Errorf ("Failed to update ring number for queue " +:+ queueID
                        +:+ " user " +:+ userID +:+ ": " +:+ err))
  | Returned _ => ret []
  end.

(** The [for userID, newNum := range newUserRingNums] loop, over the entries
    of the map in the order the iteration visits them. *)
Fixpoint updateRingNums (P : Platform) (queueID : string)
    (oldUserRingNums : gmap string Z) (entries : list (string * Z))
    : M Diagnostics :=
  match entries with
  | [] => ret []
  | (userID, newNum) :: rest =>
      err <- match oldUserRingNums !! userID with
             | Some oldNum =>
                 if bool_decide (newNum ≠ oldNum)
                 then updateQueueUserRingNum P queueID userID newNum
                 else ret []
             | None =>
                 if bool_decide (newNum ≠ 1%Z)
                 then updateQueueUserRingNum P queueID userID newNum
                 else ret []
             end ;;
      if failed err then ret err
      else updateRingNums P queueID oldUserRingNums rest
  end.

(** A Go [map[string]int] filled by assignments in list order. *)
Definition ringNums (l : list (string * Z)) : gmap string Z :=
  foldl (fun m e => <[e.1 := e.2]> m) ∅ l.

Definition updateQueueMembers (fuel : nat) (P : Platform) (d : QueueData)
    : M Diagnostics :=
  match members d with
  | None =>
      (* Members not set in the config. Do not update. *)
      ret []
  | Some memberList =>
      let newUserIds := memberList.*1 in
      let newUserRingNums := ringNums memberList in
      r <- getRoutingQueueMembers fuel P (queue_id d) ;;
      let '(oldSdkUsers, err) := r in
      if failed err then ret err else
      let oldUserIds := member_Id <$> oldSdkUsers in
      let oldUserRingNums :=
        ringNums ((fun u => (member_Id u, RingNumber u)) <$> oldSdkUsers) in
      err <- (if 0 <? length oldUserIds then
                updateMembersInChunks P (queue_id d)
                  (sliceDifference oldUserIds newUserIds) true
              else ret []) ;;
      if failed err then ret err else
      err <- (if 0 <? length newUserIds then
                updateMembersInChunks P (queue_id d)
                  (sliceDifference newUserIds oldUserIds) false
              else ret []) ;;
      if failed err then ret err else
      updateRingNums P (queue_id d) oldUserRingNums (map_to_list newUserRingNums)
  end.

(** ** The retry helpers

    [withRetries], [withRetriesForRead], [retryWhen], [isVersionMismatch] and
    [isStatus404] belong to this package but are not among the source files,
    and the consistency checker lives in a package of its own.  What the spec
    leaves open about them is a field of [Engine]. *)
Record Engine := {
  (** seconds between two attempts (the "fixed tick" of the spec) *)
  interval : nat;
  (** the deadline [withRetriesForRead] polls with, in seconds *)
  readTimeout : nat;
  (** the bound on the version-conflict retries of [retryWhen], in seconds *)
  updateTimeout : nat;
  (** which responses report a version conflict *)
  isVersionMismatch : option APIResponse -> bool;
  (** [cc.CheckState()]: the state captured when the check was built against
      the state after flattening *)
  CheckSegmentState : SegmentData -> SegmentData -> option RetryError;
  CheckActionMapState : ActionMapData -> ActionMapData -> option RetryError
}.

(** Modelled from the spec: [isStatus404] is not among the source files; the
    transport metadata "exposes at least an HTTP-style status code used for the
    404-classification rules".  [deleteQueue] spells the same test out as
    [resp != nil && resp.StatusCode == 404]. *)
Definition isStatus404 (resp : option APIResponse) : bool :=
  match resp with
  | Some r => bool_decide (StatusCode r = 404%Z)
  | None => false
  end.

(** The terminal failure that wraps the last retryable reason. *)
Definition timedOut (lastErr : error) : error :=
  "timeout while waiting for state to become ready: " +:+ lastErr.

(** Modelled from the spec: the Retry Engine of section 4.1, which is
    [withRetries] of this package (not among the source files) and, for
    [deleteQueue], [resource.RetryContext] of the plugin SDK.  It "re-invokes
    operation on RetryableFailure using a polling interval until either
    Success, TerminalFailure, or deadline elapsed", and "on deadline elapsed
    with last failure still retryable, returns TerminalFailure wrapping the
    last reason".  The operation may update the resource data [d]. *)
Fixpoint retry_loop {D : Type} (fuel : nat) (E : Engine) (deadline : nat)
    (method : D -> M (option RetryError * D)) (d : D) : M (Diagnostics * D) :=
  match fuel with
  | O => diverge
  | S fuel' =>
      r <- method d ;;
      match r with
      | (None, d') => ret ([], d')
      | (Some (NonRetryableError err), d') => ret ([err], d')
      | (Some (RetryableError err), d') =>
          _ <- sleep (interval E) ;;
          t <- clock ;;
          if deadline <=? t then ret ([timedOut err], d')
          else retry_loop fuel' E deadline method d'
      end
  end.

(** With a tick of at least a second, [timeout] rounds after the first reach
    the deadline. *)
Definition withRetries {D : Type} (E : Engine) (timeout : nat)
    (method : D -> M (option RetryError * D)) (d : D) : M (Diagnostics * D) :=
  start <- clock ;;
  retry_loop (S timeout) E (start + timeout) method d.

(** Modelled from the spec: reads are "wrapped in Retry Engine", with a
    deadline "shorter for read-after-create visibility checks". *)
Definition withRetriesForRead {D : Type} (E : Engine)
    (method : D -> M (option RetryError * D)) (d : D) : M (Diagnostics * D) :=
  withRetries E (readTimeout E) method d.

(** Modelled from the spec: [retryWhen] is not among the source files; an
    update is to "retry on version-conflict by re-reading and re-patching
    (bounded by the Retry Engine)", and every other failure is terminal. *)
Fixpoint retryWhen_loop (fuel : nat) (E : Engine) (deadline : nat)
    (shouldRetry : option APIResponse -> bool)
    (callSdk : M (option APIResponse * Diagnostics)) : M Diagnostics :=
  match fuel with
  | O => diverge
  | S fuel' =>
      r <- callSdk ;;
      let '(resp, sdkErr) := r in
      if failed sdkErr then
        if shouldRetry resp then
          _ <- sleep (interval E) ;;
          t <- clock ;;
          if deadline <=? t then ret (timedOut <$> sdkErr)
          else retryWhen_loop fuel' E deadline shouldRetry callSdk
        else ret sdkErr
      else ret []
  end.

Definition retryWhen (E : Engine) (shouldRetry : option APIResponse -> bool)
    (callSdk : M (option APIResponse * Diagnostics)) : M Diagnostics :=
  start <- clock ;;
  retryWhen_loop (S (updateTimeout E)) E (start + updateTimeout E) shouldRetry callSdk.

(** ** The routing queue *)

(** [flattenQueueMembers]: the [schema.Set] of the members, each a
    [(user_id, ring_num)] resource.  [Add] leaves a resource that is in the
    set as it is, so a member that is listed twice is in the set once. *)
Definition flattenQueueMembers (fuel : nat) (P : Platform) (queueID : string)
    : M (gset (string * Z) * Diagnostics) :=
  r <- getRoutingQueueMembers fuel P queueID ;;
  let '(members, err) := r in
  if failed err then ret (∅, err)
  else ret (foldl (fun memberSet member =>
                     memberSet ∪ {[ (member_Id member, RingNumber member) ]})
                  ∅ members, []).

(** What [d.GetOk("members")] yields once [d.Set("members", memberSet)] has
    stored the set: its elements in the order in which the set lists them,
    and not set when it has none. *)
Definition Set_members (memberSet : gset (string * Z)) : option (list (string * Z)) :=
  if decide (memberSet = ∅) then None else Some (elements memberSet).

(** [readQueue].  Of the attributes it copies into [d], [name] and [members]
    are followed. *)
Definition readQueue (fuel : nat) (P : Platform) (d : QueueData)
    : M (Diagnostics * QueueData) :=
  h <- call (GetRoutingQueue (queue_id d)) ;;
  match on_GetRoutingQueue P h (queue_id d) with
  | Failed _ getErr =>
      ret (diag_Errorf ("Failed to read user " +:+ queue_id d +:+ ": " +:+ getErr), d)
  | Returned currentQueue =>
      let d1 := {| queue_id := queue_id d; name := queue_Name currentQueue;
                   members := members d; timeoutDelete := timeoutDelete d |} in
      r <- flattenQueueMembers fuel P (queue_id d1) ;;
      let '(members', err) := r in
      if failed err then ret (err, d1)
      else ret ([], {| queue_id := queue_id d1; name := name d1;
                       members := Set_members members';
                       timeoutDelete := timeoutDelete d1 |})
  end.

Definition createQueue (fuel : nat) (P : Platform) (d : QueueData)
    : M (Diagnostics * QueueData) :=
  h <- call (PostRoutingQueues (name d)) ;;
  match on_PostRoutingQueues P h (name d) with
  | Failed _ err =>
      ret (diag_Errorf ("Failed to create queue " +:+ name d +:+ ": " +:+ err), d)
  | Returned queue =>
      let d := queue_SetId d (queue_Id queue) in
      diagErr <- updateQueueMembers fuel P d ;;
      if failed diagErr then ret (diagErr, d)
      else readQueue fuel P d
  end.

(** The poll of [deleteQueue], "Query until queue is no longer found": what
    it makes of the answer to its GET. *)
Definition deleteQueue_verdict (d : QueueData) (reply : Reply Queue)
    : option RetryError * QueueData :=
  match reply with
  | Failed resp err =>
      if match resp with
         | Some r => bool_decide (StatusCode r = 404%Z)
         | None => false
         end
      then (* Queue deleted *) (None, d)
      else (Some (NonRetryableError
                    ("Error deleting queue " +:+ queue_id d +:+ ": " +:+ err)), d)
  | Returned _ =>
      (Some (RetryableError ("Queue " +:+ queue_id d +:+ " still exists")), d)
  end.

Definition deleteQueue_poll (P : Platform) (d : QueueData)
    : M (option RetryError * QueueData) :=
  h <- call (GetRoutingQueue (queue_id d)) ;;
  ret (deleteQueue_verdict d (on_GetRoutingQueue P h (queue_id d))).

Definition deleteQueue (E : Engine) (P : Platform) (d : QueueData)
    : M (Diagnostics * QueueData) :=
  h <- call (DeleteRoutingQueue (queue_id d) true) ;;
  match on_DeleteRoutingQueue P h (queue_id d) true with
  | Failed _ err =>
      ret (diag_Errorf ("Failed to delete queue " +:+ name d +:+ ": " +:+ err), d)
  | Returned _ =>
      withRetries E (timeoutDelete d) (deleteQueue_poll P) d
  end.

(** ** The journey segment *)

Definition pageSize : nat := 100.

(** The [for _, journeySegment := range *journeySegments.Entities] loop. *)
Definition addJourneySegments (resources : ResourceIDMetaMap)
    (entities : list Journeysegment) : ResourceIDMetaMap :=
  foldl (fun m journeySegment =>
           <[segment_Id journeySegment :=
               {| Name := segment_DisplayName journeySegment |}]> m)
        resources entities.

(** The [for pageNum := 1; ; pageNum++] loop of [getAllJourneySegments]; a
    failed page gives the nil map and the diagnostics. *)
Fixpoint getAllJourneySegments_loop (fuel : nat) (P : Platform) (pageNum : nat)
    (resources : ResourceIDMetaMap) : M (ResourceIDMetaMap * Diagnostics) :=
  match fuel with
  | O => diverge
  | S fuel' =>
      h <- call (GetJourneySegments pageSize pageNum) ;;
      match on_GetJourneySegments P h pageSize pageNum with
      | Failed _ getErr =>
          ret (∅, diag_Errorf ("Failed to get page of journey segments: " +:+ getErr))
      | Returned {| segment_Entities := None |} => ret (resources, [])
      | Returned {| segment_Entities := Some [] |} => ret (resources, [])
      | Returned {| segment_Entities := Some (e :: es) |} =>
          getAllJourneySegments_loop fuel' P (S pageNum)
            (addJourneySegments resources (e :: es))
      end
  end.

Definition getAllJourneySegments (fuel : nat) (P : Platform)
    : M (ResourceIDMetaMap * Diagnostics) :=
  getAllJourneySegments_loop fuel P 1 ∅.

Definition segment_SetId (d : SegmentData) (id : string) : SegmentData :=
  {| segment_id := id; segment_display_name := segment_display_name d;
     segment_version := segment_version d;
     segment_is_active := segment_is_active d |}.

(** [flattenJourneySegment]; [is_active] is not among the attributes it
    sets. *)
Definition flattenJourneySegment (d : SegmentData) (journeySegment : Journeysegment)
    : SegmentData :=
  {| segment_id := segment_id d;
     segment_display_name := segment_DisplayName journeySegment;
     segment_version := segment_Version journeySegment;
     segment_is_active := segment_is_active d |}.

(** The function [readJourneySegment] hands to [withRetriesForRead]: what it
    makes of the answer to its GET. *)
Definition readJourneySegment_verdict (E : Engine) (d : SegmentData)
    (reply : Reply Journeysegment) : option RetryError * SegmentData :=
  match reply with
  | Failed resp getErr =>
      if isStatus404 resp then
        (Some (RetryableError ("failed to read journey segment "
                               +:+ segment_id d +:+ ": " +:+ getErr)), d)
      else
        (Some (NonRetryableError ("failed to read journey segment "
                                  +:+ segment_id d +:+ ": " +:+ getErr)), d)
  | Returned journeySegment =>
      match segment_IsActive journeySegment with
      | Some false => (None, segment_SetId d "")
      | _ =>
          let d' := flattenJourneySegment d journeySegment in
          (CheckSegmentState E d d', d')
      end
  end.

Definition readJourneySegment_attempt (E : Engine) (P : Platform) (d : SegmentData)
    : M (option RetryError * SegmentData) :=
  h <- call (GetJourneySegment (segment_id d)) ;;
  ret (readJourneySegment_verdict E d (on_GetJourneySegment P h (segment_id d))).

Definition readJourneySegment (E : Engine) (P : Platform) (d : SegmentData)
    : M (Diagnostics * SegmentData) :=
  withRetriesForRead E (readJourneySegment_attempt E P) d.

Definition createJourneySegment (E : Engine) (P : Platform) (d : SegmentData)
    : M (Diagnostics * SegmentData) :=
  h <- call (PostJourneySegments (segment_display_name d)) ;;
  match on_PostJourneySegments P h (segment_display_name d) with
  | Failed _ err =>
      ret (diag_Errorf ("Failed to create journey segment "
                        +:+ segment_display_name d +:+ ": " +:+ err), d)
  | Returned result =>
      readJourneySegment E P (segment_SetId d (segment_Id result))
  end.

(** How [%s] prints the [*string] that [updateJourneySegment] passes for the
    display name. *)
Definition displayNamePointer : string := "%!s(" +:+ "*string=0x...)".

(** [updateJourneySegment]: the patch built by [buildSdkPatchSegment] carries
    the version held in [d]. *)
Definition updateJourneySegment (E : Engine) (P : Platform) (d : SegmentData)
    : M (Diagnostics * SegmentData) :=
  h <- call (PatchJourneySegment (segment_id d) (segment_version d)) ;;
  match on_PatchJourneySegment P h (segment_id d) (segment_version d) with
  | Failed _ err =>
      ret (diag_Errorf ("Error updating journey segment " +:+ displayNamePointer
                        +:+ ": " +:+ err), d)
  | Returned _ => readJourneySegment E P d
  end.

(** The poll of [deleteJourneySegment]: what it makes of the answer to its
    GET. *)
Definition deleteJourneySegment_verdict (d : SegmentData)
    (reply : Reply Journeysegment) : option RetryError * SegmentData :=
  match reply with
  | Failed resp err =>
      if isStatus404 resp then (* journey segment deleted *) (None, d)
      else (Some (NonRetryableError ("error deleting journey segment "
                                     +:+ segment_id d +:+ ": " +:+ err)), d)
  | Returned journeySegment =>
      match segment_IsActive journeySegment with
      | Some false => (* journey segment inactive *) (None, d)
      | _ => (Some (RetryableError ("journey segment " +:+ segment_id d
                                    +:+ " still exists")), d)
      end
  end.

Definition deleteJourneySegment_poll (P : Platform) (d : SegmentData)
    : M (option RetryError * SegmentData) :=
  h <- call (GetJourneySegment (segment_id d)) ;;
  ret (deleteJourneySegment_verdict d (on_GetJourneySegment P h (segment_id d))).

Definition deleteJourneySegment (E : Engine) (P : Platform) (d : SegmentData)
    : M (Diagnostics * SegmentData) :=
  h <- call (DeleteJourneySegment (segment_id d)) ;;
  match on_DeleteJourneySegment P h (segment_id d) with
  | Failed _ err =>
      ret (diag_Errorf ("Failed to delete journey segment with display name "
                        +:+ segment_display_name d +:+ ": " +:+ err), d)
  | Returned _ => withRetries E 30 (deleteJourneySegment_poll P) d
  end.

(** ** The journey action map *)

(** The [for _, actionMap := range *actionMaps.Entities] loop. *)
Definition addActionMaps (resources : ResourceIDMetaMap)
    (entities : list Actionmap) : ResourceIDMetaMap :=
  foldl (fun m actionMap =>
           <[actionmap_Id actionMap :=
               {| Name := actionmap_DisplayName actionMap |}]> m)
        resources entities.

(** The loop of [getAllJourneyActionMaps]:
    [for pageNum := 1; pageNum <= pageCount; pageNum++], where every page
    that has entities overwrites [pageCount]. *)
Fixpoint getAllJourneyActionMaps_loop (fuel : nat) (P : Platform) (pageNum : nat)
    (pageCount : Z) (resources : ResourceIDMetaMap)
    : M (ResourceIDMetaMap * Diagnostics) :=
  match fuel with
  | O => diverge
  | S fuel' =>
      if (Z.of_nat pageNum <=? pageCount)%Z then
        h <- call (GetJourneyActionmaps pageNum pageSize) ;;
        match on_GetJourneyActionmaps P h pageNum pageSize with
        | Failed _ getErr =>
            ret (∅, diag_Errorf ("Failed to get page of journey action maps: "
                                 +:+ getErr))
        | Returned {| actionmap_Entities := None |} => ret (resources, [])
        | Returned {| actionmap_Entities := Some [] |} => ret (resources, [])
        | Returned {| actionmap_Entities := Some (e :: es); PageCount := n |} =>
            getAllJourneyActionMaps_loop fuel' P (S pageNum) n
              (addActionMaps resources (e :: es))
        end
      else ret (resources, [])
  end.

Definition getAllJourneyActionMaps (fuel : nat) (P : Platform)
    : M (ResourceIDMetaMap * Diagnostics) :=
  getAllJourneyActionMaps_loop fuel P 1 1 ∅.

Definition actionmap_SetId (d : ActionMapData) (id : string) : ActionMapData :=
  {| actionmap_id := id; actionmap_display_name := actionmap_display_name d;
     actionmap_is_active := actionmap_is_active d |}.

(** [flattenActionMap]: [is_active] and [display_name] are followed. *)
Definition flattenActionMap (d : ActionMapData) (actionMap : Actionmap)
    : ActionMapData :=
  {| actionmap_id := actionmap_id d;
     actionmap_display_name := actionmap_DisplayName actionMap;
     actionmap_is_active := actionmap_IsActive actionMap |}.

(** The function [readJourneyActionMap] hands to [withRetriesForRead]: what
    it makes of the answer to its GET. *)
Definition readJourneyActionMap_verdict (E : Engine) (d : ActionMapData)
    (reply : Reply Actionmap) : option RetryError * ActionMapData :=
  match reply with
  | Failed resp getErr =>
      if isStatus404 resp then
        (Some (RetryableError ("failed to read journey action map "
                               +:+ actionmap_id d +:+ ": " +:+ getErr)), d)
      else
        (Some (NonRetryableError ("failed to read journey action map "
                                  +:+ actionmap_id d +:+ ": " +:+ getErr)), d)
  | Returned actionMap =>
      let d' := flattenActionMap d actionMap in
      (CheckActionMapState E d d', d')
  end.

Definition readJourneyActionMap_attempt (E : Engine) (P : Platform)
    (d : ActionMapData) : M (option RetryError * ActionMapData) :=
  h <- call (GetJourneyActionmap (actionmap_id d)) ;;
  ret (readJourneyActionMap_verdict E d (on_GetJourneyActionmap P h (actionmap_id d))).

Definition readJourneyActionMap (E : Engine) (P : Platform) (d : ActionMapData)
    : M (Diagnostics * ActionMapData) :=
  withRetriesForRead E (readJourneyActionMap_attempt E P) d.

(** [createJourneyActionMap]; the dump of the input and of the response body
    that the message ends with is left out. *)
Definition createJourneyActionMap (E : Engine) (P : Platform) (d : ActionMapData)
    : M (Diagnostics * ActionMapData) :=
  h <- call (PostJourneyActionmaps (actionmap_display_name d)) ;;
  match on_PostJourneyActionmaps P h (actionmap_display_name d) with
  | Failed _ err =>
      ret (diag_Errorf ("failed to create journey action map "
                        +:+ actionmap_display_name d +:+ ": " +:+ err), d)
  | Returned result =>
      readJourneyActionMap E P (actionmap_SetId d (actionmap_Id result))
  end.

(** The function [updateJourneyActionMap] hands to [retryWhen]: get the
    current version, then patch with it.  The dump of the input and of the
    response body that the message of a failed patch ends with is left
    out. *)
Definition updateJourneyActionMap_attempt (P : Platform) (d : ActionMapData)
    : M (option APIResponse * Diagnostics) :=
  h <- call (GetJourneyActionmap (actionmap_id d)) ;;
  match on_GetJourneyActionmap P h (actionmap_id d) with
  | Failed resp getErr =>
      ret (resp, diag_Errorf ("Failed to read current journey action map "
                              +:+ actionmap_id d +:+ ": " +:+ getErr))
  | Returned actionMap =>
      h <- call (PatchJourneyActionmap (actionmap_id d) (actionmap_Version actionMap)) ;;
      match on_PatchJourneyActionmap P h (actionmap_id d) (actionmap_Version actionMap) with
      | Failed resp patchErr =>
          ret (resp, diag_Errorf ("Error updating journey action map "
                                  +:+ actionmap_display_name d +:+ ": " +:+ patchErr))
      | Returned _ => ret (None, [])
      end
  end.

Definition updateJourneyActionMap (E : Engine) (P : Platform) (d : ActionMapData)
    : M (Diagnostics * ActionMapData) :=
  diagErr <- retryWhen E (isVersionMismatch E) (updateJourneyActionMap_attempt P d) ;;
  if failed diagErr then ret (diagErr, d)
  else readJourneyActionMap E P d.

(** The poll of [deleteJourneyActionMap]: what it makes of the answer to its
    GET. *)
Definition deleteJourneyActionMap_verdict (d : ActionMapData)
    (reply : Reply Actionmap) : option RetryError * ActionMapData :=
  match reply with
  | Failed resp err =>
      if isStatus404 resp then (* journey action map deleted *) (None, d)
      else (Some (NonRetryableError ("error deleting journey action map "
                                     +:+ actionmap_id d +:+ ": " +:+ err)), d)
  | Returned _ =>
      (Some (RetryableError ("journey action map " +:+ actionmap_id d
                             +:+ " still exists")), d)
  end.

Definition deleteJourneyActionMap_poll (P : Platform) (d : ActionMapData)
    : M (option RetryError * ActionMapData) :=
  h <- call (GetJourneyActionmap (actionmap_id d)) ;;
  ret (deleteJourneyActionMap_verdict d (on_GetJourneyActionmap P h (actionmap_id d))).

Definition deleteJourneyActionMap (E : Engine) (P : Platform) (d : ActionMapData)
    : M (Diagnostics * ActionMapData) :=
  h <- call (DeleteJourneyActionmap (actionmap_id d)) ;;
  match on_DeleteJourneyActionmap P h (actionmap_id d) with
  | Failed _ err =>
      ret (diag_Errorf ("Failed to delete journey action map with display name "
                        +:+ actionmap_display_name d +:+ ": " +:+ err), d)
  | Returned _ => withRetries E 30 (deleteJourneyActionMap_poll P) d
  end.

(** ** Vocabulary of the statements *)

(** An attempt that issues the one call [c] and gives its verdict on what the
    platform answered; the polls of the deletes and the attempts of the reads
    have this shape. *)
Definition poll {D : Type} (c : Call)
    (verdict : list Call -> option RetryError * D) : M (option RetryError * D) :=
  h <- call c ;;
  ret (verdict h).

(** The state once the call [c] has been issued. *)
Definition issue (c : Call) (s : State) : State :=
  {| trace := trace s ++ [c]; now := now s |}.

(** The state after [n] polls [c] and [slept] sleeps. *)
Definition polled (E : Engine) (c : Call) (n slept : nat) (s : State) : State :=
  {| trace := trace s ++ replicate n c; now := now s + slept * interval E |}.

(** The poll at [k] ticks from its start still precedes the deadline. *)
Definition in_time (E : Engine) (k timeout : nat) : Prop :=
  k = 0 \/ k * interval E < timeout.

(** After the history [tr], the first [k] polls [c] are answered with an
    object that satisfies [present]. *)
Definition still_there {A} (reply : list Call -> Reply A) (tr : list Call)
    (c : Call) (k : nat) (present : A -> Prop) : Prop :=
  forall j, j < k -> exists a, reply (tr ++ replicate j c) = Returned a /\ present a.

(** After the history [tr] and [k] polls [c], the platform answers 404. *)
Definition then_404 {A} (reply : list Call -> Reply A) (tr : list Call)
    (c : Call) (k : nat) : Prop :=
  exists err, reply (tr ++ replicate k c) = Failed (Some {| StatusCode := 404 |}) err.

(** A segment that the server does not flag as inactive. *)
Definition active (journeySegment : Journeysegment) : Prop :=
  segment_IsActive journeySegment <> Some false.

(** ** Platforms, engines and resource data of the examples *)

Global Instance Call_eq_dec : EqDecision Call.
Proof. solve_decision. Defined.

(** How often the call [c] has been made in the history [h]. *)
Definition count_calls (c : Call) (h : list Call) : nat :=
  length (filter (fun x => x = c) h).

(** The answer [before] to the first [k] calls [c], and [after] from then
    on. *)
Definition eventually {A} (k : nat) (c : Call) (before after : Reply A)
    (h : list Call) : Reply A :=
  if count_calls c h <? k then before else after.

Definition notFound {A} : Reply A :=
  Failed (Some {| StatusCode := 404 |}) "API Error: 404 - not found".

Definition conflict {A} : Reply A :=
  Failed (Some {| StatusCode := 409 |}) "API Error: 409 - version mismatch".

Definition serverError {A} : Reply A :=
  Failed (Some {| StatusCode := 500 |}) "API Error: 500 - internal server error".

(** A platform that cannot be reached at all. *)
Definition offline : Platform := {|
  on_PostRoutingQueues := fun _ _ => Failed None "offline";
  on_GetRoutingQueue := fun _ _ => Failed None "offline";
  on_DeleteRoutingQueue := fun _ _ _ => Failed None "offline";
  on_GetRoutingQueueMembers := fun _ _ _ _ => Failed None "offline";
  on_PostRoutingQueueMembers := fun _ _ _ _ => Failed None "offline";
  on_PatchRoutingQueueMember := fun _ _ _ _ => Failed None "offline";
  on_GetJourneySegments := fun _ _ _ => Failed None "offline";
  on_PostJourneySegments := fun _ _ => Failed None "offline";
  on_GetJourneySegment := fun _ _ => Failed None "offline";
  on_PatchJourneySegment := fun _ _ _ => Failed None "offline";
  on_DeleteJourneySegment := fun _ _ => Failed None "offline";
  on_GetJourneyActionmaps := fun _ _ _ => Failed None "offline";
  on_PostJourneyActionmaps := fun _ _ => Failed None "offline";
  on_GetJourneyActionmap := fun _ _ => Failed None "offline";
  on_PatchJourneyActionmap := fun _ _ _ => Failed None "offline";
  on_DeleteJourneyActionmap := fun _ _ => Failed None "offline"
|}.

Definition theQueue (id : string) : Queue := {| queue_Id := id; queue_Name := "Support" |}.

Definition theSegment (id : string) (version : Z) (isActive : option bool) : Journeysegment :=
  {| segment_Id := id; segment_DisplayName := "Visitors"; segment_Version := version;
     segment_IsActive := isActive |}.

Definition theActionMap (id : string) (version : Z) (isActive : bool) : Actionmap :=
  {| actionmap_Id := id; actionmap_DisplayName := "Offer chat";
     actionmap_Version := version; actionmap_IsActive := isActive |}.

(** Deletes are accepted, and the object is still returned by the first [k]
    reads after that; then it is gone. *)
Definition vanishing (k : nat) : Platform := {|
  on_PostRoutingQueues := on_PostRoutingQueues offline;
  on_GetRoutingQueue := fun h id =>
    eventually k (GetRoutingQueue id) (Returned (theQueue id)) notFound h;
  on_DeleteRoutingQueue := fun _ _ _ => Returned tt;
  on_GetRoutingQueueMembers := on_GetRoutingQueueMembers offline;
  on_PostRoutingQueueMembers := on_PostRoutingQueueMembers offline;
  on_PatchRoutingQueueMember := on_PatchRoutingQueueMember offline;
  on_GetJourneySegments := on_GetJourneySegments offline;
  on_PostJourneySegments := on_PostJourneySegments offline;
  on_GetJourneySegment := fun h id =>
    eventually k (GetJourneySegment id) (Returned (theSegment id 1 (Some true))) notFound h;
  on_PatchJourneySegment := on_PatchJourneySegment offline;
  on_DeleteJourneySegment := fun _ _ => Returned tt;
  on_GetJourneyActionmaps := on_GetJourneyActionmaps offline;
  on_PostJourneyActionmaps := on_PostJourneyActionmaps offline;
  on_GetJourneyActionmap := fun h id =>
    eventually k (GetJourneyActionmap id) (Returned (theActionMap id 1 true)) notFound h;
  on_PatchJourneyActionmap := on_PatchJourneyActionmap offline;
  on_DeleteJourneyActionmap := fun _ _ => Returned tt
|}.

(** An engine that polls every [seconds] seconds, gives reads and updates a
    minute, takes 409 for a version conflict and finds every state
    consistent. *)
Definition ticking (seconds : nat) : Engine := {|
  interval := seconds;
  readTimeout := 60;
  updateTimeout := 60;
  isVersionMismatch := fun resp =>
    match resp with
    | Some r => bool_decide (StatusCode r = 409%Z)
    | None => false
    end;
  CheckSegmentState := fun _ _ => None;
  CheckActionMapState := fun _ _ => None
|}.

Definition fresh : State := {| trace := []; now := 0 |}.

(** A queue whose membership is not managed; its delete timeout is the
    20 minutes the plugin SDK gives a resource that declares none. *)
Definition q1 : QueueData :=
  {| queue_id := "q1"; name := "Support"; members := None; timeoutDelete := 1200 |}.

Definition s1 : SegmentData :=
  {| segment_id := "s1"; segment_display_name := "Visitors"; segment_version := 1;
     segment_is_active := true |}.

Definition a1 : ActionMapData :=
  {| actionmap_id := "a1"; actionmap_display_name := "Offer chat";
     actionmap_is_active := true |}.

(** Deletes are accepted, but the object never goes away. *)
Definition lingering : Platform := {|
  on_PostRoutingQueues := on_PostRoutingQueues offline;
  on_GetRoutingQueue := fun _ id => Returned (theQueue id);
  on_DeleteRoutingQueue := fun _ _ _ => Returned tt;
  on_GetRoutingQueueMembers := on_GetRoutingQueueMembers offline;
  on_PostRoutingQueueMembers := on_PostRoutingQueueMembers offline;
  on_PatchRoutingQueueMember := on_PatchRoutingQueueMember offline;
  on_GetJourneySegments := on_GetJourneySegments offline;
  on_PostJourneySegments := on_PostJourneySegments offline;
  on_GetJourneySegment := fun _ id => Returned (theSegment id 1 (Some true));
  on_PatchJourneySegment := on_PatchJourneySegment offline;
  on_DeleteJourneySegment := fun _ _ => Returned tt;
  on_GetJourneyActionmaps := on_GetJourneyActionmaps offline;
  on_PostJourneyActionmaps := on_PostJourneyActionmaps offline;
  on_GetJourneyActionmap := fun _ id => Returned (theActionMap id 1 true);
  on_PatchJourneyActionmap := on_PatchJourneyActionmap offline;
  on_DeleteJourneyActionmap := fun _ _ => Returned tt
|}.

(** *** Vocabulary of the membership statements *)

(** What a chunk built by [range_append] puts on the wire: as many ids as the
    chunk has, each of them the last id of the chunk. *)
Definition sent (chunk : list string) : list string :=
  replicate (length chunk) (default "" (last chunk)).

(** The slices [membersToUpdate[i:end]] that the rounds of
    [updateMembersInChunks] take, from index [i] on. *)
Fixpoint batches (rounds : nat) (membersToUpdate : list string) (i : nat)
    : list (list string) :=
  match rounds with
  | O => []
  | S rounds' =>
      if i <? length membersToUpdate then
        take maxBatchSize (drop i membersToUpdate)
        :: batches rounds' membersToUpdate (i + maxBatchSize)
      else []
  end.

(** The sizes of those slices, for a list of [n] ids. *)
Fixpoint batch_sizes (rounds n i : nat) : list nat :=
  match rounds with
  | O => []
  | S rounds' =>
      if i <? n then (maxBatchSize `min` (n - i)) :: batch_sizes rounds' n (i + maxBatchSize)
      else []
  end.

(** A queue platform: members are listed page by page from [pages], batch
    calls are answered with [post] and ring number patches with [patch]. *)
Definition staffed (pages : nat -> list Queuemember) (post patch : Reply unit)
    : Platform := {|
  on_PostRoutingQueues := fun _ _ => Returned (theQueue "q1");
  on_GetRoutingQueue := fun _ id => Returned (theQueue id);
  on_DeleteRoutingQueue := fun _ _ _ => Returned tt;
  on_GetRoutingQueueMembers := fun _ _ pageNumber _ =>
    Returned (Some {| member_Entities := Some (pages pageNumber) |});
  on_PostRoutingQueueMembers := fun _ _ _ _ => post;
  on_PatchRoutingQueueMember := fun _ _ _ _ => patch;
  on_GetJourneySegments := on_GetJourneySegments offline;
  on_PostJourneySegments := on_PostJourneySegments offline;
  on_GetJourneySegment := on_GetJourneySegment offline;
  on_PatchJourneySegment := on_PatchJourneySegment offline;
  on_DeleteJourneySegment := on_DeleteJourneySegment offline;
  on_GetJourneyActionmaps := on_GetJourneyActionmaps offline;
  on_PostJourneyActionmaps := on_PostJourneyActionmaps offline;
  on_GetJourneyActionmap := on_GetJourneyActionmap offline;
  on_PatchJourneyActionmap := on_PatchJourneyActionmap offline;
  on_DeleteJourneyActionmap := on_DeleteJourneyActionmap offline
|}.

Definition member (id : string) (ringNum : Z) : Queuemember :=
  {| member_Id := id; RingNumber := ringNum |}.

(** All members on the first page. *)
Definition onePage (l : list Queuemember) (pageNumber : nat) : list Queuemember :=
  match pageNumber with
  | 1 => l
  | _ => []
  end.

(** The queue [q1] with its members configured. *)
Definition q1_with (memberList : list (string * Z)) : QueueData :=
  {| queue_id := "q1"; name := "Support"; members := Some memberList;
     timeoutDelete := 1200 |}.

(** The platform lists the members of the queue page by page from [pages],
    whatever has been called before. *)
Definition members_paged (P : Platform) (queueID : string)
    (pages : nat -> list Queuemember) : Prop :=
  forall h p,
    on_GetRoutingQueueMembers P h queueID p maxPageSize
    = Returned (Some {| member_Entities := Some (pages p) |}).

(** The members on the pages [first], ..., [first + n - 1]. *)
Definition members_of (pages : nat -> list Queuemember) (first n : nat)
    : list Queuemember :=
  concat (pages <$> seq first n).

(** The batch calls that [updateMembersInChunks] issues for [l]. *)
Definition batchCalls (queueID : string) (l : list string) (remove : bool) : list Call :=
  (fun c => PostRoutingQueueMembers queueID (sent c) remove)
    <$> batches (S (length l)) l 0.

Definition is_patch (c : Call) : Prop :=
  match c with
  | PatchRoutingQueueMember _ _ _ => True
  | _ => False
  end.

(** *** Platforms of the journey examples *)

(** Segments and action maps that are created as s1 and a1, deleted on
    request, and read and patched as the four arguments say; no queues. *)
Definition journeys
    (getSegment : list Call -> string -> Reply Journeysegment)
    (patchSegment : list Call -> string -> Z -> Reply Journeysegment)
    (getActionMap : list Call -> string -> Reply Actionmap)
    (patchActionMap : list Call -> string -> Z -> Reply Actionmap) : Platform := {|
  on_PostRoutingQueues := on_PostRoutingQueues offline;
  on_GetRoutingQueue := on_GetRoutingQueue offline;
  on_DeleteRoutingQueue := on_DeleteRoutingQueue offline;
  on_GetRoutingQueueMembers := on_GetRoutingQueueMembers offline;
  on_PostRoutingQueueMembers := on_PostRoutingQueueMembers offline;
  on_PatchRoutingQueueMember := on_PatchRoutingQueueMember offline;
  on_GetJourneySegments := on_GetJourneySegments offline;
  on_PostJourneySegments := fun _ _ => Returned (theSegment "s1" 1 (Some true));
  on_GetJourneySegment := getSegment;
  on_PatchJourneySegment := patchSegment;
  on_DeleteJourneySegment := fun _ _ => Returned tt;
  on_GetJourneyActionmaps := on_GetJourneyActionmaps offline;
  on_PostJourneyActionmaps := fun _ _ => Returned (theActionMap "a1" 1 true);
  on_GetJourneyActionmap := getActionMap;
  on_PatchJourneyActionmap := patchActionMap;
  on_DeleteJourneyActionmap := fun _ _ => Returned tt
|}.

(** A platform on which a new object is not found by the first [k] reads
    and is found from then on. *)
Definition lagging (k : nat) : Platform := {|
  on_PostRoutingQueues := fun _ _ => Returned (theQueue "q1");
  on_GetRoutingQueue := fun h id =>
    eventually k (GetRoutingQueue id) notFound (Returned (theQueue id)) h;
  on_DeleteRoutingQueue := on_DeleteRoutingQueue offline;
  on_GetRoutingQueueMembers := fun _ _ _ _ => Returned (Some {| member_Entities := None |});
  on_PostRoutingQueueMembers := on_PostRoutingQueueMembers offline;
  on_PatchRoutingQueueMember := on_PatchRoutingQueueMember offline;
  on_GetJourneySegments := on_GetJourneySegments offline;
  on_PostJourneySegments := fun _ _ => Returned (theSegment "s1" 1 (Some true));
  on_GetJourneySegment := fun h id =>
    eventually k (GetJourneySegment id) notFound
      (Returned (theSegment id 1 (Some true))) h;
  on_PatchJourneySegment := on_PatchJourneySegment offline;
  on_DeleteJourneySegment := on_DeleteJourneySegment offline;
  on_GetJourneyActionmaps := on_GetJourneyActionmaps offline;
  on_PostJourneyActionmaps := fun _ _ => Returned (theActionMap "a1" 1 true);
  on_GetJourneyActionmap := fun h id =>
    eventually k (GetJourneyActionmap id) notFound (Returned (theActionMap id 1 true)) h;
  on_PatchJourneyActionmap := on_PatchJourneyActionmap offline;
  on_DeleteJourneyActionmap := on_DeleteJourneyActionmap offline
|}.

(** Every segment and every action map is returned flagged inactive. *)
Definition dormant : Platform :=
  journeys (fun _ id => Returned (theSegment id 1 (Some false)))
           (on_PatchJourneySegment offline)
           (fun _ id => Returned (theActionMap id 1 false))
           (on_PatchJourneyActionmap offline).

(** The remote objects are at version [current]; a patch that names another
    version is rejected as a conflict. *)
Definition versioned (current : Z) : Platform :=
  journeys (fun _ id => Returned (theSegment id current (Some true)))
           (fun _ id version =>
              if bool_decide (version = current)
              then Returned (theSegment id (current + 1) (Some true))
              else conflict)
           (fun _ id => Returned (theActionMap id current true))
           (fun _ id version =>
              if bool_decide (version = current)
              then Returned (theActionMap id (current + 1) true)
              else conflict).

(** Somebody else writes the action map right after it has been read for the
    first time: the first read sees version 1, the later ones version 2, and
    only a patch that names version 2 is accepted. *)
Definition racing : Platform :=
  journeys (on_GetJourneySegment offline) (on_PatchJourneySegment offline)
           (fun h id =>
              eventually 1 (GetJourneyActionmap id) (Returned (theActionMap id 1 true))
                (Returned (theActionMap id 2 true)) h)
           (fun _ id version =>
              if bool_decide (version = 2%Z)
              then Returned (theActionMap id 3 true)
              else conflict).

(** A queue that is about to be created. *)
Definition newQueue : QueueData :=
  {| queue_id := ""; name := "Support"; members := None; timeoutDelete := 1200 |}.

(** The calls of successive attempts of [updateJourneyActionMap], each of
    them a read and a patch that names the version in [versions]. *)
Fixpoint attempts (actionMapID : string) (versions : list Z) : list Call :=
  match versions with
  | [] => []
  | version :: versions' =>
      GetJourneyActionmap actionMapID
      :: PatchJourneyActionmap actionMapID version
      :: attempts actionMapID versions'
  end.

(** After the history [tr], the platform answers the attempts that read the
    versions [vs] with a version conflict. *)
Definition conflicts (E : Engine) (P : Platform) (id : string) (tr : list Call)
    (vs : list Z) : Prop :=
  forall pre v post, vs = pre ++ v :: post ->
    (exists actionMap,
       on_GetJourneyActionmap P (tr ++ attempts id pre) id = Returned actionMap /\
       actionmap_Version actionMap = v) /\
    (exists resp patchErr,
       on_PatchJourneyActionmap P (tr ++ attempts id pre ++ [GetJourneyActionmap id]) id v
       = Failed resp patchErr /\
       isVersionMismatch E resp = true).

(** ... and accepts the patch of the attempt after them, which read [v]. *)
Definition accepts (P : Platform) (id : string) (tr : list Call) (vs : list Z)
    (v : Z) : Prop :=
  (exists actionMap,
     on_GetJourneyActionmap P (tr ++ attempts id vs) id = Returned actionMap /\
     actionmap_Version actionMap = v) /\
  (exists actionMap',
     on_PatchJourneyActionmap P (tr ++ attempts id vs ++ [GetJourneyActionmap id]) id v
     = Returned actionMap').

(** *** Vocabulary of the listing statements *)

(** The page has at least one entity. *)
Definition nonempty {A} (entities : option (list A)) : Prop :=
  match entities with
  | Some (_ :: _) => True
  | _ => False
  end.

(** The entities of the pages [first], ..., [first + n - 1]. *)
Definition entities_of {A} (entities : nat -> option (list A)) (first n : nat) : list A :=
  concat ((fun p => default [] (entities p)) <$> seq first n).

(** The platform serves the segments page by page from [entities], whatever
    has been called before. *)
Definition segments_paged (P : Platform)
    (entities : nat -> option (list Journeysegment)) : Prop :=
  forall h p,
    on_GetJourneySegments P h pageSize p = Returned {| segment_Entities := entities p |}.

(** The platform serves the action maps page by page from [entities] and
    reports the page count [counts p] with page [p]. *)
Definition actionmaps_paged (P : Platform)
    (entities : nat -> option (list Actionmap)) (counts : nat -> Z) : Prop :=
  forall h p,
    on_GetJourneyActionmaps P h p pageSize
    = Returned {| actionmap_Entities := entities p; PageCount := counts p |}.

(** The page count that decides whether the page after [n] pages read from
    [pageNum] on is requested. *)
Definition count_before (pageCount : Z) (counts : nat -> Z) (pageNum n : nat) : Z :=
  match n with
  | O => pageCount
  | S n' => counts (pageNum + n')
  end.

(** The segments (or action maps) of page [p] of a catalogue of [pages]
    pages with [perPage] entities each, all with different ids. *)
Definition catalogueIds (pages perPage p : nat) : list string :=
  if (1 <=? p) && (p <=? pages)
  then (fun k => String (Ascii.ascii_of_nat (64 + p)) (String (Ascii.ascii_of_nat k) ""))
         <$> seq 1 perPage
  else [].

Definition catalogue (pages perPage : nat) : Platform := {|
  on_PostRoutingQueues := on_PostRoutingQueues offline;
  on_GetRoutingQueue := on_GetRoutingQueue offline;
  on_DeleteRoutingQueue := on_DeleteRoutingQueue offline;
  on_GetRoutingQueueMembers := on_GetRoutingQueueMembers offline;
  on_PostRoutingQueueMembers := on_PostRoutingQueueMembers offline;
  on_PatchRoutingQueueMember := on_PatchRoutingQueueMember offline;
  on_GetJourneySegments := fun _ _ p =>
    Returned {| segment_Entities :=
                  Some ((fun id => theSegment id 1 (Some true))
                          <$> catalogueIds pages perPage p) |};
  on_PostJourneySegments := on_PostJourneySegments offline;
  on_GetJourneySegment := on_GetJourneySegment offline;
  on_PatchJourneySegment := on_PatchJourneySegment offline;
  on_DeleteJourneySegment := on_DeleteJourneySegment offline;
  on_GetJourneyActionmaps := fun _ p _ =>
    Returned {| actionmap_Entities :=
                  Some ((fun id => theActionMap id 1 true)
                          <$> catalogueIds pages perPage p);
                PageCount := Z.of_nat pages |};
  on_PostJourneyActionmaps := on_PostJourneyActionmaps offline;
  on_GetJourneyActionmap := on_GetJourneyActionmap offline;
  on_PatchJourneyActionmap := on_PatchJourneyActionmap offline;
  on_DeleteJourneyActionmap := on_DeleteJourneyActionmap offline
|}.

(** *** Vocabulary of the further membership and read statements *)

(** The platform lists the pages before page [k] from [pages] and fails on
    page [k]. *)
Definition members_fail_at (P : Platform) (queueID : string)
    (pages : nat -> list Queuemember) (k : nat) (resp : option APIResponse)
    (err : error) : Prop :=
  (forall h p, p < k ->
     on_GetRoutingQueueMembers P h queueID p maxPageSize
     = Returned (Some {| member_Entities := Some (pages p) |})) /\
  (forall h, on_GetRoutingQueueMembers P h queueID k maxPageSize = Failed resp err).

(** The test of the ring number loop: the number of a user who is in the
    queue differs from the old one, or that of a new user from the default
    of 1. *)
Definition ringNumDiffers (oldUserRingNums : gmap string Z) (entry : string * Z) : bool :=
  match oldUserRingNums !! entry.1 with
  | Some oldNum => bool_decide (entry.2 ≠ oldNum)
  | None => bool_decide (entry.2 ≠ 1%Z)
  end.

Definition ringNumPatch (queueID : string) (entry : string * Z) : Call :=
  PatchRoutingQueueMember queueID entry.1 entry.2.

(** What a batch call may carry, by its direction. *)
Definition carries_only (queueID : string) (toRemove toAdd : list string) (c : Call)
    : Prop :=
  match c with
  | PostRoutingQueueMembers q body true => q = queueID /\ forall x, x ∈ body -> x ∈ toRemove
  | PostRoutingQueueMembers q body false => q = queueID /\ forall x, x ∈ body -> x ∈ toAdd
  | PatchRoutingQueueMember q _ _ => q = queueID
  | _ => False
  end.

(** A queue platform whose member listing fails on page [k]. *)
Definition staffedUntil (k : nat) (pages : nat -> list Queuemember) : Platform := {|
  on_PostRoutingQueues := fun _ _ => Returned (theQueue "q1");
  on_GetRoutingQueue := fun _ id => Returned (theQueue id);
  on_DeleteRoutingQueue := fun _ _ _ => Returned tt;
  on_GetRoutingQueueMembers := fun _ _ pageNumber _ =>
    if pageNumber <? k
    then Returned (Some {| member_Entities := Some (pages pageNumber) |})
    else serverError;
  on_PostRoutingQueueMembers := fun _ _ _ _ => Returned tt;
  on_PatchRoutingQueueMember := fun _ _ _ _ => Returned tt;
  on_GetJourneySegments := on_GetJourneySegments offline;
  on_PostJourneySegments := on_PostJourneySegments offline;
  on_GetJourneySegment := on_GetJourneySegment offline;
  on_PatchJourneySegment := on_PatchJourneySegment offline;
  on_DeleteJourneySegment := on_DeleteJourneySegment offline;
  on_GetJourneyActionmaps := on_GetJourneyActionmaps offline;
  on_PostJourneyActionmaps := on_PostJourneyActionmaps offline;
  on_GetJourneyActionmap := on_GetJourneyActionmap offline;
  on_PatchJourneyActionmap := on_PatchJourneyActionmap offline;
  on_DeleteJourneyActionmap := on_DeleteJourneyActionmap offline
|}.

(** Two full pages of members would need ids; these pages hold one member
    each: a on page 1, b on page 2. *)
Definition twoPages (pageNumber : nat) : list Queuemember :=
  match pageNumber with
  | 1 => [member "a" 1]
  | 2 => [member "b" 2]
  | _ => []
  end.

(** A queue platform that rejects the patch of the ring number of [userID]
    and accepts every other call. *)
Definition refusing (userID : string) : Platform := {|
  on_PostRoutingQueues := fun _ _ => Returned (theQueue "q1");
  on_GetRoutingQueue := fun _ id => Returned (theQueue id);
  on_DeleteRoutingQueue := fun _ _ _ => Returned tt;
  on_GetRoutingQueueMembers := fun _ _ pageNumber _ =>
    Returned (Some {| member_Entities := Some (twoPages pageNumber) |});
  on_PostRoutingQueueMembers := fun _ _ _ _ => Returned tt;
  on_PatchRoutingQueueMember := fun _ _ u _ =>
    if bool_decide (u = userID) then serverError else Returned tt;
  on_GetJourneySegments := on_GetJourneySegments offline;
  on_PostJourneySegments := on_PostJourneySegments offline;
  on_GetJourneySegment := on_GetJourneySegment offline;
  on_PatchJourneySegment := on_PatchJourneySegment offline;
  on_DeleteJourneySegment := on_DeleteJourneySegment offline;
  on_GetJourneyActionmaps := on_GetJourneyActionmaps offline;
  on_PostJourneyActionmaps := on_PostJourneyActionmaps offline;
  on_GetJourneyActionmap := on_GetJourneyActionmap offline;
  on_PatchJourneyActionmap := on_PatchJourneyActionmap offline;
  on_DeleteJourneyActionmap := on_DeleteJourneyActionmap offline
|}.

(** A queue platform that lists the members a and b and rejects every call
    that would change anything. *)
Definition offlineMembers : Platform := {|
  on_PostRoutingQueues := on_PostRoutingQueues offline;
  on_GetRoutingQueue := fun _ id => Returned (theQueue id);
  on_DeleteRoutingQueue := on_DeleteRoutingQueue offline;
  on_GetRoutingQueueMembers := fun _ _ pageNumber _ =>
    Returned (Some {| member_Entities := Some (twoPages pageNumber) |});
  on_PostRoutingQueueMembers := on_PostRoutingQueueMembers offline;
  on_PatchRoutingQueueMember := on_PatchRoutingQueueMember offline;
  on_GetJourneySegments := on_GetJourneySegments offline;
  on_PostJourneySegments := on_PostJourneySegments offline;
  on_GetJourneySegment := on_GetJourneySegment offline;
  on_PatchJourneySegment := on_PatchJourneySegment offline;
  on_DeleteJourneySegment := on_DeleteJourneySegment offline;
  on_GetJourneyActionmaps := on_GetJourneyActionmaps offline;
  on_PostJourneyActionmaps := on_PostJourneyActionmaps offline;
  on_GetJourneyActionmap := on_GetJourneyActionmap offline;
  on_PatchJourneyActionmap := on_PatchJourneyActionmap offline;
  on_DeleteJourneyActionmap := on_DeleteJourneyActionmap offline
|}.

(** The catalogue, out of order from page [k] on. *)
Definition catalogueUntil (k pages perPage : nat) : Platform := {|
  on_PostRoutingQueues := on_PostRoutingQueues offline;
  on_GetRoutingQueue := on_GetRoutingQueue offline;
  on_DeleteRoutingQueue := on_DeleteRoutingQueue offline;
  on_GetRoutingQueueMembers := on_GetRoutingQueueMembers offline;
  on_PostRoutingQueueMembers := on_PostRoutingQueueMembers offline;
  on_PatchRoutingQueueMember := on_PatchRoutingQueueMember offline;
  on_GetJourneySegments := fun h size p =>
    if p <? k then on_GetJourneySegments (catalogue pages perPage) h size p
    else serverError;
  on_PostJourneySegments := on_PostJourneySegments offline;
  on_GetJourneySegment := on_GetJourneySegment offline;
  on_PatchJourneySegment := on_PatchJourneySegment offline;
  on_DeleteJourneySegment := on_DeleteJourneySegment offline;
  on_GetJourneyActionmaps := fun h p size =>
    if p <? k then on_GetJourneyActionmaps (catalogue pages perPage) h p size
    else serverError;
  on_PostJourneyActionmaps := on_PostJourneyActionmaps offline;
  on_GetJourneyActionmap := on_GetJourneyActionmap offline;
  on_PatchJourneyActionmap := on_PatchJourneyActionmap offline;
  on_DeleteJourneyActionmap := on_DeleteJourneyActionmap offline
|}.

(** A listing that returns the same id twice, under two names. *)
Definition renamed (pageNumber : nat) : option (list Journeysegment) :=
  match pageNumber with
  | 1 => Some [{| segment_Id := "s1"; segment_DisplayName := "Visitors";
                  segment_Version := 1; segment_IsActive := Some true |};
               {| segment_Id := "s2"; segment_DisplayName := "Buyers";
                  segment_Version := 1; segment_IsActive := Some true |}]
  | 2 => Some [{| segment_Id := "s1"; segment_DisplayName := "Guests";
                  segment_Version := 2; segment_IsActive := Some true |}]
  | _ => Some []
  end.

Definition renaming : Platform := {|
  on_PostRoutingQueues := on_PostRoutingQueues offline;
  on_GetRoutingQueue := on_GetRoutingQueue offline;
  on_DeleteRoutingQueue := on_DeleteRoutingQueue offline;
  on_GetRoutingQueueMembers := on_GetRoutingQueueMembers offline;
  on_PostRoutingQueueMembers := on_PostRoutingQueueMembers offline;
  on_PatchRoutingQueueMember := on_PatchRoutingQueueMember offline;
  on_GetJourneySegments := fun _ _ p => Returned {| segment_Entities := renamed p |};
  on_PostJourneySegments := on_PostJourneySegments offline;
  on_GetJourneySegment := on_GetJourneySegment offline;
  on_PatchJourneySegment := on_PatchJourneySegment offline;
  on_DeleteJourneySegment := on_DeleteJourneySegment offline;
  on_GetJourneyActionmaps := on_GetJourneyActionmaps offline;
  on_PostJourneyActionmaps := on_PostJourneyActionmaps offline;
  on_GetJourneyActionmap := on_GetJourneyActionmap offline;
  on_PatchJourneyActionmap := on_PatchJourneyActionmap offline;
  on_DeleteJourneyActionmap := on_DeleteJourneyActionmap offline
|}.

(** *** Vocabulary of the statements on the end of the member listing *)

(** The reply ends the listing of the members: the listing is nil, its
    entities are nil, or there are none of them. *)
Definition ends_listing (r : Reply (option Queuememberentitylisting)) : Prop :=
  r = Returned None \/
  r = Returned (Some {| member_Entities := None |}) \/
  r = Returned (Some {| member_Entities := Some [] |}).

(** The platform lists the members of the [n] pages from page [first] on
    from [pages], at least one a page, and ends the listing on the page
    after them, in one of the three ways. *)
Definition members_end_after (P : Platform) (queueID : string)
    (pages : nat -> list Queuemember) (first n : nat) : Prop :=
  (forall h j, j < n ->
     on_GetRoutingQueueMembers P h queueID (first + j) maxPageSize
     = Returned (Some {| member_Entities := Some (pages (first + j)) |})) /\
  (forall j, j < n -> pages (first + j) <> []) /\
  (forall h, ends_listing (on_GetRoutingQueueMembers P h queueID (first + n) maxPageSize)).

(** The call reads the queue, or a page of 100 of its members. *)
Definition reads_queue (queueID : string) (c : Call) : Prop :=
  match c with
  | GetRoutingQueue q => q = queueID
  | GetRoutingQueueMembers q _ size => q = queueID /\ size = 100
  | _ => False
  end.

(** A queue platform whose member listing has the pages before page [k]
    from [pages] and answers [ending] from page [k] on. *)
Definition staffedEnding (k : nat) (pages : nat -> list Queuemember)
    (ending : Reply (option Queuememberentitylisting)) : Platform := {|
  on_PostRoutingQueues := fun _ _ => Returned (theQueue "q1");
  on_GetRoutingQueue := fun _ id => Returned (theQueue id);
  on_DeleteRoutingQueue := fun _ _ _ => Returned tt;
  on_GetRoutingQueueMembers := fun _ _ pageNumber _ =>
    if pageNumber <? k
    then Returned (Some {| member_Entities := Some (pages pageNumber) |})
    else ending;
  on_PostRoutingQueueMembers := fun _ _ _ _ => Returned tt;
  on_PatchRoutingQueueMember := fun _ _ _ _ => Returned tt;
  on_GetJourneySegments := on_GetJourneySegments offline;
  on_PostJourneySegments := on_PostJourneySegments offline;
  on_GetJourneySegment := on_GetJourneySegment offline;
  on_PatchJourneySegment := on_PatchJourneySegment offline;
  on_DeleteJourneySegment := on_DeleteJourneySegment offline;
  on_GetJourneyActionmaps := on_GetJourneyActionmaps offline;
  on_PostJourneyActionmaps := on_PostJourneyActionmaps offline;
  on_GetJourneyActionmap := on_GetJourneyActionmap offline;
  on_PatchJourneyActionmap := on_PatchJourneyActionmap offline;
  on_DeleteJourneyActionmap := on_DeleteJourneyActionmap offline
|}.

(** Pages that list the member a twice: with b on page 1, and again on
    page 2. *)
Definition doubled (pageNumber : nat) : list Queuemember :=
  match pageNumber with
  | 1 => [member "a" 1; member "b" 2]
  | 2 => [member "a" 1]
  | _ => []
  end.

(** A listing of two pages that returns the action map a1 twice, under two
    names, and reports its two pages. *)
Definition renamedMaps (pageNumber : nat) : option (list Actionmap) :=
  match pageNumber with
  | 1 => Some [{| actionmap_Id := "a1"; actionmap_DisplayName := "Offer chat";
                  actionmap_Version := 1; actionmap_IsActive := true |};
               {| actionmap_Id := "a2"; actionmap_DisplayName := "Offer help";
                  actionmap_Version := 1; actionmap_IsActive := true |}]
  | 2 => Some [{| actionmap_Id := "a1"; actionmap_DisplayName := "Offer callback";
                  actionmap_Version := 2; actionmap_IsActive := true |};
               {| actionmap_Id := "a3"; actionmap_DisplayName := "Offer survey";
                  actionmap_Version := 1; actionmap_IsActive := true |}]
  | _ => Some []
  end.

Definition renamingMaps : Platform := {|
  on_PostRoutingQueues := on_PostRoutingQueues offline;
  on_GetRoutingQueue := on_GetRoutingQueue offline;
  on_DeleteRoutingQueue := on_DeleteRoutingQueue offline;
  on_GetRoutingQueueMembers := on_GetRoutingQueueMembers offline;
  on_PostRoutingQueueMembers := on_PostRoutingQueueMembers offline;
  on_PatchRoutingQueueMember := on_PatchRoutingQueueMember offline;
  on_GetJourneySegments := on_GetJourneySegments offline;
  on_PostJourneySegments := on_PostJourneySegments offline;
  on_GetJourneySegment := on_GetJourneySegment offline;
  on_PatchJourneySegment := on_PatchJourneySegment offline;
  on_DeleteJourneySegment := on_DeleteJourneySegment offline;
  on_GetJourneyActionmaps := fun _ p _ =>
    Returned {| actionmap_Entities := renamedMaps p; PageCount := 2 |};
  on_PostJourneyActionmaps := on_PostJourneyActionmaps offline;
  on_GetJourneyActionmap := on_GetJourneyActionmap offline;
  on_PatchJourneyActionmap := on_PatchJourneyActionmap offline;
  on_DeleteJourneyActionmap := on_DeleteJourneyActionmap offline
|}.


(** ** The settings of the queue *)

(** A [float64]; the code passes these on and never computes with them. *)
Record float64 := { float64_bits : N }.

(** What the [interface{}] of an attribute of a block holds: a string, an
    int, a float64 or a [schema.Set] of strings. *)
Inductive Value :=
| VString (s : string)
| VInt (n : Z)
| VFloat (f : float64)
| VSet (items : gset string).

Global Instance float64_eq_dec : EqDecision float64.
Proof. solve_decision. Defined.

Global Instance Value_eq_dec : EqDecision Value.
Proof. solve_decision. Defined.

(** [map[string]interface{}]: one block of the configuration. *)
Abbreviation Block := (gmap string Value).

(** The type assertions on the value of a key.  [None] is where the
    two-valued form gives [ok = false] and the one-valued form panics; a key
    that is not in the map gives the nil interface, which no assertion
    accepts. *)
Definition as_string (v : option Value) : option string :=
  match v with Some (VString s) => Some s | _ => None end.

Definition as_int (v : option Value) : option Z :=
  match v with Some (VInt n) => Some n | _ => None end.

Definition as_float (v : option Value) : option float64 :=
  match v with Some (VFloat f) => Some f | _ => None end.

Definition as_set (v : option Value) : option (gset string) :=
  match v with Some (VSet items) => Some items | _ => None end.

(** The attributes of the [schema.ResourceData] that the builders below
    read.  A list attribute that is not set reads as the empty list, which
    is also what [GetOk] reports as not set. *)
Record QueueConfig := {
  media_settings_call : list Block;
  media_settings_callback : list Block;
  media_settings_chat : list Block;
  media_settings_email : list Block;
  media_settings_message : list Block;
  media_settings_social : list Block;
  media_settings_video : list Block;
  routing_rules : list Block;
  bullseye_rings : list Block;
  outbound_email_address : list Block
}.

Definition mediaSettingsKeyCall : string := "call".
Definition mediaSettingsKeyCallback : string := "callback".
Definition mediaSettingsKeyChat : string := "chat".
Definition mediaSettingsKeyEmail : string := "email".
Definition mediaSettingsKeyMessage : string := "message".
Definition mediaSettingsKeySocial : string := "socialExpression".
Definition mediaSettingsKeyVideo : string := "videoComm".

Definition bullseyeExpansionTypeTimeout : string := "TIMEOUT_SECONDS".

(** [platformclientv2.Servicelevel] and [platformclientv2.Mediasetting];
    a pointer field is [None] when nil. *)
Record Servicelevel := {
  Percentage : option float64;
  DurationMs : option Z
}.

Record Mediasetting := {
  AlertingTimeoutSeconds : option Z;
  ServiceLevel : option Servicelevel
}.

(** The builders return [None] where the Go code panics: an index out of
    range, a failed one-valued type assertion, a nil pointer dereferenced. *)
Definition buildSdkMediaSetting (settings : list Block) : option Mediasetting :=
  settingsMap ← settings !! 0;
  alertingTimeout ← as_int (settingsMap !! "alerting_timeout_sec");
  serviceLevelPct ← as_float (settingsMap !! "service_level_percentage");
  serviceLevelDur ← as_int (settingsMap !! "service_level_duration_ms");
  Some {| AlertingTimeoutSeconds := Some alertingTimeout;
          ServiceLevel := Some {| Percentage := Some serviceLevelPct;
                                  DurationMs := Some serviceLevelDur |} |}.

Definition flattenMediaSetting (settings : Mediasetting) : option Block :=
  alertingTimeout ← AlertingTimeoutSeconds settings;
  serviceLevel ← ServiceLevel settings;
  pct ← Percentage serviceLevel;
  dur ← DurationMs serviceLevel;
  Some (<["service_level_duration_ms" := VInt dur]>
          (<["service_level_percentage" := VFloat pct]>
             (<["alerting_timeout_sec" := VInt alertingTimeout]> ∅))).

(** One of the seven statements of [buildSdkMediaSettings]:
    [if blocks != nil && len(blocks) > 0 { settings[key] = buildSdkMediaSetting(blocks) }]. *)
Definition setMediaSetting (key : string) (blocks : list Block)
    (settings : gmap string Mediasetting) : option (gmap string Mediasetting) :=
  if 0 <? length blocks
  then setting ← buildSdkMediaSetting blocks; Some (<[key := setting]> settings)
  else Some settings.

Definition buildSdkMediaSettings (d : QueueConfig) : option (gmap string Mediasetting) :=
  settings ← setMediaSetting mediaSettingsKeyCall (media_settings_call d) ∅;
  settings ← setMediaSetting mediaSettingsKeyCallback (media_settings_callback d) settings;
  settings ← setMediaSetting mediaSettingsKeyChat (media_settings_chat d) settings;
  settings ← setMediaSetting mediaSettingsKeyEmail (media_settings_email d) settings;
  settings ← setMediaSetting mediaSettingsKeyMessage (media_settings_message d) settings;
  settings ← setMediaSetting mediaSettingsKeySocial (media_settings_social d) settings;
  setMediaSetting mediaSettingsKeyVideo (media_settings_video d) settings.

(** [platformclientv2.Routingrule]. *)
Record Routingrule := {
  Operator : option string;
  rule_Threshold : option Z;
  WaitSeconds : option float64
}.

(** The [for _, configRule := range configRoutingRules] loop: the operator
    and the wait are taken when they have their type, the threshold is
    asserted to be an int whenever the key is there. *)
Fixpoint buildSdkRoutingRules_range (configRoutingRules : list Block)
    (routingRules : list Routingrule) : option (list Routingrule) :=
  match configRoutingRules with
  | [] => Some routingRules
  | ruleSettings :: rest =>
      threshold ← match ruleSettings !! "threshold" with
                  | Some threshold => v ← as_int (Some threshold); Some (Some v)
                  | None => Some None
                  end;
      let sdkRule := {| Operator := as_string (ruleSettings !! "operator");
                        rule_Threshold := threshold;
                        WaitSeconds := as_float (ruleSettings !! "wait_seconds") |} in
      buildSdkRoutingRules_range rest (routingRules ++ [sdkRule])
  end.

(** [GetOk] reports an empty list as not set; the nil slice that is then
    returned is the empty list. *)
Definition buildSdkRoutingRules (d : QueueConfig) : option (list Routingrule) :=
  if 0 <? length (routing_rules d)
  then buildSdkRoutingRules_range (routing_rules d) []
  else Some [].

(** The body of the loop of [flattenRoutingRules]. *)
Definition flattenRoutingRule (sdkRule : Routingrule) : Block :=
  let ruleSettings : Block := ∅ in
  let ruleSettings :=
    match Operator sdkRule with
    | Some operator => <["operator" := VString operator]> ruleSettings
    | None => ruleSettings
    end in
  let ruleSettings :=
    match rule_Threshold sdkRule with
    | Some threshold => <["threshold" := VInt threshold]> ruleSettings
    | None => ruleSettings
    end in
  match WaitSeconds sdkRule with
  | Some waitSeconds => <["wait_seconds" := VFloat waitSeconds]> ruleSettings
  | None => ruleSettings
  end.

Definition flattenRoutingRules (sdkRoutingRules : list Routingrule) : list Block :=
  flattenRoutingRule <$> sdkRoutingRules.

(** [platformclientv2.Skillstoremove], [Actions], [Expansioncriterium],
    [Ring] and [Bullseye].  The id of a skill is a pointer into the store of
    string variables, as the ids of the batches are; the other pointers are
    each taken once, of a variable of their own, and are modelled by what
    they point to. *)
Record Skillstoremove := { skill_Id : option loc }.

Record Actions := { SkillsToRemove : option (list Skillstoremove) }.

Record Expansioncriterium := {
  VarType : option string;
  criterium_Threshold : option float64
}.

Record Ring := {
  ExpansionCriteria : option (list Expansioncriterium);
  ring_Actions : option Actions
}.

Record Bullseye := { Rings : option (list Ring) }.

(** The [for i, id := range skillIds] loop.  Other than the loop of the
    batches, its body declares a variable of its own, [skillID := id.(string)],
    so every iteration has a new one, at a new address, and element [i]
    points to it. *)
Fixpoint skills_range (skillIds : list string) (i : nat) (σ : store)
    (sdkSkillsToRemove : list Skillstoremove) : store * list Skillstoremove :=
  match skillIds with
  | [] => (σ, sdkSkillsToRemove)
  | id :: rest =>
      skills_range rest (S i) (σ ++ [id])
        (<[i := {| skill_Id := Some (length σ) |}]> sdkSkillsToRemove)
  end.

(** The body of the [for _, configRing := range configRings] loop; the
    list of a set is the list of its elements, in the order the set gives. *)
Definition buildSdkRing (ringSettings : Block) (σ : store) : option (store * Ring) :=
  let criteria :=
    match as_float (ringSettings !! "expansion_timeout_seconds") with
    | Some waitSeconds =>
        Some [{| VarType := Some bullseyeExpansionTypeTimeout;
                 criterium_Threshold := Some waitSeconds |}]
    | None => None
    end in
  match ringSettings !! "skills_to_remove" with
  | Some skillsToRemove =>
      items ← as_set (Some skillsToRemove);
      let skillIds := elements items in
      if 0 <? length skillIds then
        let '(σ', sdkSkillsToRemove) :=
          skills_range skillIds 0 σ
            (replicate (length skillIds) {| skill_Id := None |}) in
        Some (σ', {| ExpansionCriteria := criteria;
                     ring_Actions := Some {| SkillsToRemove := Some sdkSkillsToRemove |} |})
      else Some (σ, {| ExpansionCriteria := criteria; ring_Actions := None |})
  | None => Some (σ, {| ExpansionCriteria := criteria; ring_Actions := None |})
  end.

Fixpoint buildSdkRings (configRings : list Block) (σ : store) (sdkRings : list Ring)
    : option (store * list Ring) :=
  match configRings with
  | [] => Some (σ, sdkRings)
  | ringSettings :: rest =>
      '(σ', sdkRing) ← buildSdkRing ringSettings σ;
      buildSdkRings rest σ' (sdkRings ++ [sdkRing])
  end.

(** The result is nil when [GetOk] finds no rings. *)
Definition buildSdkBullseyeSettings (d : QueueConfig) (σ : store)
    : option (store * option Bullseye) :=
  if 0 <? length (bullseye_rings d) then
    '(σ', sdkRings) ← buildSdkRings (bullseye_rings d) σ [];
    Some (σ', Some {| Rings := Some sdkRings |})
  else Some (σ, None).

(** The [for _, criteria := range *sdkRing.ExpansionCriteria] loop, which
    stops at the first criterium of the timeout type. *)
Fixpoint flattenExpansionCriteria (criteria : list Expansioncriterium)
    (ringSettings : Block) : option Block :=
  match criteria with
  | [] => Some ringSettings
  | criterium :: rest =>
      varType ← VarType criterium;
      if bool_decide (varType = bullseyeExpansionTypeTimeout)
      then threshold ← criterium_Threshold criterium;
           Some (<["expansion_timeout_seconds" := VFloat threshold]> ringSettings)
      else flattenExpansionCriteria rest ringSettings
  end.

(** The [for s, skill := range *sdkRing.Actions.SkillsToRemove] loop, which
    reads every id through its pointer. *)
Definition flattenSkills (σ : store) (skills : list Skillstoremove) : option (list string) :=
  mapM (fun skill => p ← skill_Id skill; Some (deref σ p)) skills.

(** The body of the loop of [flattenBullseyeRings]; [schema.NewSet] makes
    the set of the ids. *)
Definition flattenBullseyeRing (σ : store) (sdkRing : Ring) : option Block :=
  ringSettings ← match ExpansionCriteria sdkRing with
                 | Some criteria => flattenExpansionCriteria criteria ∅
                 | None => Some ∅
                 end;
  match ring_Actions sdkRing with
  | Some {| SkillsToRemove := Some skills |} =>
      skillIds ← flattenSkills σ skills;
      Some (<["skills_to_remove" := VSet (list_to_set skillIds)]> ringSettings)
  | _ => Some ringSettings
  end.

Definition flattenBullseyeRings (σ : store) (sdkRings : list Ring) : option (list Block) :=
  mapM (flattenBullseyeRing σ) sdkRings.

(** [platformclientv2.Domainentityref], [Inboundroute] and
    [Queueemailaddress].  A [Domainentityref] has an id and a name; an
    [Inboundroute] has, besides its id, further fields that the platform
    fills in, of which the model keeps the name.  The code below sets and
    reads the two ids. *)
Record Domainentityref := {
  domain_Id : option string;
  domain_Name : option string
}.

Record Inboundroute := {
  route_Id : option string;
  route_Name : option string
}.

Record Queueemailaddress := {
  Domain : option Domainentityref;
  Route : option Inboundroute
}.

(** The result is nil when there is no block. *)
Definition buildSdkQueueEmailAddress (d : QueueConfig) : option (option Queueemailaddress) :=
  if 0 <? length (outbound_email_address d) then
    settingsMap ← outbound_email_address d !! 0;
    domainID ← as_string (settingsMap !! "domain_id");
    routeID ← as_string (settingsMap !! "route_id");
    Some (Some {| Domain := Some {| domain_Id := Some domainID; domain_Name := None |};
                  Route := Some {| route_Id := Some routeID; route_Name := None |} |})
  else Some None.

Definition flattenQueueEmailAddress (settings : Queueemailaddress) : option Block :=
  domain ← Domain settings;
  domainID ← domain_Id domain;
  route ← Route settings;
  routeID ← route_Id route;
  Some (<["route_id" := VString routeID]> (<["domain_id" := VString domainID]> ∅)).

(** The communication types [validateMapCommTypes] accepts. *)
Definition commTypes : list string :=
  ["CALL"; "CALLBACK"; "CHAT"; "COBROWSE"; "EMAIL"; "MESSAGE"; "SOCIAL_EXPRESSION";
   "VIDEO"; "SCREENSHARE"].

Section Validation.
(** [stringInSlice] is a helper of another file of the package. *)
Variable stringInSlice : string -> list string -> bool.

(** The [for k := range m] loop, over the keys in the order the iteration
    visits them. *)
Fixpoint validateMapCommTypes_range (keys : list string) : Diagnostics :=
  match keys with
  | [] => []
  | k :: rest =>
      if negb (stringInSlice k commTypes)
      then diag_Errorf (k +:+ " is an invalid communication type key.")
      else validateMapCommTypes_range rest
  end.

(** [val] is [None] for the nil interface; [keys] are the keys of the map
    in the order the iteration visits them. *)
Definition validateMapCommTypes (val : option Block) (keys : list string)
    : Diagnostics :=
  match val with
  | None => []
  | Some m => validateMapCommTypes_range keys
  end.
End Validation.

(** *** Vocabulary of the statements on the settings *)

(** The attributes of a media settings block. *)
Definition mediaSettingAttributes : gset string :=
  {[ "alerting_timeout_sec"; "service_level_percentage"; "service_level_duration_ms" ]}.

(** The media settings attributes of the queue, with the key of each in the
    map that is sent. *)
Definition mediaSettings : list (string * (QueueConfig -> list Block)) :=
  [ (mediaSettingsKeyCall, media_settings_call);
    (mediaSettingsKeyCallback, media_settings_callback);
    (mediaSettingsKeyChat, media_settings_chat);
    (mediaSettingsKeyEmail, media_settings_email);
    (mediaSettingsKeyMessage, media_settings_message);
    (mediaSettingsKeySocial, media_settings_social);
    (mediaSettingsKeyVideo, media_settings_video) ].

(** A media settings block as the schema requires it. *)
Definition mediaBlock (alertingTimeout : Z) (pct : float64) (dur : Z) : Block :=
  <["alerting_timeout_sec" := VInt alertingTimeout]>
    (<["service_level_percentage" := VFloat pct]>
       (<["service_level_duration_ms" := VInt dur]> ∅)).

(** 0.8 as a double. *)
Definition eightTenths : float64 := {| float64_bits := 4605380978949069210 |}.

(** 5.0 as a double. *)
Definition five : float64 := {| float64_bits := 4617315517961601024 |}.

(** A queue without settings. *)
Definition plain : QueueConfig := {|
  media_settings_call := []; media_settings_callback := []; media_settings_chat := [];
  media_settings_email := []; media_settings_message := []; media_settings_social := [];
  media_settings_video := []; routing_rules := []; bullseye_rings := [];
  outbound_email_address := []
|}.

(** A queue with settings for calls and chats. *)
Definition callsAndChats : QueueConfig := {|
  media_settings_call := [mediaBlock 8 eightTenths 20000];
  media_settings_callback := [];
  media_settings_chat := [mediaBlock 30 eightTenths 10000];
  media_settings_email := []; media_settings_message := []; media_settings_social := [];
  media_settings_video := []; routing_rules := []; bullseye_rings := [];
  outbound_email_address := []
|}.

(** The rule a block describes: of each attribute, what has its type. *)
Definition ruleOf (ruleSettings : Block) : Routingrule :=
  {| Operator := as_string (ruleSettings !! "operator");
     rule_Threshold := as_int (ruleSettings !! "threshold");
     WaitSeconds := as_float (ruleSettings !! "wait_seconds") |}.

(** The block [flat] has nothing the block [block] has not, and the
    attributes of a routing rule that have their type in [block] are in
    [flat]. *)
Definition sameRule (block flat : Block) : Prop :=
  flat ⊆ block /\
  as_string (flat !! "operator") = as_string (block !! "operator") /\
  as_int (flat !! "threshold") = as_int (block !! "threshold") /\
  as_float (flat !! "wait_seconds") = as_float (block !! "wait_seconds").

(** The threshold of the block, if there is one, is an int. *)
Definition thresholdIsInt (block : Block) : Prop :=
  block !! "threshold" = None \/ is_Some (as_int (block !! "threshold")).

(** A queue with the routing rules [rules]. *)
Definition ruled (rules : list Block) : QueueConfig := {|
  media_settings_call := []; media_settings_callback := []; media_settings_chat := [];
  media_settings_email := []; media_settings_message := []; media_settings_social := [];
  media_settings_video := []; routing_rules := rules; bullseye_rings := [];
  outbound_email_address := []
|}.

Definition anyAgent : Routingrule :=
  {| Operator := Some "ANY"; rule_Threshold := None; WaitSeconds := Some five |}.

Definition goodAgent : Routingrule :=
  {| Operator := Some "MEETS_THRESHOLD"; rule_Threshold := Some 9%Z; WaitSeconds := None |}.

(** The skills of the ring block, if there are any, are a set. *)
Definition skillsAreSet (block : Block) : Prop :=
  block !! "skills_to_remove" = None \/ is_Some (as_set (block !! "skills_to_remove")).

(** The block [flat] is what the ring block [block] is read back as: it
    has the timeout if [block] has one that is a float, it has the skills if
    [block] has a set of skills that is not empty -- and no skills attribute
    if the set is empty or is not there --, and it has no other attribute. *)
Definition sameRing (block flat : Block) : Prop :=
  flat !! "expansion_timeout_seconds"
  = (VFloat <$> as_float (block !! "expansion_timeout_seconds")) /\
  flat !! "skills_to_remove"
  = match as_set (block !! "skills_to_remove") with
    | Some items => if decide (items = ∅) then None else Some (VSet items)
    | None => None
    end /\
  (forall k, k <> "expansion_timeout_seconds" -> k <> "skills_to_remove" ->
             flat !! k = None).

(** A queue with the bullseye rings [rings]. *)
Definition ringed (rings : list Block) : QueueConfig := {|
  media_settings_call := []; media_settings_callback := []; media_settings_chat := [];
  media_settings_email := []; media_settings_message := []; media_settings_social := [];
  media_settings_video := []; routing_rules := []; bullseye_rings := rings;
  outbound_email_address := []
|}.

Definition ringBlock (timeout : float64) (skills : gset string) : Block :=
  <["expansion_timeout_seconds" := VFloat timeout]>
    (<["skills_to_remove" := VSet skills]> ∅).

(** The attributes of an outbound email address block. *)
Definition emailAddressAttributes : gset string := {[ "domain_id"; "route_id" ]}.

(** A queue with the outbound email address blocks [blocks]. *)
Definition mailing (blocks : list Block) : QueueConfig := {|
  media_settings_call := []; media_settings_callback := []; media_settings_chat := [];
  media_settings_email := []; media_settings_message := []; media_settings_social := [];
  media_settings_video := []; routing_rules := []; bullseye_rings := [];
  outbound_email_address := blocks
|}.

(** An address as the platform returns it, with the names of the domain and
    of the route. *)
Definition support : Queueemailaddress :=
  {| Domain := Some {| domain_Id := Some "example.com"; domain_Name := Some "Example" |};
     Route := Some {| route_Id := Some "support"; route_Name := Some "Support desk" |} |}.

(** The address with the ids of [address] and nothing else. *)
Definition idsOnly (address : Queueemailaddress) : Queueemailaddress :=
  {| Domain := (fun domain => {| domain_Id := domain_Id domain; domain_Name := None |})
                 <$> Domain address;
     Route := (fun route => {| route_Id := route_Id route; route_Name := None |})
                <$> Route address |}.

(** [stringInSlice] as its name has it. *)
Definition inSlice (a : string) (slice : list string) : bool := bool_decide (a ∈ slice).

(** The keys of the map, in some order. *)
Definition keysOf (m : Block) (keys : list string) : Prop := keys ≡ₚ (map_to_list m).*1.

Definition scripts (keys : list string) : Block :=
  list_to_map ((fun k => (k, VString "script")) <$> keys).

(** ** The request mapping of an action map *)

(** [platformclientv2.Requestmapping]. *)
Record Requestmapping := {
  mapping_Name : option string;
  AttributeType : option string;
  MappingType : option string;
  mapping_Value : option string
}.

Definition flattenRequestMapping (requestMapping : Requestmapping) : option Block :=
  name ← mapping_Name requestMapping;
  attributeType ← AttributeType requestMapping;
  mappingType ← MappingType requestMapping;
  value ← mapping_Value requestMapping;
  Some (<["value" := VString value]>
          (<["mapping_type" := VString mappingType]>
             (<["attribute_type" := VString attributeType]>
                (<["name" := VString name]> ∅)))).

Definition buildSdkRequestMapping (RequestMapping : Block) : option Requestmapping :=
  name ← as_string (RequestMapping !! "name");
  attributeType ← as_string (RequestMapping !! "attribute_type");
  mappingType ← as_string (RequestMapping !! "mapping_type");
  value ← as_string (RequestMapping !! "value");
  Some {| mapping_Name := Some name; AttributeType := Some attributeType;
          MappingType := Some mappingType; mapping_Value := Some value |}.

(** The attributes of a request mapping block. *)
Definition requestMappingAttributes : gset string :=
  {[ "name"; "attribute_type"; "mapping_type"; "value" ]}.

Definition theMapping : Requestmapping :=
  {| mapping_Name := Some "visitor"; AttributeType := Some "String";
     MappingType := Some "Lookup"; mapping_Value := Some "session.id" |}.

(** ** The trunk base settings data source *)

(** [platformclientv2.Trunkbase], as far as the search reads it, and its
    listing. *)
Record Trunkbase := {
  trunk_Id : option string;
  trunk_Name : option string;
  trunk_State : option string
}.

Record Trunkbaseentitylisting := { trunk_Entities : option (list Trunkbase) }.

(** The data source: the name that is looked for and the id that is set. *)
Record TrunkData := { trunk_name : string; trunk_id : string }.

Definition trunk_SetId (d : TrunkData) (id : string) : TrunkData :=
  {| trunk_name := trunk_name d; trunk_id := id |}.

(** How the loop over the entities of a page ends: at a setting whose id is
    set, at a setting whose id is nil, which panics, or at the end of the
    page. *)
Inductive Search :=
| Match (id : string)
| NilId
| NoMatch.

(** The [for _, trunkBaseSetting := range *trunkBaseSettings.Entities] loop. *)
Fixpoint searchTrunkBaseSettings (name : string) (entities : list Trunkbase) : Search :=
  match entities with
  | [] => NoMatch
  | trunkBaseSetting :: rest =>
      if match trunk_Name trunkBaseSetting, trunk_State trunkBaseSetting with
         | Some n, Some state =>
             bool_decide (n = name) && negb (bool_decide (state = "deleted"))
         | _, _ => false
         end
      then match trunk_Id trunkBaseSetting with
           | Some id => Match id
           | None => NilId
           end
      else searchTrunkBaseSettings name rest
  end.

(** The requests of one attempt. *)
Inductive TrunkCall :=
| GetTrunkbasesettings (pageNum pageSize : nat) (name : string).

(** What one attempt comes to: the error for the retry engine and the data
    source, or a panic. *)
Inductive Attempt :=
| Finished (err : option RetryError) (d : TrunkData)
| Panicked.

(** The function that [dataSourceTrunkBaseSettingsRead] hands to the retry
    engine: the [for pageNum := 1; ; pageNum++] loop from [pageNum] on.
    [getTelephonyProvidersEdgesTrunkbasesettings] is a helper of another
    file, and is given as [get]; the result is [None] when the fuel runs
    out, and comes with the requests that were made. *)
Fixpoint dataSourceTrunkBaseSettingsRead_attempt (fuel : nat)
    (get : nat -> nat -> string -> Reply Trunkbaseentitylisting)
    (d : TrunkData) (pageNum : nat) : option (Attempt * list TrunkCall) :=
  match fuel with
  | O => None
  | S fuel' =>
      let name := trunk_name d in
      let request := GetTrunkbasesettings pageNum 100 name in
      match get pageNum 100 name with
      | Failed _ getErr =>
          Some (Finished (Some (NonRetryableError
                  ("Error requesting trunk base settings " +:+ name +:+ ": " +:+ getErr)))
                  d, [request])
      | Returned {| trunk_Entities := None |}
      | Returned {| trunk_Entities := Some [] |} =>
          Some (Finished (Some (RetryableError
                  ("No trunkBaseSettings found with name " +:+ name))) d, [request])
      | Returned {| trunk_Entities := Some (e :: es) |} =>
          match searchTrunkBaseSettings name (e :: es) with
          | Match id => Some (Finished None (trunk_SetId d id), [request])
          | NilId => Some (Panicked, [request])
          | NoMatch =>
              match dataSourceTrunkBaseSettingsRead_attempt fuel' get d (S pageNum) with
              | Some (result, requests) => Some (result, request :: requests)
              | None => None
              end
          end
      end
  end.

(** *** Vocabulary of the statements on the search *)

(** The setting has the name and a state other than deleted. *)
Definition live (name : string) (t : Trunkbase) : Prop :=
  trunk_Name t = Some name /\
  exists state, trunk_State t = Some state /\ state <> "deleted".

(** The page has settings, and none of them is live under the name. *)
Definition passedOver (name : string) (page : Reply Trunkbaseentitylisting) : Prop :=
  exists entities,
    page = Returned {| trunk_Entities := Some entities |} /\
    entities <> [] /\
    Forall (fun t => ~ live name t) entities.

Definition trunk (id name state : string) : Trunkbase :=
  {| trunk_Id := Some id; trunk_Name := Some name; trunk_State := Some state |}.

(** Two pages of trunk base settings; the first of the name is deleted. *)
Definition trunkPages (pageNum pageSize : nat) (name : string)
    : Reply Trunkbaseentitylisting :=
  match pageNum with
  | 1 => Returned {| trunk_Entities :=
                       Some [trunk "t1" "sip" "deleted"; trunk "t2" "other" "active"] |}
  | 2 => Returned {| trunk_Entities :=
                       Some [trunk "t3" "sip" "active"; trunk "t4" "sip" "active"] |}
  | _ => Returned {| trunk_Entities := Some [] |}
  end.

(** * Properties *)

Ltac run := unfold bind, ret, call, sleep, clock, diverge; cbn [trace now fst snd].

(** ** The engine on a poll *)

Section Polling.
Context {D : Type} (E : Engine) (c : Call).
Context (verdict : list Call -> option RetryError * D).
Context (method : D -> M (option RetryError * D)) (d : D).
Hypothesis method_polls : forall s, method d s = poll c verdict s.

Lemma replicate_snoc_app (tr : list Call) (j : nat) :
  (tr ++ [c]) ++ replicate j c = tr ++ replicate (S j) c.
Proof. by rewrite <- app_assoc. Qed.

(** One round of the engine. *)
Lemma retry_loop_poll_step fuel deadline tr t :
  retry_loop (S fuel) E deadline method d {| trace := tr; now := t |}
  = match verdict tr with
    | (None, d') => Some (([], d'), {| trace := tr ++ [c]; now := t |})
    | (Some (NonRetryableError e), d') =>
        Some (([e], d'), {| trace := tr ++ [c]; now := t |})
    | (Some (RetryableError e), d') =>
        if deadline <=? t + interval E
        then Some (([timedOut e], d'), {| trace := tr ++ [c]; now := t + interval E |})
        else retry_loop fuel E deadline method d'
               {| trace := tr ++ [c]; now := t + interval E |}
    end.
Proof.
  cbn [retry_loop]. unfold bind at 1. rewrite method_polls. unfold poll. run.
  destruct (verdict tr) as [[[e|e]|] d']; try reflexivity.
  run. by destruct (deadline <=? t + interval E).
Qed.

(** [k] retryable answers and then a final one, [None] or terminal: the
    loop stops at attempt [k], having slept [k] times. *)
Lemma retry_loop_poll_final (k : nat) (final : option error) (d' : D) :
  forall fuel deadline tr t,
    k < fuel ->
    (forall j, j < k ->
       exists e, verdict (tr ++ replicate j c) = (Some (RetryableError e), d)) ->
    verdict (tr ++ replicate k c) = (NonRetryableError <$> final, d') ->
    (forall j, j < k -> t + S j * interval E < deadline) ->
    retry_loop fuel E deadline method d {| trace := tr; now := t |}
    = Some ((option_list final, d'),
            {| trace := tr ++ replicate (S k) c; now := t + k * interval E |}).
Proof.
  induction k as [|k IH]; intros fuel deadline tr t Hfuel Hretry Hok Htime;
    (destruct fuel as [|fuel]; [lia|]); rewrite retry_loop_poll_step.
  - cbn [replicate] in Hok. rewrite app_nil_r in Hok. rewrite Hok.
    destruct final as [e|]; cbn; do 3 f_equal; lia.
  - destruct (Hretry 0) as [e He]; [lia|].
    cbn [replicate] in He. rewrite app_nil_r in He. rewrite He.
    assert (Hlt : t + interval E < deadline) by (specialize (Htime 0); lia).
    destruct (Nat.leb_spec deadline (t + interval E)) as [?|_]; [lia|].
    rewrite (IH fuel deadline (tr ++ [c]) (t + interval E)).
    + rewrite replicate_snoc_app. do 3 f_equal. lia.
    + lia.
    + intros j Hj. rewrite replicate_snoc_app. apply Hretry. lia.
    + by rewrite replicate_snoc_app.
    + intros j Hj. specialize (Htime (S j)). lia.
Qed.

(** Retryable answers throughout: the loop gives up at the first tick at
    or after the deadline, with the last reason wrapped, and not before. *)
Lemma retry_loop_poll_timeout (e : error) :
  forall fuel deadline tr t,
    0 < interval E ->
    t <= deadline ->
    deadline < t + fuel * interval E ->
    (forall j, verdict (tr ++ replicate j c) = (Some (RetryableError e), d)) ->
    exists n, 1 <= n /\
      retry_loop fuel E deadline method d {| trace := tr; now := t |}
      = Some (([timedOut e], d),
              {| trace := tr ++ replicate n c; now := t + n * interval E |}) /\
      deadline <= t + n * interval E /\
      (n = 1 \/ t + (n - 1) * interval E < deadline).
Proof.
  induction fuel as [|fuel IH]; intros deadline tr t Hi Ht Hfuel Hretry.
  - lia.
  - rewrite retry_loop_poll_step.
    pose proof (Hretry 0) as He. cbn [replicate] in He.
    rewrite app_nil_r in He. rewrite He.
    destruct (Nat.leb_spec deadline (t + interval E)) as [Hd|Hd].
    + exists 1. split; [lia|]. split; [|lia].
      do 3 f_equal. lia.
    + destruct (IH deadline (tr ++ [c]) (t + interval E)) as (n & Hn & Hrun & Hge & Hlt).
      * lia.
      * lia.
      * lia.
      * intros j. rewrite replicate_snoc_app. apply Hretry.
      * exists (S n). split; [lia|]. rewrite Hrun. split; [|split].
        -- rewrite replicate_snoc_app. do 3 f_equal. lia.
        -- lia.
        -- right. destruct Hlt as [->|Hlt]; [cbn; lia|].
           replace (S n - 1) with (S (n - 1)) by lia. lia.
Qed.

Lemma withRetries_poll_final (timeout k : nat) (final : option error) (d' : D)
    (s : State) :
  0 < interval E ->
  in_time E k timeout ->
  (forall j, j < k ->
     exists e, verdict (trace s ++ replicate j c) = (Some (RetryableError e), d)) ->
  verdict (trace s ++ replicate k c) = (NonRetryableError <$> final, d') ->
  withRetries E timeout method d s
  = Some ((option_list final, d'), polled E c (S k) k s).
Proof.
  intros Hi Hk Hretry Hok. unfold withRetries. run. destruct s as [tr t].
  cbn [trace now] in *. unfold polled. cbn [trace now].
  apply retry_loop_poll_final; try done.
  - destruct Hk as [->|Hk]; [lia|]. nia.
  - intros j Hj. destruct Hk as [->|Hk]; [lia|]. nia.
Qed.

Lemma withRetries_poll_timeout (timeout : nat) (e : error) (s : State) :
  0 < interval E ->
  (forall j, verdict (trace s ++ replicate j c) = (Some (RetryableError e), d)) ->
  exists n, 1 <= n /\
    withRetries E timeout method d s
    = Some (([timedOut e], d), polled E c n n s) /\
    timeout <= n * interval E /\
    (n = 1 \/ (n - 1) * interval E < timeout).
Proof.
  intros Hi Hretry. unfold withRetries. run. destruct s as [tr t].
  cbn [trace now] in *.
  destruct (retry_loop_poll_timeout e (S timeout) (t + timeout) tr t)
    as (n & Hn & Hrun & Hge & Hlt); try done; [lia|nia|].
  exists n. split; [done|]. split; [done|]. split; [lia|].
  destruct Hlt as [->|Hlt]; [by left|right; lia].
Qed.
End Polling.

(** ** Delete: the poll after a delete that was accepted *)

Section DeleteQueue.
Context (E : Engine) (P : Platform) (d : QueueData) (s : State).
Let del := DeleteRoutingQueue (queue_id d) true.
Let get := GetRoutingQueue (queue_id d).
Let reply := fun h => on_GetRoutingQueue P h (queue_id d).
Hypothesis tick : 0 < interval E.
Hypothesis accepted : exists u, on_DeleteRoutingQueue P (trace s) (queue_id d) true = Returned u.

Lemma deleteQueue_polls :
  deleteQueue E P d s = withRetries E (timeoutDelete d) (deleteQueue_poll P) d (issue del s).
Proof.
  destruct accepted as [u Hu]. unfold deleteQueue. run. by rewrite Hu.
Qed.

Lemma deleteQueue_gone (k : nat) :
  in_time E k (timeoutDelete d) ->
  still_there reply (trace (issue del s)) get k (fun _ => True) ->
  then_404 reply (trace (issue del s)) get k ->
  deleteQueue E P d s = Some (([], d), polled E get (S k) k (issue del s)).
Proof.
  intros Hk Hthere [err Hgone]. rewrite deleteQueue_polls.
  apply (withRetries_poll_final E get (fun h => deleteQueue_verdict d (reply h))
           (deleteQueue_poll P) d (fun _ => eq_refl) _ k None); try done.
  - intros j Hj. destruct (Hthere j Hj) as (q & Hq & _).
    eexists. by rewrite Hq.
  - by rewrite Hgone.
Qed.

Lemma deleteQueue_deadline :
  (forall j, exists q, reply (trace (issue del s) ++ replicate j get) = Returned q) ->
  exists n, 1 <= n /\
    deleteQueue E P d s
    = Some (([timedOut ("Queue " +:+ queue_id d +:+ " still exists")], d),
            polled E get n n (issue del s)) /\
    timeoutDelete d <= n * interval E /\
    (n = 1 \/ (n - 1) * interval E < timeoutDelete d).
Proof.
  intros Hthere. rewrite deleteQueue_polls.
  apply (withRetries_poll_timeout E get (fun h => deleteQueue_verdict d (reply h))
           (deleteQueue_poll P) d (fun _ => eq_refl)); [done|].
  intros j. destruct (Hthere j) as [q Hq]. by rewrite Hq.
Qed.
End DeleteQueue.

Section DeleteJourneySegment.
Context (E : Engine) (P : Platform) (d : SegmentData) (s : State).
Let del := DeleteJourneySegment (segment_id d).
Let get := GetJourneySegment (segment_id d).
Let reply := fun h => on_GetJourneySegment P h (segment_id d).
Hypothesis tick : 0 < interval E.
Hypothesis accepted : exists u, on_DeleteJourneySegment P (trace s) (segment_id d) = Returned u.

Lemma deleteJourneySegment_polls :
  deleteJourneySegment E P d s = withRetries E 30 (deleteJourneySegment_poll P) d (issue del s).
Proof.
  destruct accepted as [u Hu]. unfold deleteJourneySegment. run. by rewrite Hu.
Qed.

Lemma deleteJourneySegment_verdict_active journeySegment :
  active journeySegment ->
  deleteJourneySegment_verdict d (Returned journeySegment)
  = (Some (RetryableError ("journey segment " +:+ segment_id d +:+ " still exists")), d).
Proof.
  unfold active, deleteJourneySegment_verdict.
  by destruct (segment_IsActive journeySegment) as [[]|].
Qed.

Lemma deleteJourneySegment_gone (k : nat) :
  in_time E k 30 ->
  still_there reply (trace (issue del s)) get k active ->
  then_404 reply (trace (issue del s)) get k ->
  deleteJourneySegment E P d s = Some (([], d), polled E get (S k) k (issue del s)).
Proof.
  intros Hk Hthere [err Hgone]. rewrite deleteJourneySegment_polls.
  apply (withRetries_poll_final E get (fun h => deleteJourneySegment_verdict d (reply h))
           (deleteJourneySegment_poll P) d (fun _ => eq_refl) _ k None); try done.
  - intros j Hj. destruct (Hthere j Hj) as (q & Hq & Hact).
    eexists. rewrite Hq. by apply deleteJourneySegment_verdict_active.
  - by rewrite Hgone.
Qed.

Lemma deleteJourneySegment_inactive (k : nat) :
  in_time E k 30 ->
  still_there reply (trace (issue del s)) get k active ->
  (exists journeySegment,
     reply (trace (issue del s) ++ replicate k get) = Returned journeySegment /\
     segment_IsActive journeySegment = Some false) ->
  deleteJourneySegment E P d s = Some (([], d), polled E get (S k) k (issue del s)).
Proof.
  intros Hk Hthere (seg & Hseg & Hinactive). rewrite deleteJourneySegment_polls.
  apply (withRetries_poll_final E get (fun h => deleteJourneySegment_verdict d (reply h))
           (deleteJourneySegment_poll P) d (fun _ => eq_refl) _ k None); try done.
  - intros j Hj. destruct (Hthere j Hj) as (q & Hq & Hact).
    eexists. rewrite Hq. by apply deleteJourneySegment_verdict_active.
  - rewrite Hseg. cbn. by rewrite Hinactive.
Qed.

Lemma deleteJourneySegment_deadline :
  (forall j, exists q, reply (trace (issue del s) ++ replicate j get) = Returned q /\ active q) ->
  exists n, 1 <= n /\
    deleteJourneySegment E P d s
    = Some (([timedOut ("journey segment " +:+ segment_id d +:+ " still exists")], d),
            polled E get n n (issue del s)) /\
    30 <= n * interval E /\
    (n = 1 \/ (n - 1) * interval E < 30).
Proof.
  intros Hthere. rewrite deleteJourneySegment_polls.
  apply (withRetries_poll_timeout E get (fun h => deleteJourneySegment_verdict d (reply h))
           (deleteJourneySegment_poll P) d (fun _ => eq_refl)); [done|].
  intros j. destruct (Hthere j) as (q & Hq & Hact). rewrite Hq.
  by apply deleteJourneySegment_verdict_active.
Qed.
End DeleteJourneySegment.

Section DeleteJourneyActionMap.
Context (E : Engine) (P : Platform) (d : ActionMapData) (s : State).
Let del := DeleteJourneyActionmap (actionmap_id d).
Let get := GetJourneyActionmap (actionmap_id d).
Let reply := fun h => on_GetJourneyActionmap P h (actionmap_id d).
Hypothesis tick : 0 < interval E.
Hypothesis accepted : exists u, on_DeleteJourneyActionmap P (trace s) (actionmap_id d) = Returned u.

Lemma deleteJourneyActionMap_polls :
  deleteJourneyActionMap E P d s
  = withRetries E 30 (deleteJourneyActionMap_poll P) d (issue del s).
Proof.
  destruct accepted as [u Hu]. unfold deleteJourneyActionMap. run. by rewrite Hu.
Qed.

Lemma deleteJourneyActionMap_gone (k : nat) :
  in_time E k 30 ->
  still_there reply (trace (issue del s)) get k (fun _ => True) ->
  then_404 reply (trace (issue del s)) get k ->
  deleteJourneyActionMap E P d s = Some (([], d), polled E get (S k) k (issue del s)).
Proof.
  intros Hk Hthere [err Hgone]. rewrite deleteJourneyActionMap_polls.
  apply (withRetries_poll_final E get (fun h => deleteJourneyActionMap_verdict d (reply h))
           (deleteJourneyActionMap_poll P) d (fun _ => eq_refl) _ k None); try done.
  - intros j Hj. destruct (Hthere j Hj) as (q & Hq & _).
    eexists. by rewrite Hq.
  - by rewrite Hgone.
Qed.

Lemma deleteJourneyActionMap_deadline :
  (forall j, exists q, reply (trace (issue del s) ++ replicate j get) = Returned q) ->
  exists n, 1 <= n /\
    deleteJourneyActionMap E P d s
    = Some (([timedOut ("journey action map " +:+ actionmap_id d +:+ " still exists")], d),
            polled E get n n (issue del s)) /\
    30 <= n * interval E /\
    (n = 1 \/ (n - 1) * interval E < 30).
Proof.
  intros Hthere. rewrite deleteJourneyActionMap_polls.
  apply (withRetries_poll_timeout E get (fun h => deleteJourneyActionMap_verdict d (reply h))
           (deleteJourneyActionMap_poll P) d (fun _ => eq_refl)); [done|].
  intros j. destruct (Hthere j) as [q Hq]. by rewrite Hq.
Qed.
End DeleteJourneyActionMap.

(** C4: for each of the three resources, once the delete call has been
    accepted, a read that answers 404 -- the first one, or one that follows
    [k] reads that still returned the object within the deadline -- ends
    Delete without diagnostics. *)
Theorem delete_read_404_is_success (E : Engine) (P : Platform) (k : nat) :
  0 < interval E ->
  (forall d s,
     (exists u, on_DeleteRoutingQueue P (trace s) (queue_id d) true = Returned u) ->
     in_time E k (timeoutDelete d) ->
     still_there (fun h => on_GetRoutingQueue P h (queue_id d))
       (trace (issue (DeleteRoutingQueue (queue_id d) true) s))
       (GetRoutingQueue (queue_id d)) k (fun _ => True) ->
     then_404 (fun h => on_GetRoutingQueue P h (queue_id d))
       (trace (issue (DeleteRoutingQueue (queue_id d) true) s))
       (GetRoutingQueue (queue_id d)) k ->
     deleteQueue E P d s
     = Some (([], d), polled E (GetRoutingQueue (queue_id d)) (S k) k
                        (issue (DeleteRoutingQueue (queue_id d) true) s))) /\
  (forall d s,
     (exists u, on_DeleteJourneySegment P (trace s) (segment_id d) = Returned u) ->
     in_time E k 30 ->
     still_there (fun h => on_GetJourneySegment P h (segment_id d))
       (trace (issue (DeleteJourneySegment (segment_id d)) s))
       (GetJourneySegment (segment_id d)) k active ->
     then_404 (fun h => on_GetJourneySegment P h (segment_id d))
       (trace (issue (DeleteJourneySegment (segment_id d)) s))
       (GetJourneySegment (segment_id d)) k ->
     deleteJourneySegment E P d s
     = Some (([], d), polled E (GetJourneySegment (segment_id d)) (S k) k
                        (issue (DeleteJourneySegment (segment_id d)) s))) /\
  (forall d s,
     (exists u, on_DeleteJourneyActionmap P (trace s) (actionmap_id d) = Returned u) ->
     in_time E k 30 ->
     still_there (fun h => on_GetJourneyActionmap P h (actionmap_id d))
       (trace (issue (DeleteJourneyActionmap (actionmap_id d)) s))
       (GetJourneyActionmap (actionmap_id d)) k (fun _ => True) ->
     then_404 (fun h => on_GetJourneyActionmap P h (actionmap_id d))
       (trace (issue (DeleteJourneyActionmap (actionmap_id d)) s))
       (GetJourneyActionmap (actionmap_id d)) k ->
     deleteJourneyActionMap E P d s
     = Some (([], d), polled E (GetJourneyActionmap (actionmap_id d)) (S k) k
                        (issue (DeleteJourneyActionmap (actionmap_id d)) s))).
Proof.
  intros tick. split; [|split]; intros d s Hacc Hk Hthere Hgone.
  - by apply deleteQueue_gone.
  - by apply deleteJourneySegment_gone.
  - by apply deleteJourneyActionMap_gone.
Qed.

Ltac first_polls :=
  let j := fresh "j" in
  let Hj := fresh "Hj" in
  intros j Hj;
  repeat (destruct j as [|j]; [eexists; split; [vm_compute; reflexivity|done]|]);
  lia.

Lemma delete_read_404_is_success_witness :
  deleteQueue (ticking 1) (vanishing 2) q1 fresh
  = Some (([], q1), {| trace := DeleteRoutingQueue "q1" true
                                  :: replicate 3 (GetRoutingQueue "q1");
                       now := 2 |}) /\
  deleteJourneySegment (ticking 1) (vanishing 2) s1 fresh
  = Some (([], s1), {| trace := DeleteJourneySegment "s1"
                                  :: replicate 3 (GetJourneySegment "s1");
                       now := 2 |}) /\
  deleteJourneyActionMap (ticking 1) (vanishing 2) a1 fresh
  = Some (([], a1), {| trace := DeleteJourneyActionmap "a1"
                                  :: replicate 3 (GetJourneyActionmap "a1");
                       now := 2 |}).
Proof.
  assert (tick : 0 < interval (ticking 1)) by (cbn; lia).
  destruct (delete_read_404_is_success (ticking 1) (vanishing 2) 2 tick)
    as (Hq & Hs & Ha).
  split; [|split].
  - apply (Hq q1 fresh).
    + by exists tt.
    + right. cbn. lia.
    + first_polls.
    + eexists. vm_compute. reflexivity.
  - apply (Hs s1 fresh).
    + by exists tt.
    + right. cbn. lia.
    + first_polls.
    + eexists. vm_compute. reflexivity.
  - apply (Ha a1 fresh).
    + by exists tt.
    + right. cbn. lia.
    + first_polls.
    + eexists. vm_compute. reflexivity.
Defined.

(** C5, as amended: the deadline of the delete poll is 30 seconds for the
    journey segment and the journey action map and the delete timeout of the
    resource data for the queue.  If every read still returns the object
    (for a segment: not flagged inactive), Delete ends with the wrapped
    still-exists reason after [n] polls, at the first tick at or after the
    deadline and not a tick earlier; and a segment that [k] polls within the
    deadline still returned and that is then gone, or flagged inactive, ends
    Delete without diagnostics. *)
Theorem delete_deadline (E : Engine) (P : Platform) :
  0 < interval E ->
  (forall d s,
     (exists u, on_DeleteRoutingQueue P (trace s) (queue_id d) true = Returned u) ->
     (forall j, exists q,
        on_GetRoutingQueue P
          (trace (issue (DeleteRoutingQueue (queue_id d) true) s)
           ++ replicate j (GetRoutingQueue (queue_id d))) (queue_id d) = Returned q) ->
     exists n, 1 <= n /\
       deleteQueue E P d s
       = Some (([timedOut ("Queue " +:+ queue_id d +:+ " still exists")], d),
               polled E (GetRoutingQueue (queue_id d)) n n
                 (issue (DeleteRoutingQueue (queue_id d) true) s)) /\
       timeoutDelete d <= n * interval E /\
       (n = 1 \/ (n - 1) * interval E < timeoutDelete d)) /\
  (forall d s,
     (exists u, on_DeleteJourneySegment P (trace s) (segment_id d) = Returned u) ->
     (forall j, exists q,
        on_GetJourneySegment P
          (trace (issue (DeleteJourneySegment (segment_id d)) s)
           ++ replicate j (GetJourneySegment (segment_id d))) (segment_id d) = Returned q /\
        active q) ->
     exists n, 1 <= n /\
       deleteJourneySegment E P d s
       = Some (([timedOut ("journey segment " +:+ segment_id d +:+ " still exists")], d),
               polled E (GetJourneySegment (segment_id d)) n n
                 (issue (DeleteJourneySegment (segment_id d)) s)) /\
       30 <= n * interval E /\
       (n = 1 \/ (n - 1) * interval E < 30)) /\
  (forall d s,
     (exists u, on_DeleteJourneyActionmap P (trace s) (actionmap_id d) = Returned u) ->
     (forall j, exists q,
        on_GetJourneyActionmap P
          (trace (issue (DeleteJourneyActionmap (actionmap_id d)) s)
           ++ replicate j (GetJourneyActionmap (actionmap_id d))) (actionmap_id d)
        = Returned q) ->
     exists n, 1 <= n /\
       deleteJourneyActionMap E P d s
       = Some (([timedOut ("journey action map " +:+ actionmap_id d +:+ " still exists")], d),
               polled E (GetJourneyActionmap (actionmap_id d)) n n
                 (issue (DeleteJourneyActionmap (actionmap_id d)) s)) /\
       30 <= n * interval E /\
       (n = 1 \/ (n - 1) * interval E < 30)) /\
  (forall d s k,
     (exists u, on_DeleteJourneySegment P (trace s) (segment_id d) = Returned u) ->
     in_time E k 30 ->
     still_there (fun h => on_GetJourneySegment P h (segment_id d))
       (trace (issue (DeleteJourneySegment (segment_id d)) s))
       (GetJourneySegment (segment_id d)) k active ->
     then_404 (fun h => on_GetJourneySegment P h (segment_id d))
       (trace (issue (DeleteJourneySegment (segment_id d)) s))
       (GetJourneySegment (segment_id d)) k \/
     (exists journeySegment,
        on_GetJourneySegment P
          (trace (issue (DeleteJourneySegment (segment_id d)) s)
           ++ replicate k (GetJourneySegment (segment_id d))) (segment_id d)
        = Returned journeySegment /\
        segment_IsActive journeySegment = Some false) ->
     deleteJourneySegment E P d s
     = Some (([], d), polled E (GetJourneySegment (segment_id d)) (S k) k
                        (issue (DeleteJourneySegment (segment_id d)) s))).
Proof.
  intros tick. split; [|split; [|split]].
  - intros d s Hacc Hthere. by apply deleteQueue_deadline.
  - intros d s Hacc Hthere. by apply deleteJourneySegment_deadline.
  - intros d s Hacc Hthere. by apply deleteJourneyActionMap_deadline.
  - intros d s k Hacc Hk Hthere [Hgone|Hinactive].
    + by apply deleteJourneySegment_gone.
    + by apply deleteJourneySegment_inactive.
Qed.

Lemma delete_deadline_witness :
  deleteJourneySegment (ticking 10) lingering s1 fresh
  = Some ((["timeout while waiting for state to become ready: journey segment s1 still exists"],
           s1),
          {| trace := DeleteJourneySegment "s1" :: replicate 3 (GetJourneySegment "s1");
             now := 30 |}) /\
  deleteQueue (ticking 10) lingering q1 fresh
  = Some ((["timeout while waiting for state to become ready: Queue q1 still exists"], q1),
          {| trace := DeleteRoutingQueue "q1" true :: replicate 120 (GetRoutingQueue "q1");
             now := 1200 |}).
Proof.
  assert (tick : 0 < interval (ticking 10)) by (cbn; lia).
  destruct (delete_deadline (ticking 10) lingering tick) as (Hq & Hs & _ & _).
  split.
  - destruct (Hs s1 fresh) as (n & Hn & Hrun & Hge & Hlt).
    + by exists tt.
    + intros j. eexists. split; [reflexivity|done].
    + cbn in Hge, Hlt. assert (n = 3) as -> by lia. exact Hrun.
  - destruct (Hq q1 fresh) as (n & Hn & Hrun & Hge & Hlt).
    + by exists tt.
    + intros j. by eexists.
    + cbn in Hge, Hlt. assert (n = 120) as -> by lia. exact Hrun.
Defined.

(** C5 as stated fails for the queue: with the delete timeout of 20 minutes
    that a queue has, the queue is still returned by the polls at 0, 10, 20,
    30 and 40 seconds, and Delete, far from failing when 30 seconds have
    passed, goes on polling and succeeds at 50 seconds. *)
Lemma deleteQueue_outlives_30_seconds :
  (forall j, j < 5 ->
     on_GetRoutingQueue (vanishing 5)
       (DeleteRoutingQueue "q1" true :: replicate j (GetRoutingQueue "q1")) "q1"
     = Returned (theQueue "q1")) /\
  deleteQueue (ticking 10) (vanishing 5) q1 fresh
  = Some (([], q1),
          {| trace := DeleteRoutingQueue "q1" true :: replicate 6 (GetRoutingQueue "q1");
             now := 50 |}).
Proof.
  split.
  - intros j Hj. repeat (destruct j as [|j]; [vm_compute; reflexivity|]). lia.
  - vm_compute. reflexivity.
Qed.

(** ** Queue membership *)

(** *** The chunks *)

Lemma range_append_spec (p : loc) (ids : list string) :
  forall (σ : store) (updateChunk : list Writableentity),
    p < length σ ->
    range_append p ids σ updateChunk
    = (match last ids with
       | Some id => <[p := id]> σ
       | None => σ
       end,
       updateChunk ++ replicate (length ids) {| entity_Id := p |}).
Proof.
  induction ids as [|id ids IH]; intros σ updateChunk Hp.
  - cbn. by rewrite app_nil_r.
  - cbn [range_append]. rewrite IH by (by rewrite length_insert).
    f_equal.
    + destruct ids as [|id' ids]; [done|].
      rewrite last_cons_cons.
      destruct (last (id' :: ids)) as [x|] eqn:Hlast.
      * by rewrite list_insert_insert_eq.
      * by apply last_None in Hlast.
    + by rewrite <- app_assoc.
Qed.

Lemma wire_range_append (σ : store) (ids : list string) :
  ids <> [] ->
  let '(σ', updateChunk) := range_append (length σ) ids (σ ++ [""]) [] in
  wire σ' updateChunk = sent ids /\ length updateChunk = length ids.
Proof.
  intros Hne. rewrite range_append_spec by (rewrite length_app; cbn; lia).
  cbn [app]. destruct (last ids) as [x|] eqn:Hlast.
  - split; [|by rewrite length_replicate].
    unfold wire, sent. rewrite fmap_replicate. cbn [entity_Id].
    rewrite Hlast. f_equal. unfold deref.
    rewrite list_lookup_insert_eq; [done|]. rewrite length_app. cbn. lia.
  - apply last_None in Hlast. done.
Qed.

Lemma slice_is_batch (l : list string) (i : nat) :
  i < length l ->
  take ((if length l <? i + maxBatchSize then length l else i + maxBatchSize) - i)
       (drop i l)
  = take maxBatchSize (drop i l).
Proof.
  intros Hi. destruct (Nat.ltb_spec (length l) (i + maxBatchSize)) as [Hlt|Hge].
  - rewrite !take_ge; [done| |]; rewrite length_drop; lia.
  - f_equal. lia.
Qed.

(** The loop issues one batch call per slice; what it sends is the slice as
    [sent] distorts it, and it never reports a diagnostic. *)
Lemma updateMembersInChunks_loop_spec (P : Platform) (queueID : string)
    (l : list string) (remove : bool) :
  forall fuel i σ s,
    (length l - i) + maxBatchSize <= fuel * maxBatchSize ->
    updateMembersInChunks_loop fuel P queueID l remove i σ s
    = Some ([], {| trace := trace s ++
                     ((fun c => PostRoutingQueueMembers queueID (sent c) remove)
                        <$> batches fuel l i);
                   now := now s |}).
Proof.
  induction fuel as [|fuel IH]; intros i σ s Hfuel.
  - unfold maxBatchSize in Hfuel. lia.
  - cbn [updateMembersInChunks_loop batches].
    destruct (Nat.ltb_spec i (length l)) as [Hi|Hi].
    + rewrite slice_is_batch by done.
      assert (Hne : take maxBatchSize (drop i l) <> []).
      { intros Hnil. apply (f_equal length) in Hnil.
        rewrite length_take, length_drop in Hnil. cbn [length] in Hnil.
        unfold maxBatchSize in Hnil. lia. }
      pose proof (wire_range_append σ _ Hne) as Hwire.
      destruct (range_append (length σ) (take maxBatchSize (drop i l)) (σ ++ [""]) [])
        as [σ' updateChunk].
      destruct Hwire as [Hwire Hlen].
      assert (Hpos : (0 <? length updateChunk) = true).
      { apply Nat.ltb_lt. rewrite Hlen.
        destruct (take maxBatchSize (drop i l)); [done|]. cbn. lia. }
      rewrite Hpos, Hwire. run.
      rewrite IH by (cbn [trace]; unfold maxBatchSize in *; lia).
      cbn [trace now fmap list_fmap]. by rewrite <- app_assoc.
    + destruct s. run. by rewrite app_nil_r.
Qed.

Lemma updateMembersInChunks_sends (P : Platform) (queueID : string)
    (l : list string) (remove : bool) (s : State) :
  updateMembersInChunks P queueID l remove s
  = Some ([], {| trace := trace s ++
                   ((fun c => PostRoutingQueueMembers queueID (sent c) remove)
                      <$> batches (S (length l)) l 0);
                 now := now s |}).
Proof.
  apply updateMembersInChunks_loop_spec. unfold maxBatchSize. lia.
Qed.

(** The slices themselves are right: consecutive, in order, and of at most
    [maxBatchSize] ids each. *)
Lemma batches_concat (l : list string) :
  forall rounds i,
    length l < i + rounds * maxBatchSize ->
    concat (batches rounds l i) = drop i l.
Proof.
  induction rounds as [|rounds IH]; intros i Hfuel.
  - cbn in Hfuel. rewrite drop_ge; [done|lia].
  - cbn [batches]. destruct (Nat.ltb_spec i (length l)) as [Hi|Hi].
    + cbn [concat]. rewrite IH by (unfold maxBatchSize in *; lia).
      rewrite <- drop_drop. apply take_drop.
    + rewrite drop_ge; [done|lia].
Qed.

Lemma batches_sizes (l : list string) :
  forall rounds i, length <$> batches rounds l i = batch_sizes rounds (length l) i.
Proof.
  induction rounds as [|rounds IH]; intros i; [done|].
  cbn [batches batch_sizes]. destruct (i <? length l); [|done].
  cbn [fmap list_fmap]. rewrite <- IH. f_equal.
  by rewrite length_take, length_drop.
Qed.

Lemma sent_length (chunk : list string) : length (sent chunk) = length chunk.
Proof. unfold sent. by rewrite length_replicate. Qed.

(** For 250 ids, whatever they are: three batch calls, of 100, 100 and 50
    ids. *)
Lemma updateMembersInChunks_250 (P : Platform) (queueID : string)
    (l : list string) (remove : bool) (s : State) :
  length l = 250 ->
  exists b1 b2 b3,
    updateMembersInChunks P queueID l remove s
    = Some ([], {| trace := trace s ++
                     [PostRoutingQueueMembers queueID b1 remove;
                      PostRoutingQueueMembers queueID b2 remove;
                      PostRoutingQueueMembers queueID b3 remove];
                   now := now s |}) /\
    length b1 = 100 /\ length b2 = 100 /\ length b3 = 50.
Proof.
  intros Hlen. rewrite updateMembersInChunks_sends.
  pose proof (batches_sizes l (S (length l)) 0) as Hsizes.
  rewrite Hlen in Hsizes. rewrite Hlen.
  assert (Hcomp : batch_sizes 251 250 0 = [100; 100; 50]) by (vm_compute; reflexivity).
  rewrite Hcomp in Hsizes.
  destruct (batches 251 l 0) as [|c1 [|c2 [|c3 [|c4 cs]]]]; try discriminate.
  injection Hsizes as H1 H2 H3.
  exists (sent c1), (sent c2), (sent c3). by rewrite !sent_length.
Qed.

(** C2, at an input on which the code fails it: for the three ids u1, u2
    and u3 to add, the one batch call carries u3 three times; u1 and u2 are
    not submitted, so the chunks do not add up to the original list.  The
    platform is any platform: its answer is not looked at. *)
Theorem updateMembersInChunks_repeats_last_id (P : Platform) :
  updateMembersInChunks P "q1" ["u1"; "u2"; "u3"] false fresh
  = Some ([], {| trace := [PostRoutingQueueMembers "q1" ["u3"; "u3"; "u3"] false];
                 now := 0 |}).
Proof. reflexivity. Qed.

(** *** Reconciliation *)

Lemma updateMembersInChunks_batchCalls (P : Platform) (queueID : string)
    (l : list string) (remove : bool) (s : State) :
  updateMembersInChunks P queueID l remove s
  = Some ([], {| trace := trace s ++ batchCalls queueID l remove; now := now s |}).
Proof. apply updateMembersInChunks_sends. Qed.

(** What is handed to the chunks is the set difference. *)
Lemma sliceDifference_spec (a b : list string) (x : string) :
  x ∈ sliceDifference a b <-> x ∈ a /\ x ∉ b.
Proof. unfold sliceDifference. rewrite list_elem_of_filter. tauto. Qed.

(** A failed patch of a ring number is reported, with the queue and the
    user. *)
Lemma updateQueueUserRingNum_reports (P : Platform) (queueID userID : string)
    (ringNum : Z) (s : State) resp err :
  on_PatchRoutingQueueMember P (trace s) queueID userID ringNum = Failed resp err ->
  updateQueueUserRingNum P queueID userID ringNum s
  = Some (["Failed to update ring number for queue " +:+ queueID +:+ " user "
           +:+ userID +:+ ": " +:+ err],
          issue (PatchRoutingQueueMember queueID userID ringNum) s).
Proof. intros Hfail. unfold updateQueueUserRingNum. run. by rewrite Hfail. Qed.

Lemma updateQueueUserRingNum_trace (P : Platform) (queueID userID : string)
    (ringNum : Z) (s : State) :
  exists diags,
    updateQueueUserRingNum P queueID userID ringNum s
    = Some (diags, issue (PatchRoutingQueueMember queueID userID ringNum) s).
Proof.
  unfold updateQueueUserRingNum. run.
  destruct (on_PatchRoutingQueueMember P (trace s) queueID userID ringNum); by eexists.
Qed.

(** The fixups only patch ring numbers. *)
Lemma updateRingNums_trace (P : Platform) (queueID : string)
    (oldUserRingNums : gmap string Z) (entries : list (string * Z)) :
  forall s, exists diags fixups,
    updateRingNums P queueID oldUserRingNums entries s
    = Some (diags, {| trace := trace s ++ fixups; now := now s |}) /\
    Forall is_patch fixups.
Proof.
  induction entries as [|[userID newNum] rest IH]; intros s.
  - exists [], []. destruct s. run. by rewrite app_nil_r.
  - cbn [updateRingNums].
    assert (Hstep : exists diags fixups,
      (match oldUserRingNums !! userID with
       | Some oldNum =>
           if bool_decide (newNum ≠ oldNum)
           then updateQueueUserRingNum P queueID userID newNum
           else ret []
       | None =>
           if bool_decide (newNum ≠ 1%Z)
           then updateQueueUserRingNum P queueID userID newNum
           else ret []
       end) s = Some (diags, {| trace := trace s ++ fixups; now := now s |}) /\
      Forall is_patch fixups).
    { destruct (updateQueueUserRingNum_trace P queueID userID newNum s) as [diags Hrun].
      destruct (oldUserRingNums !! userID) as [oldNum|];
        (destruct (bool_decide _);
         [exists diags, [PatchRoutingQueueMember queueID userID newNum];
          split; [exact Hrun|by repeat constructor]
         |exists [], []; destruct s; run; by rewrite app_nil_r]). }
    destruct Hstep as (diags & fixups & Hrun & Hfix).
    unfold bind at 1. rewrite Hrun.
    destruct (failed diags).
    + by exists diags, fixups.
    + destruct (IH {| trace := trace s ++ fixups; now := now s |})
        as (diags' & fixups' & Hrun' & Hfix').
      exists diags', (fixups ++ fixups'). rewrite Hrun'. cbn [trace now].
      rewrite <- app_assoc. split; [done|]. by apply Forall_app.
Qed.

(** The pages [pageNum], ..., [pageNum + n - 1] have members and the next one
    has none: the listing requests these [n + 1] pages and returns the
    members of the first [n], in order. *)
Lemma getRoutingQueueMembers_loop_spec (P : Platform) (queueID : string)
    (pages : nat -> list Queuemember) :
  members_paged P queueID pages ->
  forall n fuel pageNum members s,
    n < fuel ->
    (forall j, j < n -> pages (pageNum + j) <> []) ->
    pages (pageNum + n) = [] ->
    getRoutingQueueMembers_loop fuel P queueID pageNum members s
    = Some ((members ++ members_of pages pageNum n, []),
            {| trace := trace s ++
                 ((fun p => GetRoutingQueueMembers queueID p maxPageSize)
                    <$> seq pageNum (S n));
               now := now s |}).
Proof.
  intros Hpaged. induction n as [|n IH]; intros fuel pageNum members s Hfuel Hfull Hstop;
    (destruct fuel as [|fuel]; [lia|]); cbn [getRoutingQueueMembers_loop];
    unfold sdkGetRoutingQueueMembers; run; rewrite Hpaged.
  - rewrite Nat.add_0_r in Hstop. rewrite Hstop. cbn. by rewrite app_nil_r.
  - pose proof (Hfull 0 ltac:(lia)) as Hfirst. rewrite Nat.add_0_r in Hfirst.
    destruct (pages pageNum) as [|user users] eqn:Hpage; [done|].
    rewrite (IH fuel (S pageNum)).
    + cbn [trace now]. unfold members_of. cbn [seq fmap list_fmap concat].
      rewrite Hpage. do 3 f_equal; by rewrite <- app_assoc.
    + lia.
    + intros j Hj. replace (S pageNum + j) with (pageNum + S j) by lia. apply Hfull. lia.
    + by replace (S pageNum + n) with (pageNum + S n) by lia.
Qed.

(** Once the members have been listed, reconciliation issues the batch calls
    for the removals, then those for the additions, then the ring number
    patches; the ids handed to the batches are the two set differences. *)
Lemma updateQueueMembers_order (fuel : nat) (P : Platform) (d : QueueData)
    (memberList : list (string * Z)) (oldSdkUsers : list Queuemember) (s s1 : State) :
  members d = Some memberList ->
  getRoutingQueueMembers fuel P (queue_id d) s = Some ((oldSdkUsers, []), s1) ->
  exists diags fixups,
    updateQueueMembers fuel P d s
    = Some (diags,
            {| trace := trace s1
                 ++ batchCalls (queue_id d)
                      (sliceDifference (member_Id <$> oldSdkUsers) memberList.*1) true
                 ++ batchCalls (queue_id d)
                      (sliceDifference memberList.*1 (member_Id <$> oldSdkUsers)) false
                 ++ fixups;
               now := now s1 |}) /\
    Forall is_patch fixups.
Proof.
  intros Hset Hlist. unfold updateQueueMembers. rewrite Hset.
  unfold bind at 1. rewrite Hlist. cbn [failed].
  set (oldUserIds := member_Id <$> oldSdkUsers).
  set (newUserIds := memberList.*1).
  assert (Hrem : (if 0 <? length oldUserIds
                  then updateMembersInChunks P (queue_id d)
                         (sliceDifference oldUserIds newUserIds) true
                  else ret []) s1
                 = Some ([], {| trace := trace s1 ++ batchCalls (queue_id d)
                                  (sliceDifference oldUserIds newUserIds) true;
                                now := now s1 |})).
  { destruct oldUserIds as [|x xs].
    - destruct s1. run. cbn. by rewrite app_nil_r.
    - cbn [length Nat.ltb Nat.leb]. apply updateMembersInChunks_batchCalls. }
  unfold bind at 1. rewrite Hrem. cbn [failed].
  set (s2 := {| trace := trace s1 ++ batchCalls (queue_id d)
                            (sliceDifference oldUserIds newUserIds) true;
                now := now s1 |}).
  assert (Hadd : (if 0 <? length newUserIds
                  then updateMembersInChunks P (queue_id d)
                         (sliceDifference newUserIds oldUserIds) false
                  else ret []) s2
                 = Some ([], {| trace := trace s2 ++ batchCalls (queue_id d)
                                  (sliceDifference newUserIds oldUserIds) false;
                                now := now s2 |})).
  { destruct newUserIds as [|x xs].
    - run. cbn. by rewrite app_nil_r.
    - cbn [length Nat.ltb Nat.leb]. apply updateMembersInChunks_batchCalls. }
  unfold bind at 1. rewrite Hadd. cbn [failed].
  match goal with
  | |- context [updateRingNums ?P ?q ?o ?e ?st] =>
      destruct (updateRingNums_trace P q o e st) as (diags & fixups & Hrun & Hfix)
  end.
  exists diags, fixups. rewrite Hrun. subst s2. cbn [trace now].
  by rewrite <- !app_assoc.
Qed.

(** Both together, for a queue whose members fill [n] pages. *)
Lemma updateQueueMembers_reconciles (fuel n : nat) (P : Platform) (d : QueueData)
    (memberList : list (string * Z)) (pages : nat -> list Queuemember) (s : State) :
  members d = Some memberList ->
  members_paged P (queue_id d) pages ->
  n < fuel ->
  (forall j, j < n -> pages (1 + j) <> []) ->
  pages (1 + n) = [] ->
  exists diags fixups,
    updateQueueMembers fuel P d s
    = Some (diags,
            {| trace := trace s
                 ++ ((fun p => GetRoutingQueueMembers (queue_id d) p maxPageSize)
                       <$> seq 1 (S n))
                 ++ batchCalls (queue_id d)
                      (sliceDifference (member_Id <$> members_of pages 1 n)
                         memberList.*1) true
                 ++ batchCalls (queue_id d)
                      (sliceDifference memberList.*1
                         (member_Id <$> members_of pages 1 n)) false
                 ++ fixups;
               now := now s |}) /\
    Forall is_patch fixups.
Proof.
  intros Hset Hpaged Hfuel Hfull Hstop.
  pose proof (getRoutingQueueMembers_loop_spec P (queue_id d) pages Hpaged
                n fuel 1 [] s Hfuel Hfull Hstop) as Hlist.
  destruct (updateQueueMembers_order fuel P d memberList _ s _ Hset Hlist)
    as (diags & fixups & Hrun & Hfix).
  exists diags, fixups. split; [|done]. rewrite Hrun. cbn [trace now app].
  by rewrite <- app_assoc.
Qed.

(** The example of the spec, old members A, B and C and new members B, C
    and D: one removal batch with A, then one addition batch with D. *)
Example updateQueueMembers_spec_example :
  updateQueueMembers 2
    (staffed (onePage [member "A" 1; member "B" 1; member "C" 1])
       (Returned tt) (Returned tt))
    (q1_with [("B", 1%Z); ("C", 1%Z); ("D", 1%Z)]) fresh
  = Some ([], {| trace := [GetRoutingQueueMembers "q1" 1 100;
                           GetRoutingQueueMembers "q1" 2 100;
                           PostRoutingQueueMembers "q1" ["A"] true;
                           PostRoutingQueueMembers "q1" ["D"] false];
                 now := 0 |}).
Proof. vm_compute. reflexivity. Qed.

(** C1, at an input on which the code fails it: the queue has the members a
    and b, the configuration has c alone.  The members to remove are a and
    b, yet the removal batch carries b twice, so a is never submitted for
    removal. *)
Theorem updateQueueMembers_misses_a_removal :
  updateQueueMembers 2
    (staffed (onePage [member "a" 1; member "b" 1]) (Returned tt) (Returned tt))
    (q1_with [("c", 1%Z)]) fresh
  = Some ([], {| trace := [GetRoutingQueueMembers "q1" 1 100;
                           GetRoutingQueueMembers "q1" 2 100;
                           PostRoutingQueueMembers "q1" ["b"; "b"] true;
                           PostRoutingQueueMembers "q1" ["c"] false];
                 now := 0 |}).
Proof. vm_compute. reflexivity. Qed.

(** C9, at an input on which the code fails it: the platform rejects every
    batch call with status 500, and membership reconciliation still ends
    without a diagnostic. *)
Theorem updateQueueMembers_drops_batch_failures :
  updateQueueMembers 2
    (staffed (onePage [member "a" 1]) serverError (Returned tt))
    (q1_with [("b", 1%Z)]) fresh
  = Some ([], {| trace := [GetRoutingQueueMembers "q1" 1 100;
                           GetRoutingQueueMembers "q1" 2 100;
                           PostRoutingQueueMembers "q1" ["a"] true;
                           PostRoutingQueueMembers "q1" ["b"] false];
                 now := 0 |}).
Proof. vm_compute. reflexivity. Qed.

(** ** Read *)

(** [readQueue] reports a failed read at once, whatever the status. *)
Lemma readQueue_surfaces_failure (fuel : nat) (P : Platform) (d : QueueData)
    (s : State) resp getErr :
  on_GetRoutingQueue P (trace s) (queue_id d) = Failed resp getErr ->
  readQueue fuel P d s
  = Some ((["Failed to read user " +:+ queue_id d +:+ ": " +:+ getErr], d),
          issue (GetRoutingQueue (queue_id d)) s).
Proof. intros Hfail. unfold readQueue. run. by rewrite Hfail. Qed.

(** C3, at an input on which the code fails it: the queue has just been
    created, the first read of it answers 404 and the second would find it.
    [createQueue] reads once and hands the 404 to the caller. *)
Theorem createQueue_surfaces_404 :
  on_GetRoutingQueue (lagging 1)
    [PostRoutingQueues "Support"; GetRoutingQueue "q1"] "q1" = Returned (theQueue "q1") /\
  createQueue 2 (lagging 1) newQueue fresh
  = Some ((["Failed to read user q1: API Error: 404 - not found"],
           queue_SetId newQueue "q1"),
          {| trace := [PostRoutingQueues "Support"; GetRoutingQueue "q1"]; now := 0 |}).
Proof. split; vm_compute; reflexivity. Qed.

Section ReadJourneySegment.
Context (E : Engine) (P : Platform) (d : SegmentData) (s : State).
Let get := GetJourneySegment (segment_id d).
Let reply := fun h => on_GetJourneySegment P h (segment_id d).
Hypothesis tick : 0 < interval E.

(** The reads that answer 404 are retried; the first other answer decides. *)
Lemma readJourneySegment_after_404s (k : nat) (final : option error)
    (d' : SegmentData) :
  in_time E k (readTimeout E) ->
  (forall j, j < k -> exists resp err,
     reply (trace s ++ replicate j get) = Failed resp err /\ isStatus404 resp = true) ->
  readJourneySegment_verdict E d (reply (trace s ++ replicate k get))
  = (NonRetryableError <$> final, d') ->
  readJourneySegment E P d s = Some ((option_list final, d'), polled E get (S k) k s).
Proof.
  intros Hk Hretry Hfinal. unfold readJourneySegment, withRetriesForRead.
  apply (withRetries_poll_final E get (fun h => readJourneySegment_verdict E d (reply h))
           (readJourneySegment_attempt E P) d (fun _ => eq_refl)); try done.
  intros j Hj. destruct (Hretry j Hj) as (resp & err & Hfail & H404).
  eexists. rewrite Hfail. cbn. by rewrite H404.
Qed.

Lemma readJourneySegment_found (k : nat) (journeySegment : Journeysegment) :
  in_time E k (readTimeout E) ->
  (forall j, j < k -> exists resp err,
     reply (trace s ++ replicate j get) = Failed resp err /\ isStatus404 resp = true) ->
  reply (trace s ++ replicate k get) = Returned journeySegment ->
  active journeySegment ->
  CheckSegmentState E d (flattenJourneySegment d journeySegment) = None ->
  readJourneySegment E P d s
  = Some (([], flattenJourneySegment d journeySegment), polled E get (S k) k s).
Proof.
  intros Hk Hretry Hfound Hactive Hcheck.
  apply (readJourneySegment_after_404s k None); try done.
  rewrite Hfound. unfold readJourneySegment_verdict, active in *.
  destruct (segment_IsActive journeySegment) as [[]|]; try done; by rewrite Hcheck.
Qed.

Lemma readJourneySegment_inactive (k : nat) (journeySegment : Journeysegment) :
  in_time E k (readTimeout E) ->
  (forall j, j < k -> exists resp err,
     reply (trace s ++ replicate j get) = Failed resp err /\ isStatus404 resp = true) ->
  reply (trace s ++ replicate k get) = Returned journeySegment ->
  segment_IsActive journeySegment = Some false ->
  readJourneySegment E P d s
  = Some (([], segment_SetId d ""), polled E get (S k) k s).
Proof.
  intros Hk Hretry Hfound Hinactive.
  apply (readJourneySegment_after_404s k None); try done.
  rewrite Hfound. cbn. by rewrite Hinactive.
Qed.

Lemma readJourneySegment_never_found resp err :
  isStatus404 resp = true ->
  (forall j, reply (trace s ++ replicate j get) = Failed resp err) ->
  exists n, 1 <= n /\
    readJourneySegment E P d s
    = Some (([timedOut ("failed to read journey segment " +:+ segment_id d
                        +:+ ": " +:+ err)], d),
            polled E get n n s) /\
    readTimeout E <= n * interval E /\
    (n = 1 \/ (n - 1) * interval E < readTimeout E).
Proof.
  intros H404 Hretry. unfold readJourneySegment, withRetriesForRead.
  apply (withRetries_poll_timeout E get (fun h => readJourneySegment_verdict E d (reply h))
           (readJourneySegment_attempt E P) d (fun _ => eq_refl)); [done|].
  intros j. rewrite Hretry. cbn. by rewrite H404.
Qed.
End ReadJourneySegment.

Section ReadJourneyActionMap.
Context (E : Engine) (P : Platform) (d : ActionMapData) (s : State).
Let get := GetJourneyActionmap (actionmap_id d).
Let reply := fun h => on_GetJourneyActionmap P h (actionmap_id d).
Hypothesis tick : 0 < interval E.

Lemma readJourneyActionMap_after_404s (k : nat) (final : option error)
    (d' : ActionMapData) :
  in_time E k (readTimeout E) ->
  (forall j, j < k -> exists resp err,
     reply (trace s ++ replicate j get) = Failed resp err /\ isStatus404 resp = true) ->
  readJourneyActionMap_verdict E d (reply (trace s ++ replicate k get))
  = (NonRetryableError <$> final, d') ->
  readJourneyActionMap E P d s = Some ((option_list final, d'), polled E get (S k) k s).
Proof.
  intros Hk Hretry Hfinal. unfold readJourneyActionMap, withRetriesForRead.
  apply (withRetries_poll_final E get (fun h => readJourneyActionMap_verdict E d (reply h))
           (readJourneyActionMap_attempt E P) d (fun _ => eq_refl)); try done.
  intros j Hj. destruct (Hretry j Hj) as (resp & err & Hfail & H404).
  eexists. rewrite Hfail. cbn. by rewrite H404.
Qed.

Lemma readJourneyActionMap_found (k : nat) (actionMap : Actionmap) :
  in_time E k (readTimeout E) ->
  (forall j, j < k -> exists resp err,
     reply (trace s ++ replicate j get) = Failed resp err /\ isStatus404 resp = true) ->
  reply (trace s ++ replicate k get) = Returned actionMap ->
  CheckActionMapState E d (flattenActionMap d actionMap) = None ->
  readJourneyActionMap E P d s
  = Some (([], flattenActionMap d actionMap), polled E get (S k) k s).
Proof.
  intros Hk Hretry Hfound Hcheck.
  apply (readJourneyActionMap_after_404s k None); try done.
  rewrite Hfound. cbn. by rewrite Hcheck.
Qed.

Lemma readJourneyActionMap_never_found resp err :
  isStatus404 resp = true ->
  (forall j, reply (trace s ++ replicate j get) = Failed resp err) ->
  exists n, 1 <= n /\
    readJourneyActionMap E P d s
    = Some (([timedOut ("failed to read journey action map " +:+ actionmap_id d
                        +:+ ": " +:+ err)], d),
            polled E get n n s) /\
    readTimeout E <= n * interval E /\
    (n = 1 \/ (n - 1) * interval E < readTimeout E).
Proof.
  intros H404 Hretry. unfold readJourneyActionMap, withRetriesForRead.
  apply (withRetries_poll_timeout E get (fun h => readJourneyActionMap_verdict E d (reply h))
           (readJourneyActionMap_attempt E P) d (fun _ => eq_refl)); [done|].
  intros j. rewrite Hretry. cbn. by rewrite H404.
Qed.
End ReadJourneyActionMap.

(** After Create, the segment and the action map are read until they are
    found: two reads that answer 404 are not reported. *)
Example createJourneySegment_waits :
  createJourneySegment (ticking 1) (lagging 2) s1 fresh
  = Some (([], s1),
          {| trace := PostJourneySegments "Visitors" :: replicate 3 (GetJourneySegment "s1");
             now := 2 |}).
Proof. vm_compute. reflexivity. Qed.

Example createJourneyActionMap_waits :
  createJourneyActionMap (ticking 1) (lagging 2) a1 fresh
  = Some (([], a1),
          {| trace := PostJourneyActionmaps "Offer chat"
                        :: replicate 3 (GetJourneyActionmap "a1");
             now := 2 |}).
Proof. vm_compute. reflexivity. Qed.

(** C8, as amended: a read of a journey segment that the server returns
    flagged inactive -- at once, or after reads that answered 404 -- clears
    the identifier and ends without diagnostics, the consistency check not
    being consulted.  A read of a journey action map has no such rule: the
    action map that is returned is flattened into the resource data, which
    keeps its identifier and takes over the flag. *)
Theorem read_inactive (E : Engine) (P : Platform) (k : nat) :
  0 < interval E ->
  in_time E k (readTimeout E) ->
  (forall d s journeySegment,
     (forall j, j < k -> exists resp err,
        on_GetJourneySegment P (trace s ++ replicate j (GetJourneySegment (segment_id d)))
          (segment_id d) = Failed resp err /\ isStatus404 resp = true) ->
     on_GetJourneySegment P (trace s ++ replicate k (GetJourneySegment (segment_id d)))
       (segment_id d) = Returned journeySegment ->
     segment_IsActive journeySegment = Some false ->
     exists d',
       readJourneySegment E P d s
       = Some (([], d'), polled E (GetJourneySegment (segment_id d)) (S k) k s) /\
       segment_id d' = "") /\
  (forall d s actionMap,
     (forall j, j < k -> exists resp err,
        on_GetJourneyActionmap P (trace s ++ replicate j (GetJourneyActionmap (actionmap_id d)))
          (actionmap_id d) = Failed resp err /\ isStatus404 resp = true) ->
     on_GetJourneyActionmap P (trace s ++ replicate k (GetJourneyActionmap (actionmap_id d)))
       (actionmap_id d) = Returned actionMap ->
     CheckActionMapState E d (flattenActionMap d actionMap) = None ->
     exists d',
       readJourneyActionMap E P d s
       = Some (([], d'), polled E (GetJourneyActionmap (actionmap_id d)) (S k) k s) /\
       actionmap_id d' = actionmap_id d /\
       actionmap_is_active d' = actionmap_IsActive actionMap).
Proof.
  intros tick Hk. split.
  - intros d s journeySegment Hretry Hfound Hinactive.
    exists (segment_SetId d ""). split; [|done].
    by apply (readJourneySegment_inactive E P d s tick k journeySegment).
  - intros d s actionMap Hretry Hfound Hcheck.
    exists (flattenActionMap d actionMap). split; [|done].
    by apply (readJourneyActionMap_found E P d s tick k actionMap).
Qed.

Lemma read_inactive_witness :
  (exists d',
     readJourneySegment (ticking 1) dormant s1 fresh
     = Some (([], d'), polled (ticking 1) (GetJourneySegment "s1") 1 0 fresh) /\
     segment_id d' = "") /\
  (exists d',
     readJourneyActionMap (ticking 1) dormant a1 fresh
     = Some (([], d'), polled (ticking 1) (GetJourneyActionmap "a1") 1 0 fresh) /\
     actionmap_id d' = "a1" /\
     actionmap_is_active d' = false).
Proof.
  assert (tick : 0 < interval (ticking 1)) by (cbn; lia).
  assert (Hk : in_time (ticking 1) 0 (readTimeout (ticking 1))) by (by left).
  destruct (read_inactive (ticking 1) dormant 0 tick Hk) as [Hs Ha].
  split.
  - apply (Hs s1 fresh (theSegment "s1" 1 (Some false))).
    + intros j Hj. lia.
    + reflexivity.
    + reflexivity.
  - apply (Ha a1 fresh (theActionMap "a1" 1 false)).
    + intros j Hj. lia.
    + reflexivity.
    + reflexivity.
Defined.

(** C8 as stated fails for the action map: the server returns a1 flagged
    inactive, and the read, which ends without diagnostics, leaves the
    identifier a1 in place. *)
Lemma readJourneyActionMap_keeps_inactive :
  on_GetJourneyActionmap dormant [] "a1" = Returned (theActionMap "a1" 1 false) /\
  readJourneyActionMap (ticking 1) dormant a1 fresh
  = Some (([], {| actionmap_id := "a1"; actionmap_display_name := "Offer chat";
                  actionmap_is_active := false |}),
          {| trace := [GetJourneyActionmap "a1"]; now := 0 |}).
Proof. split; vm_compute; reflexivity. Qed.

(** ** Update *)

Lemma attempts_app (actionMapID : string) (vs ws : list Z) :
  attempts actionMapID (vs ++ ws) = attempts actionMapID vs ++ attempts actionMapID ws.
Proof. induction vs as [|v vs IH]; [done|]. cbn. by rewrite IH. Qed.

Section UpdateJourneyActionMap.
Context (E : Engine) (P : Platform) (d : ActionMapData).
Let id := actionmap_id d.

(** An attempt patches with the version it has just read. *)
Lemma updateJourneyActionMap_attempt_patches_read_version (s : State)
    (actionMap : Actionmap) :
  on_GetJourneyActionmap P (trace s) id = Returned actionMap ->
  updateJourneyActionMap_attempt P d s
  = Some (match on_PatchJourneyActionmap P (trace s ++ [GetJourneyActionmap id]) id
                  (actionmap_Version actionMap) with
          | Failed resp patchErr =>
              (resp, ["Error updating journey action map "
                      +:+ actionmap_display_name d +:+ ": " +:+ patchErr])
          | Returned _ => (None, [])
          end,
          {| trace := trace s ++ attempts id [actionmap_Version actionMap];
             now := now s |}).
Proof.
  intros Hget. unfold updateJourneyActionMap_attempt. run. fold id. rewrite Hget. run.
  cbn [attempts]. rewrite <- app_assoc. cbn [app].
  by destruct (on_PatchJourneyActionmap P _ id (actionmap_Version actionMap)).
Qed.

Lemma retryWhen_loop_conflicts (vs : list Z) (v : Z) :
  forall fuel deadline tr t,
    length vs < fuel ->
    (forall j, j < length vs -> t + S j * interval E < deadline) ->
    conflicts E P id tr vs ->
    accepts P id tr vs v ->
    retryWhen_loop fuel E deadline (isVersionMismatch E)
      (updateJourneyActionMap_attempt P d) {| trace := tr; now := t |}
    = Some ([], {| trace := tr ++ attempts id (vs ++ [v]);
                   now := t + length vs * interval E |}).
Proof.
  induction vs as [|v' vs IH]; intros fuel deadline tr t Hfuel Htime Hconf Hacc;
    (destruct fuel as [|fuel]; [cbn in Hfuel; lia|]); cbn [retryWhen_loop];
    unfold bind at 1.
  - destruct Hacc as [(am & Hget & Hv) (am' & Hpatch)].
    cbn [attempts app] in Hget, Hpatch. rewrite app_nil_r in Hget.
    rewrite (updateJourneyActionMap_attempt_patches_read_version _ am) by done.
    cbn [trace now] in *. rewrite Hv, Hpatch. cbn [failed]. run.
    do 3 f_equal. cbn. lia.
  - destruct (Hconf [] v' vs eq_refl) as [(am & Hget & Hv) (resp & err & Hpatch & Hmm)].
    cbn [attempts app] in Hget, Hpatch. rewrite app_nil_r in Hget.
    rewrite (updateJourneyActionMap_attempt_patches_read_version _ am) by done.
    cbn [trace now] in *. rewrite Hv, Hpatch. cbn [failed]. rewrite Hmm. run.
    assert (Hlt : t + interval E < deadline) by (specialize (Htime 0); cbn in Htime; lia).
    destruct (Nat.leb_spec deadline (t + interval E)) as [?|_]; [lia|].
    rewrite (IH fuel deadline).
    + cbn [app attempts length]. rewrite <- app_assoc. do 3 f_equal. lia.
    + cbn in Hfuel. lia.
    + intros j Hj. specialize (Htime (S j)). cbn [length] in Htime. lia.
    + intros pre x post Heq.
      destruct (Hconf (v' :: pre) x post) as [Hg Hp]; [by rewrite Heq|].
      cbn [attempts app] in Hg, Hp |- *. rewrite <- !app_assoc. cbn [app].
      by split.
    + destruct Hacc as [Hg Hp]. unfold accepts.
      cbn [attempts app] in Hg, Hp |- *. rewrite <- !app_assoc. cbn [app].
      by split.
Qed.

(** Update reads the version, patches with it and, as often as the patch is
    rejected for a version conflict within the bound, reads and patches
    again; once a patch is accepted it goes on to read the action map. *)
Lemma updateJourneyActionMap_retries_conflicts (vs : list Z) (v : Z) (s : State) :
  0 < interval E ->
  in_time E (length vs) (updateTimeout E) ->
  conflicts E P id (trace s) vs ->
  accepts P id (trace s) vs v ->
  updateJourneyActionMap E P d s
  = readJourneyActionMap E P d
      {| trace := trace s ++ attempts id (vs ++ [v]);
         now := now s + length vs * interval E |}.
Proof.
  intros tick Hk Hconf Hacc. unfold updateJourneyActionMap, retryWhen.
  destruct s as [tr t]. run.
  rewrite (retryWhen_loop_conflicts vs v); try done.
  - destruct Hk as [Hk|Hk]; [rewrite Hk|]; nia.
  - intros j Hj. destruct Hk as [Hk|Hk]; [rewrite Hk in Hj; lia|nia].
Qed.
End UpdateJourneyActionMap.

(** The action map is written by somebody else between the read and the
    patch of the first attempt: the patch that names version 1 is rejected,
    the second attempt reads version 2 and its patch is accepted. *)
Example updateJourneyActionMap_rereads_version :
  updateJourneyActionMap (ticking 1) racing a1 fresh
  = Some (([], a1),
          {| trace := [GetJourneyActionmap "a1"; PatchJourneyActionmap "a1" 1;
                       GetJourneyActionmap "a1"; PatchJourneyActionmap "a1" 2;
                       GetJourneyActionmap "a1"];
             now := 1 |}).
Proof. vm_compute. reflexivity. Qed.

(** C6, at an input on which the code fails it: the segment s1 is at version
    2 on the platform and at version 1 in the resource data.
    [updateJourneySegment] does not read the version first, patches with
    version 1 and ends on the version conflict; it neither reads again nor
    patches again.  The engine is any engine. *)
Theorem updateJourneySegment_fails_on_conflict (E : Engine) :
  on_GetJourneySegment (versioned 2) [] "s1" = Returned (theSegment "s1" 2 (Some true)) /\
  updateJourneySegment E (versioned 2) s1 fresh
  = Some ((["Error updating journey segment " +:+ displayNamePointer
            +:+ ": API Error: 409 - version mismatch"], s1),
          {| trace := [PatchJourneySegment "s1" 1]; now := 0 |}).
Proof. split; reflexivity. Qed.

(** ** Listing *)

Lemma entities_of_cons {A} (entities : nat -> option (list A)) (first n : nat) :
  entities_of entities first (S n)
  = default [] (entities first) ++ entities_of entities (S first) n.
Proof. reflexivity. Qed.

Lemma addJourneySegments_app (m : ResourceIDMetaMap) (l1 l2 : list Journeysegment) :
  addJourneySegments m (l1 ++ l2) = addJourneySegments (addJourneySegments m l1) l2.
Proof. apply foldl_app. Qed.

Lemma addActionMaps_app (m : ResourceIDMetaMap) (l1 l2 : list Actionmap) :
  addActionMaps m (l1 ++ l2) = addActionMaps (addActionMaps m l1) l2.
Proof. apply foldl_app. Qed.

(** The pages [pageNum], ..., [pageNum + n - 1] have entities and the next
    one has none: the loop requests these [n + 1] pages and adds the
    entities of the first [n]. *)
Lemma getAllJourneySegments_loop_spec (P : Platform)
    (entities : nat -> option (list Journeysegment)) :
  segments_paged P entities ->
  forall n fuel pageNum resources s,
    n < fuel ->
    (forall j, j < n -> nonempty (entities (pageNum + j))) ->
    ~ nonempty (entities (pageNum + n)) ->
    getAllJourneySegments_loop fuel P pageNum resources s
    = Some ((addJourneySegments resources (entities_of entities pageNum n), []),
            {| trace := trace s ++ (GetJourneySegments pageSize <$> seq pageNum (S n));
               now := now s |}).
Proof.
  intros Hpaged. induction n as [|n IH]; intros fuel pageNum resources s Hfuel Hfull Hstop;
    (destruct fuel as [|fuel]; [lia|]); cbn [getAllJourneySegments_loop]; run;
    rewrite Hpaged.
  - rewrite Nat.add_0_r in Hstop.
    by destruct (entities pageNum) as [[|e es]|]; [| exfalso; apply Hstop |].
  - pose proof (Hfull 0 ltac:(lia)) as Hfirst. rewrite Nat.add_0_r in Hfirst.
    rewrite entities_of_cons.
    destruct (entities pageNum) as [[|e es]|]; try done.
    rewrite (IH fuel (S pageNum)).
    + cbn [trace now default]. rewrite addJourneySegments_app.
      do 3 f_equal. by rewrite <- app_assoc.
    + lia.
    + intros j Hj. replace (S pageNum + j) with (pageNum + S j) by lia. apply Hfull. lia.
    + by replace (S pageNum + n) with (pageNum + S n) by lia.
Qed.

(** The same for the action maps, whose loop also stops at a page number
    beyond the page count it was last told: [extra] says whether the page
    after the [n] pages with entities is within that count, and so is
    requested and found to have no entities, or is beyond it and not
    requested. *)
Lemma getAllJourneyActionMaps_loop_spec (P : Platform)
    (entities : nat -> option (list Actionmap)) (counts : nat -> Z) :
  actionmaps_paged P entities counts ->
  forall n fuel pageNum pageCount resources s (extra : bool),
    n < fuel ->
    (forall j, j < n -> nonempty (entities (pageNum + j))) ->
    (forall j, j < n ->
       (Z.of_nat (pageNum + j) <= count_before pageCount counts pageNum j)%Z) ->
    (if extra
     then (Z.of_nat (pageNum + n) <= count_before pageCount counts pageNum n)%Z /\
          ~ nonempty (entities (pageNum + n))
     else (count_before pageCount counts pageNum n < Z.of_nat (pageNum + n))%Z) ->
    getAllJourneyActionMaps_loop fuel P pageNum pageCount resources s
    = Some ((addActionMaps resources (entities_of entities pageNum n), []),
            {| trace := trace s ++
                 ((fun p => GetJourneyActionmaps p pageSize)
                    <$> seq pageNum (n + (if extra then 1 else 0)));
               now := now s |}).
Proof.
  intros Hpaged.
  induction n as [|n IH];
    intros fuel pageNum pageCount resources s extra Hfuel Hfull Hwithin Hstop;
    (destruct fuel as [|fuel]; [lia|]); cbn [getAllJourneyActionMaps_loop].
  - rewrite Nat.add_0_r in Hstop. cbn [count_before] in Hstop.
    destruct extra.
    + destruct Hstop as [Hle Hempty].
      destruct (Z.leb_spec (Z.of_nat pageNum) pageCount) as [_|?]; [|lia].
      run. rewrite Hpaged.
      by destruct (entities pageNum) as [[|e es]|]; [| exfalso; apply Hempty |].
    + destruct (Z.leb_spec (Z.of_nat pageNum) pageCount) as [?|_]; [lia|].
      destruct s. run. cbn. by rewrite app_nil_r.
  - pose proof (Hfull 0 ltac:(lia)) as Hfirst. rewrite Nat.add_0_r in Hfirst.
    pose proof (Hwithin 0 ltac:(lia)) as Hle.
    rewrite Nat.add_0_r in Hle. cbn [count_before] in Hle.
    destruct (Z.leb_spec (Z.of_nat pageNum) pageCount) as [_|?]; [|lia].
    run. rewrite Hpaged. rewrite entities_of_cons.
    destruct (entities pageNum) as [[|e es]|]; try done.
    rewrite (IH fuel (S pageNum) (counts pageNum) _ _ extra).
    + cbn [trace now default]. rewrite addActionMaps_app.
      do 3 f_equal. by rewrite <- app_assoc.
    + lia.
    + intros j Hj. replace (S pageNum + j) with (pageNum + S j) by lia. apply Hfull. lia.
    + intros j Hj. specialize (Hwithin (S j) ltac:(lia)).
      replace (S pageNum + j) with (pageNum + S j) by lia.
      destruct j as [|j]; cbn [count_before] in *.
      * by rewrite Nat.add_0_r in Hwithin.
      * by replace (S pageNum + j) with (pageNum + S j) by lia.
    + replace (S pageNum + n) with (pageNum + S n) by lia.
      destruct n as [|n]; cbn [count_before] in *.
      * by rewrite Nat.add_0_r in Hstop.
      * by replace (S pageNum + n) with (pageNum + S n) by lia.
Qed.

(** What the inner loops leave in the map. *)
Section AddEntities.
Context {A : Type} (key : A -> string) (val : A -> ResourceMeta).
Let add (m : ResourceIDMetaMap) (l : list A) : ResourceIDMetaMap :=
  foldl (fun m e => <[key e := val e]> m) m l.



End AddEntities.




(** * Further properties of the queue *)

(** ** Listing the members *)

(** The pages [pageNum], ..., [pageNum + n - 1] have members and the next
    one ends the listing, as a nil listing, with nil entities or with none:
    the loop requests these [n + 1] pages and returns the members of the
    first [n], in order. *)
Lemma getRoutingQueueMembers_loop_ends (P : Platform) (queueID : string)
    (pages : nat -> list Queuemember) :
  forall n fuel pageNum members s,
    members_end_after P queueID pages pageNum n ->
    n < fuel ->
    getRoutingQueueMembers_loop fuel P queueID pageNum members s
    = Some ((members ++ members_of pages pageNum n, []),
            {| trace := trace s ++
                 ((fun p => GetRoutingQueueMembers queueID p maxPageSize)
                    <$> seq pageNum (S n));
               now := now s |}).
Proof.
  induction n as [|n IH]; intros fuel pageNum members s (Hpages & Hfull & Hend) Hfuel;
    (destruct fuel as [|fuel]; [lia|]); cbn [getRoutingQueueMembers_loop];
    unfold sdkGetRoutingQueueMembers; run.
  - specialize (Hend (trace s)). rewrite Nat.add_0_r in Hend.
    destruct Hend as [-> | [-> | ->]]; cbn; by rewrite app_nil_r.
  - pose proof (Hpages (trace s) 0 ltac:(lia)) as Hpage.
    pose proof (Hfull 0 ltac:(lia)) as Hfirst.
    rewrite Nat.add_0_r in Hpage, Hfirst. rewrite Hpage.
    destruct (pages pageNum) as [|user users] eqn:Husers; [done|].
    rewrite (IH fuel (S pageNum)).
    + cbn [trace now]. unfold members_of. cbn [seq fmap list_fmap concat].
      rewrite Husers. do 3 f_equal; by rewrite <- app_assoc.
    + split; [|split].
      * intros h j Hj. replace (S pageNum + j) with (pageNum + S j) by lia.
        apply Hpages. lia.
      * intros j Hj. replace (S pageNum + j) with (pageNum + S j) by lia.
        apply Hfull. lia.
      * intros h. replace (S pageNum + n) with (pageNum + S n) by lia. apply Hend.
    + lia.
Qed.

(** X1: when the pages 1 to [n] of the members of the queue have members
    and page [n + 1] ends the listing -- as a nil listing, with nil
    entities, or with no entities -- [getRoutingQueueMembers] requests
    exactly these [n + 1] pages, 100 members a page, and returns the members
    of the [n] pages in page order, without a diagnostic. *)
Theorem getRoutingQueueMembers_returns_all_pages (fuel n : nat) (P : Platform)
    (queueID : string) (pages : nat -> list Queuemember) (s : State) :
  members_end_after P queueID pages 1 n ->
  n < fuel ->
  getRoutingQueueMembers fuel P queueID s
  = Some ((members_of pages 1 n, []),
          {| trace := trace s ++
               ((fun p => GetRoutingQueueMembers queueID p 100) <$> seq 1 (S n));
             now := now s |}).
Proof.
  intros Hend Hfuel.
  apply (getRoutingQueueMembers_loop_ends P queueID pages n fuel 1 [] s); done.
Qed.

Ltac ends_after :=
  split; [|split];
  [ let h := fresh "h" in let j := fresh "j" in let Hj := fresh "Hj" in
    intros h j Hj; do 2 (destruct j as [|j]; [reflexivity|]); lia
  | let j := fresh "j" in let Hj := fresh "Hj" in
    intros j Hj; do 2 (destruct j as [|j]; [discriminate|]); lia
  | intros h ].

Lemma getRoutingQueueMembers_returns_all_pages_witness :
  (getRoutingQueueMembers 3 (staffedEnding 3 twoPages (Returned None)) "q1" fresh
  = Some (([member "a" 1; member "b" 2], []),
          {| trace := [GetRoutingQueueMembers "q1" 1 100; GetRoutingQueueMembers "q1" 2 100;
                       GetRoutingQueueMembers "q1" 3 100];
             now := 0 |})) /\
  (getRoutingQueueMembers 3
    (staffedEnding 3 twoPages (Returned (Some {| member_Entities := None |}))) "q1" fresh
  = Some (([member "a" 1; member "b" 2], []),
          {| trace := [GetRoutingQueueMembers "q1" 1 100; GetRoutingQueueMembers "q1" 2 100;
                       GetRoutingQueueMembers "q1" 3 100];
             now := 0 |})) /\
  (getRoutingQueueMembers 3
    (staffedEnding 3 twoPages (Returned (Some {| member_Entities := Some [] |}))) "q1" fresh
  = Some (([member "a" 1; member "b" 2], []),
          {| trace := [GetRoutingQueueMembers "q1" 1 100; GetRoutingQueueMembers "q1" 2 100;
                       GetRoutingQueueMembers "q1" 3 100];
             now := 0 |})).
Proof.
  split; [|split].
  - apply (getRoutingQueueMembers_returns_all_pages 3 2
             (staffedEnding 3 twoPages (Returned None)) "q1" twoPages fresh); [|lia].
    ends_after. by left.
  - apply (getRoutingQueueMembers_returns_all_pages 3 2
             (staffedEnding 3 twoPages (Returned (Some {| member_Entities := None |})))
             "q1" twoPages fresh); [|lia].
    ends_after. right. by left.
  - apply (getRoutingQueueMembers_returns_all_pages 3 2
             (staffedEnding 3 twoPages (Returned (Some {| member_Entities := Some [] |})))
             "q1" twoPages fresh); [|lia].
    ends_after. right. by right.
Defined.

(** The members of the pages before a failed one are dropped with it. *)
Lemma getRoutingQueueMembers_loop_fails (P : Platform) (queueID : string)
    (pages : nat -> list Queuemember) resp err :
  forall n fuel pageNum members s,
    members_fail_at P queueID pages (pageNum + n) resp err ->
    n < fuel ->
    (forall j, j < n -> pages (pageNum + j) <> []) ->
    getRoutingQueueMembers_loop fuel P queueID pageNum members s
    = Some (([], ["Failed to query users for queue " +:+ queueID +:+ ": " +:+ err]),
            {| trace := trace s ++
                 ((fun p => GetRoutingQueueMembers queueID p maxPageSize)
                    <$> seq pageNum (S n));
               now := now s |}).
Proof.
  induction n as [|n IH]; intros fuel pageNum members s [Hpages Hfail] Hfuel Hfull;
    (destruct fuel as [|fuel]; [lia|]); cbn [getRoutingQueueMembers_loop];
    unfold sdkGetRoutingQueueMembers; run.
  - rewrite Nat.add_0_r in Hfail. by rewrite Hfail.
  - rewrite Hpages by lia.
    pose proof (Hfull 0 ltac:(lia)) as Hfirst. rewrite Nat.add_0_r in Hfirst.
    destruct (pages pageNum) as [|user users] eqn:Hpage; [done|].
    rewrite (IH fuel (S pageNum)).
    + cbn [trace now seq fmap list_fmap]. do 3 f_equal. by rewrite <- app_assoc.
    + replace (S pageNum + n) with (pageNum + S n) by lia. by split.
    + lia.
    + intros j Hj. replace (S pageNum + j) with (pageNum + S j) by lia. apply Hfull. lia.
Qed.

(** X2: when the listing of the members fails on page [k], after [k - 1]
    pages that had members, [getRoutingQueueMembers] returns no members at
    all -- those of the earlier pages are dropped -- and one diagnostic
    that names the queue and carries the error. *)
Theorem getRoutingQueueMembers_fails_as_a_whole (fuel n : nat) (P : Platform)
    (queueID : string) (pages : nat -> list Queuemember) (s : State) resp err :
  members_fail_at P queueID pages (1 + n) resp err ->
  n < fuel ->
  (forall j, j < n -> pages (1 + j) <> []) ->
  getRoutingQueueMembers fuel P queueID s
  = Some (([], ["Failed to query users for queue " +:+ queueID +:+ ": " +:+ err]),
          {| trace := trace s ++
               ((fun p => GetRoutingQueueMembers queueID p 100) <$> seq 1 (S n));
             now := now s |}).
Proof.
  intros Hfail Hfuel Hfull.
  by apply (getRoutingQueueMembers_loop_fails P queueID pages resp err n fuel 1 [] s).
Qed.

Lemma getRoutingQueueMembers_fails_as_a_whole_witness :
  getRoutingQueueMembers 3 (staffedUntil 2 twoPages) "q1" fresh
  = Some (([], ["Failed to query users for queue q1: API Error: 500 - internal server error"]),
          {| trace := [GetRoutingQueueMembers "q1" 1 100; GetRoutingQueueMembers "q1" 2 100];
             now := 0 |}).
Proof.
  apply (getRoutingQueueMembers_fails_as_a_whole 3 1 (staffedUntil 2 twoPages) "q1"
           twoPages fresh (Some {| StatusCode := 500 |})).
  - split.
    + intros h p Hp. cbn. destruct p as [|[|p]]; [reflexivity|reflexivity|lia].
    + intros h. reflexivity.
  - lia.
  - intros j Hj. repeat (destruct j as [|j]; [discriminate|]). lia.
Defined.

Lemma updateQueueMembers_stops_on_listing_failure_aux (fuel n : nat) (P : Platform)
    (d : QueueData) (memberList : list (string * Z))
    (pages : nat -> list Queuemember) (s : State) resp err :
  members d = Some memberList ->
  members_fail_at P (queue_id d) pages (1 + n) resp err ->
  n < fuel ->
  (forall j, j < n -> pages (1 + j) <> []) ->
  updateQueueMembers fuel P d s
  = Some (["Failed to query users for queue " +:+ queue_id d +:+ ": " +:+ err],
          {| trace := trace s ++
               ((fun p => GetRoutingQueueMembers (queue_id d) p 100) <$> seq 1 (S n));
             now := now s |}).
Proof.
  intros Hset Hfail Hfuel Hfull. unfold updateQueueMembers. rewrite Hset.
  unfold bind at 1. unfold getRoutingQueueMembers.
  by rewrite (getRoutingQueueMembers_loop_fails P (queue_id d) pages resp err n fuel 1 [] s).
Qed.

(** X3: when the listing of the members fails, [updateQueueMembers] hands on
    its diagnostic and has issued nothing but the listing requests: no
    member is added or removed and no ring number is patched. *)
Theorem updateQueueMembers_stops_on_listing_failure (fuel n : nat) (P : Platform)
    (d : QueueData) (memberList : list (string * Z))
    (pages : nat -> list Queuemember) (s : State) resp err :
  members d = Some memberList ->
  members_fail_at P (queue_id d) pages (1 + n) resp err ->
  n < fuel ->
  (forall j, j < n -> pages (1 + j) <> []) ->
  updateQueueMembers fuel P d s
  = Some (["Failed to query users for queue " +:+ queue_id d +:+ ": " +:+ err],
          {| trace := trace s ++
               ((fun p => GetRoutingQueueMembers (queue_id d) p 100) <$> seq 1 (S n));
             now := now s |}).
Proof. apply updateQueueMembers_stops_on_listing_failure_aux. Qed.

Lemma updateQueueMembers_stops_on_listing_failure_witness :
  updateQueueMembers 3 (staffedUntil 2 twoPages) (q1_with [("c", 1%Z)]) fresh
  = Some (["Failed to query users for queue q1: API Error: 500 - internal server error"],
          {| trace := [GetRoutingQueueMembers "q1" 1 100; GetRoutingQueueMembers "q1" 2 100];
             now := 0 |}).
Proof.
  apply (updateQueueMembers_stops_on_listing_failure 3 1 (staffedUntil 2 twoPages)
           (q1_with [("c", 1%Z)]) [("c", 1%Z)] twoPages fresh
           (Some {| StatusCode := 500 |})).
  - reflexivity.
  - split.
    + intros h p Hp. cbn. destruct p as [|[|p]]; [reflexivity|reflexivity|lia].
    + intros h. reflexivity.
  - lia.
  - intros j Hj. repeat (destruct j as [|j]; [discriminate|]). lia.
Defined.

(** ** The batch calls *)

Lemma batches_props (l : list string) :
  forall rounds i,
    Forall (fun c => c <> [] /\ length c <= maxBatchSize /\ forall x, x ∈ c -> x ∈ l)
           (batches rounds l i).
Proof.
  induction rounds as [|rounds IH]; intros i; cbn [batches]; [constructor|].
  destruct (Nat.ltb_spec i (length l)) as [Hi|Hi]; [|constructor].
  constructor; [|apply IH]. split; [|split].
  - intros Hnil. apply (f_equal length) in Hnil.
    rewrite length_take, length_drop in Hnil. cbn [length] in Hnil.
    unfold maxBatchSize in Hnil. lia.
  - rewrite length_take. lia.
  - intros x Hx. apply (subseteq_drop i l). by apply (subseteq_take maxBatchSize).
Qed.

Lemma batches_full (l : list string) :
  forall rounds i k c,
    batches rounds l i !! k = Some c ->
    is_Some (batches rounds l i !! S k) ->
    length c = maxBatchSize.
Proof.
  induction rounds as [|rounds IH]; intros i k c Hc Hnext; [done|].
  cbn [batches] in Hc, Hnext.
  destruct (Nat.ltb_spec i (length l)) as [Hi|Hi]; [|done].
  destruct k as [|k].
  - cbn in Hc. injection Hc as <-. cbn in Hnext.
    destruct rounds as [|rounds]; [by destruct Hnext|].
    cbn [batches] in Hnext.
    destruct (Nat.ltb_spec (i + maxBatchSize) (length l)) as [Hi'|Hi'];
      [|by destruct Hnext].
    rewrite length_take, length_drop. unfold maxBatchSize in *. lia.
  - cbn in Hc, Hnext. by apply (IH (i + maxBatchSize) k).
Qed.

Lemma sent_elem_of (c : list string) (x : string) :
  c <> [] -> x ∈ sent c -> x ∈ c.
Proof.
  intros Hne Hx. unfold sent in Hx. apply elem_of_replicate_inv in Hx as ->.
  destruct (last c) as [y|] eqn:Hlast.
  - cbn. apply last_Some in Hlast as [c' ->]. apply elem_of_app. right. left.
  - by apply last_None in Hlast.
Qed.

(** X4: whatever the list, [updateMembersInChunks] returns no diagnostic and
    issues batch calls that respect the limit of the API: every call carries
    at least one and at most 100 ids, every call but the last carries
    exactly 100, and together they carry as many ids as the list has. *)
Theorem updateMembersInChunks_respects_batch_limit (P : Platform) (queueID : string)
    (membersToUpdate : list string) (remove : bool) (s : State) :
  exists bodies,
    updateMembersInChunks P queueID membersToUpdate remove s
    = Some ([], {| trace := trace s ++
                     ((fun body => PostRoutingQueueMembers queueID body remove)
                        <$> bodies);
                   now := now s |}) /\
    Forall (fun body => 1 <= length body <= 100) bodies /\
    (forall k body, bodies !! k = Some body -> is_Some (bodies !! S k) ->
                    length body = 100) /\
    length (concat bodies) = length membersToUpdate.
Proof.
  exists (sent <$> batches (S (length membersToUpdate)) membersToUpdate 0).
  split; [|split; [|split]].
  - rewrite updateMembersInChunks_sends. by rewrite <- list_fmap_compose.
  - apply Forall_fmap. eapply Forall_impl; [apply batches_props|].
    cbn. intros c (Hne & Hle & _). rewrite sent_length. unfold maxBatchSize in Hle.
    destruct c; [done|]. cbn [length] in *. lia.
  - intros k body Hbody Hnext. rewrite list_lookup_fmap in Hbody, Hnext.
    destruct (batches _ _ _ !! k) as [c|] eqn:Hc; [|done].
    cbn in Hbody. injection Hbody as <-. rewrite sent_length.
    apply (batches_full membersToUpdate _ 0 k c Hc).
    destruct (batches _ _ _ !! S k); [done|by destruct Hnext].
  - transitivity (length (concat (batches (S (length membersToUpdate)) membersToUpdate 0))).
    + rewrite !length_concat. f_equal. rewrite <- list_fmap_compose.
      apply list_fmap_ext. intros _ c _. cbn. apply sent_length.
    + rewrite batches_concat by (unfold maxBatchSize; lia). by rewrite drop_0.
Qed.

(** X5: a batch call never carries an id that is not in the list handed to
    [updateMembersInChunks]: the aliasing of the range variable can leave
    ids out, it cannot bring any in. *)
Theorem updateMembersInChunks_sends_no_stranger (P : Platform) (queueID : string)
    (membersToUpdate : list string) (remove : bool) (s : State) :
  exists bodies,
    updateMembersInChunks P queueID membersToUpdate remove s
    = Some ([], {| trace := trace s ++
                     ((fun body => PostRoutingQueueMembers queueID body remove)
                        <$> bodies);
                   now := now s |}) /\
    forall body x, body ∈ bodies -> x ∈ body -> x ∈ membersToUpdate.
Proof.
  exists (sent <$> batches (S (length membersToUpdate)) membersToUpdate 0). split.
  - rewrite updateMembersInChunks_sends. by rewrite <- list_fmap_compose.
  - intros body x Hbody Hx. apply list_elem_of_fmap in Hbody as (c & -> & Hc).
    pose proof (batches_props membersToUpdate (S (length membersToUpdate)) 0) as Hprops.
    rewrite Forall_forall in Hprops. destruct (Hprops c Hc) as (Hne & _ & Hsub).
    apply Hsub. by apply sent_elem_of.
Qed.

(** ** The ring numbers *)

(** One round of the ring number loop, for an entry that needs no patch. *)
Lemma updateRingNums_skip (P : Platform) (queueID : string)
    (oldUserRingNums : gmap string Z) (entry : string * Z) (rest : list (string * Z))
    (s : State) :
  ringNumDiffers oldUserRingNums entry = false ->
  updateRingNums P queueID oldUserRingNums (entry :: rest) s
  = updateRingNums P queueID oldUserRingNums rest s.
Proof.
  destruct entry as [userID newNum]. unfold ringNumDiffers. cbn [fst snd updateRingNums].
  intros Hsame. unfold bind. by destruct (oldUserRingNums !! userID); rewrite Hsame.
Qed.

(** ... and for one that needs a patch. *)
Lemma updateRingNums_patch (P : Platform) (queueID : string)
    (oldUserRingNums : gmap string Z) (entry : string * Z) (rest : list (string * Z))
    (s : State) :
  ringNumDiffers oldUserRingNums entry = true ->
  updateRingNums P queueID oldUserRingNums (entry :: rest) s
  = match on_PatchRoutingQueueMember P (trace s) queueID entry.1 entry.2 with
    | Failed _ err =>
        Some (["Failed to update ring number for queue " +:+ queueID +:+ " user "
               +:+ entry.1 +:+ ": " +:+ err],
              issue (ringNumPatch queueID entry) s)
    | Returned _ =>
        updateRingNums P queueID oldUserRingNums rest (issue (ringNumPatch queueID entry) s)
    end.
Proof.
  destruct entry as [userID newNum]. unfold ringNumDiffers, ringNumPatch.
  cbn [fst snd updateRingNums]. intros Hdiff. unfold bind at 1.
  assert (Hrun : (match oldUserRingNums !! userID with
                  | Some oldNum =>
                      if bool_decide (newNum ≠ oldNum)
                      then updateQueueUserRingNum P queueID userID newNum
                      else ret []
                  | None =>
                      if bool_decide (newNum ≠ 1%Z)
                      then updateQueueUserRingNum P queueID userID newNum
                      else ret []
                  end) s = updateQueueUserRingNum P queueID userID newNum s).
  { by destruct (oldUserRingNums !! userID); rewrite Hdiff. }
  rewrite Hrun. unfold updateQueueUserRingNum. run.
  by destruct (on_PatchRoutingQueueMember P (trace s) queueID userID newNum).
Qed.

(** X6: when the platform accepts every patch, the ring number loop patches
    exactly the entries whose number differs from the old one of a user who
    is in the queue, or from the default of 1 for a new user, each with its
    configured number and in the order of the iteration, and reports
    nothing. *)
Theorem updateRingNums_patches_what_differs (P : Platform) (queueID : string)
    (oldUserRingNums : gmap string Z) (entries : list (string * Z)) (s : State) :
  (forall h userID ringNum,
     exists r, on_PatchRoutingQueueMember P h queueID userID ringNum = Returned r) ->
  updateRingNums P queueID oldUserRingNums entries s
  = Some ([], {| trace := trace s ++
                   (ringNumPatch queueID <$> filter (ringNumDiffers oldUserRingNums) entries);
                 now := now s |}).
Proof.
  intros Haccept. revert s.
  induction entries as [|entry rest IH]; intros s.
  - destruct s. run. cbn. by rewrite app_nil_r.
  - destruct (ringNumDiffers oldUserRingNums entry) eqn:Hdiff.
    + rewrite updateRingNums_patch by done.
      destruct (Haccept (trace s) entry.1 entry.2) as [r ->].
      rewrite IH. rewrite filter_cons_True by (by rewrite Hdiff).
      cbn [trace now issue fmap list_fmap]. by rewrite <- app_assoc.
    + rewrite updateRingNums_skip by done. rewrite IH.
      rewrite filter_cons_False; [done|]. rewrite Hdiff. by intros [].
Qed.

Lemma updateRingNums_patches_what_differs_witness :
  updateRingNums (staffed twoPages (Returned tt) (Returned tt)) "q1"
    (ringNums [("a", 1%Z); ("b", 2%Z)])
    [("a", 3%Z); ("b", 2%Z); ("c", 1%Z); ("d", 4%Z)] fresh
  = Some ([], {| trace := [PatchRoutingQueueMember "q1" "a" 3;
                           PatchRoutingQueueMember "q1" "d" 4];
                 now := 0 |}).
Proof.
  apply (updateRingNums_patches_what_differs
           (staffed twoPages (Returned tt) (Returned tt)) "q1"
           (ringNums [("a", 1%Z); ("b", 2%Z)])
           [("a", 3%Z); ("b", 2%Z); ("c", 1%Z); ("d", 4%Z)] fresh).
  intros h userID ringNum. by exists tt.
Defined.

(** X7: the ring number loop stops at the first patch the platform rejects:
    the entries before it are patched as far as they differ, the diagnostic
    names the queue and the user and carries the error, and no later entry
    is patched. *)
Theorem updateRingNums_stops_at_first_failure (P : Platform) (queueID : string)
    (oldUserRingNums : gmap string Z) (before after : list (string * Z))
    (entry : string * Z) (s : State) resp err :
  ringNumDiffers oldUserRingNums entry = true ->
  (forall h e, e ∈ before ->
     exists r, on_PatchRoutingQueueMember P h queueID e.1 e.2 = Returned r) ->
  (forall h, on_PatchRoutingQueueMember P h queueID entry.1 entry.2 = Failed resp err) ->
  updateRingNums P queueID oldUserRingNums (before ++ entry :: after) s
  = Some (["Failed to update ring number for queue " +:+ queueID +:+ " user "
           +:+ entry.1 +:+ ": " +:+ err],
          {| trace := trace s ++
               (ringNumPatch queueID
                  <$> filter (ringNumDiffers oldUserRingNums) before ++ [entry]);
             now := now s |}).
Proof.
  intros Hdiff Haccept Hfail. revert s.
  induction before as [|e before IH]; intros s.
  - cbn [app]. rewrite updateRingNums_patch by done. by rewrite Hfail.
  - cbn [app]. destruct (ringNumDiffers oldUserRingNums e) eqn:He.
    + rewrite updateRingNums_patch by done.
      destruct (Haccept (trace s) e) as [r ->]; [left|].
      rewrite IH by (intros h e' He'; apply Haccept; by right).
      rewrite filter_cons_True by (by rewrite He).
      cbn [trace now issue fmap list_fmap app]. by rewrite <- app_assoc.
    + rewrite updateRingNums_skip by done.
      rewrite IH by (intros h e' He'; apply Haccept; by right).
      rewrite filter_cons_False; [done|]. rewrite He. by intros [].
Qed.

Lemma updateRingNums_stops_at_first_failure_witness :
  updateRingNums (refusing "c") "q1" (ringNums [("a", 1%Z); ("b", 2%Z)])
    ([("a", 3%Z); ("b", 2%Z)] ++ ("c", 5%Z) :: [("d", 4%Z)]) fresh
  = Some (["Failed to update ring number for queue q1 user c: API Error: 500 - internal server error"],
          {| trace := [PatchRoutingQueueMember "q1" "a" 3;
                       PatchRoutingQueueMember "q1" "c" 5];
             now := 0 |}).
Proof.
  apply (updateRingNums_stops_at_first_failure (refusing "c") "q1"
           (ringNums [("a", 1%Z); ("b", 2%Z)]) [("a", 3%Z); ("b", 2%Z)] [("d", 4%Z)]
           ("c", 5%Z) fresh (Some {| StatusCode := 500 |})).
  - reflexivity.
  - intros h e He. exists tt.
    apply elem_of_cons in He as [->|He]; [reflexivity|].
    apply elem_of_cons in He as [->|He]; [reflexivity|]. by apply elem_of_nil in He.
  - intros h. reflexivity.
Defined.

(** ** Reconciliation, once more *)

(** After a listing that succeeded, reconciliation is the two runs of batch
    calls followed by the ring number loop. *)
Lemma updateQueueMembers_after_listing (fuel : nat) (P : Platform) (d : QueueData)
    (memberList : list (string * Z)) (oldSdkUsers : list Queuemember) (s s1 : State) :
  members d = Some memberList ->
  getRoutingQueueMembers fuel P (queue_id d) s = Some ((oldSdkUsers, []), s1) ->
  updateQueueMembers fuel P d s
  = updateRingNums P (queue_id d)
      (ringNums ((fun u => (member_Id u, RingNumber u)) <$> oldSdkUsers))
      (map_to_list (ringNums memberList))
      {| trace := trace s1
           ++ batchCalls (queue_id d)
                (sliceDifference (member_Id <$> oldSdkUsers) memberList.*1) true
           ++ batchCalls (queue_id d)
                (sliceDifference memberList.*1 (member_Id <$> oldSdkUsers)) false;
         now := now s1 |}.
Proof.
  intros Hset Hlist. unfold updateQueueMembers. rewrite Hset.
  unfold bind at 1. rewrite Hlist. cbn [failed].
  set (oldUserIds := member_Id <$> oldSdkUsers).
  set (newUserIds := memberList.*1).
  assert (Hrem : (if 0 <? length oldUserIds
                  then updateMembersInChunks P (queue_id d)
                         (sliceDifference oldUserIds newUserIds) true
                  else ret []) s1
                 = Some ([], {| trace := trace s1 ++ batchCalls (queue_id d)
                                  (sliceDifference oldUserIds newUserIds) true;
                                now := now s1 |})).
  { destruct oldUserIds as [|x xs].
    - destruct s1. run. cbn. by rewrite app_nil_r.
    - cbn [length Nat.ltb Nat.leb]. apply updateMembersInChunks_batchCalls. }
  unfold bind at 1. rewrite Hrem. cbn [failed].
  set (s2 := {| trace := trace s1 ++ batchCalls (queue_id d)
                            (sliceDifference oldUserIds newUserIds) true;
                now := now s1 |}).
  assert (Hadd : (if 0 <? length newUserIds
                  then updateMembersInChunks P (queue_id d)
                         (sliceDifference newUserIds oldUserIds) false
                  else ret []) s2
                 = Some ([], {| trace := trace s2 ++ batchCalls (queue_id d)
                                  (sliceDifference newUserIds oldUserIds) false;
                                now := now s2 |})).
  { destruct newUserIds as [|x xs].
    - run. cbn. by rewrite app_nil_r.
    - cbn [length Nat.ltb Nat.leb]. apply updateMembersInChunks_batchCalls. }
  unfold bind at 1. rewrite Hadd. cbn [failed]. subst s2. cbn [trace now].
  by rewrite <- app_assoc.
Qed.

(** Whatever the platform answers, the ring number loop only patches ring
    numbers of entries of its list, in this queue. *)
Lemma updateRingNums_calls (P : Platform) (queueID : string)
    (oldUserRingNums : gmap string Z) (entries : list (string * Z)) :
  forall s, exists diags patched,
    updateRingNums P queueID oldUserRingNums entries s
    = Some (diags, {| trace := trace s ++ (ringNumPatch queueID <$> patched);
                      now := now s |}) /\
    patched ⊆ entries.
Proof.
  induction entries as [|entry rest IH]; intros s.
  - exists [], []. split; [|done]. destruct s. run. cbn. by rewrite app_nil_r.
  - destruct (ringNumDiffers oldUserRingNums entry) eqn:Hdiff.
    + rewrite updateRingNums_patch by done.
      destruct (on_PatchRoutingQueueMember P (trace s) queueID entry.1 entry.2).
      * destruct (IH (issue (ringNumPatch queueID entry) s)) as (diags & patched & -> & Hsub).
        exists diags, (entry :: patched). split.
        -- cbn [trace now issue fmap list_fmap]. by rewrite <- app_assoc.
        -- intros x Hx. apply elem_of_cons in Hx as [->|Hx]; [left|right; by apply Hsub].
      * eexists _, [entry]. split; [done|].
        intros x Hx. apply elem_of_cons in Hx as [->|Hx]; [left|by apply elem_of_nil in Hx].
    + rewrite updateRingNums_skip by done.
      destruct (IH s) as (diags & patched & -> & Hsub).
      exists diags, patched. split; [done|]. intros x Hx. right. by apply Hsub.
Qed.

Lemma batchCalls_carry (queueID : string) (l : list string) (remove : bool) (c : Call) :
  c ∈ batchCalls queueID l remove ->
  exists body, c = PostRoutingQueueMembers queueID body remove /\
               forall x, x ∈ body -> x ∈ l.
Proof.
  unfold batchCalls. intros Hc. apply list_elem_of_fmap in Hc as (chunk & -> & Hchunk).
  exists (sent chunk). split; [done|]. intros x Hx.
  pose proof (batches_props l (S (length l)) 0) as Hprops.
  rewrite Forall_forall in Hprops. destruct (Hprops chunk Hchunk) as (Hne & _ & Hsub).
  apply Hsub. by apply sent_elem_of.
Qed.

(** X8: after a listing that succeeded, every call of reconciliation is for
    this queue and within the two differences: a removal batch carries only
    ids that [sliceDifference] found in the queue and not in the
    configuration, an addition batch only ids it found in the configuration
    and not in the queue, and the only other calls are ring number patches.
    No member that is in both lists is ever added or removed. *)
Theorem updateQueueMembers_touches_only_differences (fuel : nat) (P : Platform)
    (d : QueueData) (memberList : list (string * Z)) (oldSdkUsers : list Queuemember)
    (s s1 : State) :
  members d = Some memberList ->
  getRoutingQueueMembers fuel P (queue_id d) s = Some ((oldSdkUsers, []), s1) ->
  exists diags calls,
    updateQueueMembers fuel P d s
    = Some (diags, {| trace := trace s1 ++ calls; now := now s1 |}) /\
    Forall (carries_only (queue_id d)
              (sliceDifference (member_Id <$> oldSdkUsers) memberList.*1)
              (sliceDifference memberList.*1 (member_Id <$> oldSdkUsers))) calls.
Proof.
  intros Hset Hlist.
  rewrite (updateQueueMembers_after_listing fuel P d memberList oldSdkUsers s s1) by done.
  match goal with
  | |- context [updateRingNums ?P ?q ?o ?e ?st] =>
      destruct (updateRingNums_calls P q o e st) as (diags & patched & -> & _)
  end.
  eexists diags, _. cbn [trace now]. split.
  - by rewrite <- !app_assoc.
  - rewrite !Forall_app. split; [|split]; apply Forall_forall; intros c Hc.
    + apply batchCalls_carry in Hc as (body & -> & Hbody). by split.
    + apply batchCalls_carry in Hc as (body & -> & Hbody). by split.
    + apply list_elem_of_fmap in Hc as (e & -> & _). done.
Qed.

Lemma updateQueueMembers_touches_only_differences_witness :
  exists diags calls,
    updateQueueMembers 3 (staffed twoPages (Returned tt) (Returned tt))
      (q1_with [("b", 2%Z); ("c", 1%Z)]) fresh
    = Some (diags,
            {| trace := [GetRoutingQueueMembers "q1" 1 100; GetRoutingQueueMembers "q1" 2 100;
                         GetRoutingQueueMembers "q1" 3 100] ++ calls;
               now := 0 |}) /\
    Forall (carries_only "q1" (sliceDifference ["a"; "b"] ["b"; "c"])
              (sliceDifference ["b"; "c"] ["a"; "b"])) calls.
Proof.
  apply (updateQueueMembers_touches_only_differences 3
           (staffed twoPages (Returned tt) (Returned tt))
           (q1_with [("b", 2%Z); ("c", 1%Z)]) [("b", 2%Z); ("c", 1%Z)]
           [member "a" 1; member "b" 2] fresh
           {| trace := [GetRoutingQueueMembers "q1" 1 100; GetRoutingQueueMembers "q1" 2 100;
                        GetRoutingQueueMembers "q1" 3 100];
              now := 0 |}).
  - reflexivity.
  - vm_compute. reflexivity.
Defined.

Lemma updateRingNums_all_same (P : Platform) (queueID : string)
    (oldUserRingNums : gmap string Z) (entries : list (string * Z)) (s : State) :
  (forall e, e ∈ entries -> ringNumDiffers oldUserRingNums e = false) ->
  updateRingNums P queueID oldUserRingNums entries s = Some ([], s).
Proof.
  induction entries as [|entry rest IH]; intros Hsame; [done|].
  rewrite updateRingNums_skip by (apply Hsame; left).
  apply IH. intros e He. apply Hsame. by right.
Qed.

(** X9: when the configuration and the queue agree -- [sliceDifference] finds
    nothing to remove and nothing to add, and the ring numbers are the same
    -- reconciliation lists the members and issues no other call; it ends
    without a diagnostic whatever the platform would have answered. *)
Theorem updateQueueMembers_in_sync_changes_nothing (fuel : nat) (P : Platform)
    (d : QueueData) (memberList : list (string * Z)) (oldSdkUsers : list Queuemember)
    (s s1 : State) :
  members d = Some memberList ->
  getRoutingQueueMembers fuel P (queue_id d) s = Some ((oldSdkUsers, []), s1) ->
  sliceDifference (member_Id <$> oldSdkUsers) memberList.*1 = [] ->
  sliceDifference memberList.*1 (member_Id <$> oldSdkUsers) = [] ->
  ringNums memberList = ringNums ((fun u => (member_Id u, RingNumber u)) <$> oldSdkUsers) ->
  updateQueueMembers fuel P d s = Some ([], s1).
Proof.
  intros Hset Hlist Hrem Hadd Hnums.
  rewrite (updateQueueMembers_after_listing fuel P d memberList oldSdkUsers s s1) by done.
  rewrite Hrem, Hadd, <- Hnums. cbn [batchCalls batches length fmap list_fmap app].
  rewrite updateRingNums_all_same.
  - destruct s1. cbn. by rewrite app_nil_r.
  - intros [userID newNum] He. apply elem_of_map_to_list in He.
    unfold ringNumDiffers. cbn [fst snd]. rewrite He.
    apply bool_decide_eq_false. by intros Hne.
Qed.

Lemma updateQueueMembers_in_sync_changes_nothing_witness :
  updateQueueMembers 3 offlineMembers (q1_with [("b", 2%Z); ("a", 1%Z)]) fresh
  = Some ([], {| trace := [GetRoutingQueueMembers "q1" 1 100;
                           GetRoutingQueueMembers "q1" 2 100;
                           GetRoutingQueueMembers "q1" 3 100];
                 now := 0 |}).
Proof.
  apply (updateQueueMembers_in_sync_changes_nothing 3 offlineMembers
           (q1_with [("b", 2%Z); ("a", 1%Z)]) [("b", 2%Z); ("a", 1%Z)]
           [member "a" 1; member "b" 2] fresh).
  - reflexivity.
  - vm_compute. reflexivity.
  - vm_compute. reflexivity.
  - vm_compute. reflexivity.
  - vm_compute. reflexivity.
Defined.
(** ** Reading and creating the queue *)

Lemma getRoutingQueueMembers_loop_only_reads (P : Platform) (queueID : string) :
  forall fuel pageNum members s r s',
    getRoutingQueueMembers_loop fuel P queueID pageNum members s = Some (r, s') ->
    exists calls,
      trace s' = trace s ++ calls /\
      Forall (fun c => exists p, c = GetRoutingQueueMembers queueID p 100) calls /\
      now s' = now s.
Proof.
  induction fuel as [|fuel IH]; intros pageNum members s r s' Hrun; [done|].
  cbn [getRoutingQueueMembers_loop] in Hrun. unfold sdkGetRoutingQueueMembers in Hrun.
  revert Hrun. run.
  set (c := GetRoutingQueueMembers queueID pageNum maxPageSize).
  assert (Hc : exists p, c = GetRoutingQueueMembers queueID p 100) by by exists pageNum.
  assert (Hstop : forall x : list Queuemember * Diagnostics,
            Some (x, {| trace := trace s ++ [c]; now := now s |}) = Some (r, s') ->
            exists calls,
              trace s' = trace s ++ calls /\
              Forall (fun c => exists p, c = GetRoutingQueueMembers queueID p 100) calls /\
              now s' = now s).
  { intros x [= _ <-]. exists [c]. split; [done|]. split; [|done].
    by apply Forall_singleton. }
  destruct (on_GetRoutingQueueMembers P (trace s) queueID pageNum maxPageSize)
    as [[[[[|user users]|]]|]|resp err]; try apply Hstop.
  intros Hrun. apply IH in Hrun as (calls & Htrace & Hreads & Hnow).
  cbn [trace now] in Htrace, Hnow. exists (c :: calls).
  rewrite Htrace, <- app_assoc. split; [done|]. split; [|done]. by apply Forall_cons.
Qed.

(** X10: [readQueue] only reads, and only this queue: whatever the platform
    answers and whatever the result, the calls it has issued are one
    request for the queue and, after it, requests for pages of 100 of the
    members of the queue; no other call is made -- nothing is created,
    changed or deleted, nothing else is read -- and it does not wait. *)
Theorem readQueue_only_reads (fuel : nat) (P : Platform) (d : QueueData) (s s' : State)
    (r : Diagnostics * QueueData) :
  readQueue fuel P d s = Some (r, s') ->
  exists calls,
    trace s' = trace s ++ GetRoutingQueue (queue_id d) :: calls /\
    Forall (fun c => exists p, c = GetRoutingQueueMembers (queue_id d) p 100) calls /\
    now s' = now s.
Proof.
  unfold readQueue. run. set (c := GetRoutingQueue (queue_id d)).
  destruct (on_GetRoutingQueue P (trace s) (queue_id d)) as [currentQueue|resp getErr].
  - unfold flattenQueueMembers, getRoutingQueueMembers. run. cbn [queue_id].
    destruct (getRoutingQueueMembers_loop fuel P (queue_id d) 1 []
                {| trace := trace s ++ [c]; now := now s |})
      as [[[members' err] s1]|] eqn:Hlist; [|done].
    apply getRoutingQueueMembers_loop_only_reads in Hlist as (calls & Htrace & Hreads & Hnow).
    cbn [trace now] in Htrace, Hnow.
    assert (Hs1 : exists calls,
              trace s1 = trace s ++ c :: calls /\
              Forall (fun c => exists p, c = GetRoutingQueueMembers (queue_id d) p 100)
                     calls /\
              now s1 = now s).
    { exists calls. by rewrite Htrace, <- app_assoc. }
    destruct err as [|e errs]; cbn; intros Hrun; injection Hrun as _ <-; exact Hs1.
  - intros [= _ <-]. exists []. by split.
Qed.

Lemma readQueue_only_reads_witness :
  exists r s' calls,
    readQueue 3 (staffedUntil 2 twoPages) q1 fresh = Some (r, s') /\
    trace s' = trace fresh ++ GetRoutingQueue "q1" :: calls /\
    Forall (fun c => exists p, c = GetRoutingQueueMembers "q1" p 100) calls /\
    now s' = now fresh.
Proof.
  destruct (readQueue 3 (staffedUntil 2 twoPages) q1 fresh) as [[r s']|] eqn:Hrun;
    [|by vm_compute in Hrun].
  destruct (readQueue_only_reads 3 (staffedUntil 2 twoPages) q1 fresh s' r Hrun)
    as (calls & Hcalls).
  by exists r, s', calls.
Defined.

(** What the loop of [flattenQueueMembers] leaves in the set. *)
Lemma memberSet_elem_of (members : list Queuemember) :
  forall (memberSet : gset (string * Z)) (x : string * Z),
    x ∈ foldl (fun memberSet member =>
                 memberSet ∪ {[ (member_Id member, RingNumber member) ]})
              memberSet members
    <-> x ∈ memberSet \/
        exists member, member ∈ members /\ x = (member_Id member, RingNumber member).
Proof.
  induction members as [|member members IH]; intros memberSet x; cbn [foldl].
  - split; [by left|]. intros [H|(m & Hm & _)]; [done|]. by apply elem_of_nil in Hm.
  - rewrite IH, elem_of_union, elem_of_singleton. split.
    + intros [[H| ->]|(m & Hm & ->)].
      * by left.
      * right. exists member. split; [left|done].
      * right. exists m. split; [by right|done].
    + intros [H|(m & Hm & ->)].
      * left. by left.
      * apply elem_of_cons in Hm as [->|Hm].
        -- left. by right.
        -- right. by exists m.
Qed.

(** X11: when the queue is returned and the pages 1 to [n] of its members
    have members and page [n + 1] ends the listing, [readQueue] ends
    without a diagnostic and leaves in the resource data the name of the
    queue and, as [members], the set of the members with their ring
    numbers: every member that is listed is in it, once, however often it
    is listed, and nothing else is.  For a queue without members, [members]
    reads as not set.  The identifier and the delete timeout are
    untouched. *)
Theorem readQueue_reads_name_and_members (fuel n : nat) (P : Platform) (d : QueueData)
    (currentQueue : Queue) (pages : nat -> list Queuemember) (s : State) :
  on_GetRoutingQueue P (trace s) (queue_id d) = Returned currentQueue ->
  members_end_after P (queue_id d) pages 1 n ->
  n < fuel ->
  exists stored,
    readQueue fuel P d s
    = Some (([], {| queue_id := queue_id d;
                    name := queue_Name currentQueue;
                    members := stored;
                    timeoutDelete := timeoutDelete d |}),
            {| trace := trace s ++
                 GetRoutingQueue (queue_id d)
                 :: ((fun p => GetRoutingQueueMembers (queue_id d) p 100) <$> seq 1 (S n));
               now := now s |}) /\
    (n = 0 -> stored = None) /\
    (0 < n ->
     exists memberList,
       stored = Some memberList /\
       NoDup memberList /\
       forall userID ringNum,
         (userID, ringNum) ∈ memberList
         <-> exists user, user ∈ members_of pages 1 n /\
               member_Id user = userID /\ RingNumber user = ringNum).
Proof.
  intros Hget Hend Hfuel. eexists. split; [|split].
  - unfold readQueue. run. rewrite Hget.
    unfold flattenQueueMembers, getRoutingQueueMembers. run. cbn [queue_id].
    rewrite (getRoutingQueueMembers_loop_ends P (queue_id d) pages n fuel 1 []) by done.
    cbn [failed trace now app]. by rewrite <- app_assoc.
  - intros ->. reflexivity.
  - intros Hn. unfold Set_members.
    set (memberSet := foldl _ _ _).
    assert (Hin : forall userID ringNum,
              (userID, ringNum) ∈ memberSet
              <-> exists member, member ∈ members_of pages 1 n /\
                    member_Id member = userID /\ RingNumber member = ringNum).
    { intros userID ringNum. subst memberSet. rewrite memberSet_elem_of. split.
      - intros [H|(m & Hm & [= -> ->])]; [by apply elem_of_empty in H|]. by exists m.
      - intros (m & Hm & <- & <-). right. by exists m. }
    destruct (decide (memberSet = ∅)) as [Hempty|Hne].
    + exfalso. destruct Hend as (_ & Hfull & _).
      destruct n as [|n]; [lia|]. specialize (Hfull 0 ltac:(lia)).
      unfold members_of in Hin. cbn [seq fmap list_fmap concat Nat.add] in *.
      destruct (pages 1) as [|member members]; [done|].
      assert (Hmember : (member_Id member, RingNumber member) ∈ memberSet).
      { apply Hin. exists member. split; [|done]. apply elem_of_app. left. left. }
      rewrite Hempty in Hmember. by apply elem_of_empty in Hmember.
    + eexists. split; [reflexivity|]. split; [apply NoDup_elements|].
      intros userID ringNum. rewrite elem_of_elements. apply Hin.
Qed.

Lemma readQueue_reads_name_and_members_witness :
  exists stored,
    readQueue 3 (staffedEnding 3 doubled (Returned None)) q1 fresh
    = Some (([], {| queue_id := "q1"; name := "Support"; members := stored;
                    timeoutDelete := 1200 |}),
            {| trace := [GetRoutingQueue "q1"; GetRoutingQueueMembers "q1" 1 100;
                         GetRoutingQueueMembers "q1" 2 100;
                         GetRoutingQueueMembers "q1" 3 100];
               now := 0 |}) /\
    (2 = 0 -> stored = None) /\
    (0 < 2 ->
     exists memberList,
       stored = Some memberList /\
       NoDup memberList /\
       forall userID ringNum,
         (userID, ringNum) ∈ memberList
         <-> exists user, user ∈ [member "a" 1; member "b" 2; member "a" 1] /\
               member_Id user = userID /\ RingNumber user = ringNum).
Proof.
  apply (readQueue_reads_name_and_members 3 2 (staffedEnding 3 doubled (Returned None))
           q1 (theQueue "q1") doubled fresh).
  - reflexivity.
  - split; [|split].
    + intros h j Hj. do 2 (destruct j as [|j]; [reflexivity|]). lia.
    + intros j Hj. do 2 (destruct j as [|j]; [discriminate|]). lia.
    + intros h. by left.
  - lia.
Defined.

(** X12: when the queue has been created and the listing of its members
    then fails, [createQueue] ends with the diagnostic of the listing and
    does not go on to read the queue; the resource data already holds the
    identifier the platform gave the new queue. *)
Theorem createQueue_keeps_id_when_reconciliation_fails (fuel n : nat) (P : Platform)
    (d : QueueData) (memberList : list (string * Z)) (queue : Queue)
    (pages : nat -> list Queuemember) (s : State) resp err :
  on_PostRoutingQueues P (trace s) (name d) = Returned queue ->
  members d = Some memberList ->
  members_fail_at P (queue_Id queue) pages (1 + n) resp err ->
  n < fuel ->
  (forall j, j < n -> pages (1 + j) <> []) ->
  createQueue fuel P d s
  = Some ((["Failed to query users for queue " +:+ queue_Id queue +:+ ": " +:+ err],
           queue_SetId d (queue_Id queue)),
          {| trace := trace s ++
               PostRoutingQueues (name d)
               :: ((fun p => GetRoutingQueueMembers (queue_Id queue) p 100)
                     <$> seq 1 (S n));
             now := now s |}).
Proof.
  intros Hpost Hset Hfail Hfuel Hfull. unfold createQueue. run. rewrite Hpost.
  rewrite (updateQueueMembers_stops_on_listing_failure_aux fuel n P
             (queue_SetId d (queue_Id queue)) memberList pages _ resp err); try done.
  cbn [failed trace now queue_SetId queue_id]. by rewrite <- app_assoc.
Qed.

Lemma createQueue_keeps_id_when_reconciliation_fails_witness :
  createQueue 3 (staffedUntil 2 twoPages)
    {| queue_id := ""; name := "Support"; members := Some [("c", 1%Z)];
       timeoutDelete := 1200 |} fresh
  = Some ((["Failed to query users for queue q1: API Error: 500 - internal server error"],
           q1_with [("c", 1%Z)]),
          {| trace := [PostRoutingQueues "Support"; GetRoutingQueueMembers "q1" 1 100;
                       GetRoutingQueueMembers "q1" 2 100];
             now := 0 |}).
Proof.
  apply (createQueue_keeps_id_when_reconciliation_fails 3 1 (staffedUntil 2 twoPages)
           {| queue_id := ""; name := "Support"; members := Some [("c", 1%Z)];
              timeoutDelete := 1200 |}
           [("c", 1%Z)] (theQueue "q1") twoPages fresh (Some {| StatusCode := 500 |})).
  - reflexivity.
  - reflexivity.
  - split.
    + intros h p Hp. cbn. destruct p as [|[|p]]; [reflexivity|reflexivity|lia].
    + intros h. reflexivity.
  - lia.
  - intros j Hj. repeat (destruct j as [|j]; [discriminate|]). lia.
Defined.

(** ** Listing that fails, and ids listed twice *)

(** The pages [pageNum], ..., [pageNum + n - 1] have entities and the
    request for the next one fails: the loop gives up the map it has built. *)
Lemma getAllJourneySegments_loop_fails (P : Platform)
    (entities : nat -> option (list Journeysegment)) resp getErr :
  forall n fuel pageNum resources s,
    (forall h p, pageNum <= p < pageNum + n ->
       on_GetJourneySegments P h pageSize p = Returned {| segment_Entities := entities p |}) ->
    (forall h, on_GetJourneySegments P h pageSize (pageNum + n) = Failed resp getErr) ->
    n < fuel ->
    (forall j, j < n -> nonempty (entities (pageNum + j))) ->
    getAllJourneySegments_loop fuel P pageNum resources s
    = Some ((∅, ["Failed to get page of journey segments: " +:+ getErr]),
            {| trace := trace s ++ (GetJourneySegments pageSize <$> seq pageNum (S n));
               now := now s |}).
Proof.
  induction n as [|n IH]; intros fuel pageNum resources s Hpages Hfail Hfuel Hfull;
    (destruct fuel as [|fuel]; [lia|]); cbn [getAllJourneySegments_loop]; run.
  - rewrite Nat.add_0_r in Hfail. by rewrite Hfail.
  - rewrite Hpages by lia.
    pose proof (Hfull 0 ltac:(lia)) as Hfirst. rewrite Nat.add_0_r in Hfirst.
    destruct (entities pageNum) as [[|e es]|]; try done.
    rewrite (IH fuel (S pageNum)).
    + cbn [trace now seq fmap list_fmap]. do 3 f_equal. by rewrite <- app_assoc.
    + intros h p Hp. apply Hpages. lia.
    + intros h. replace (S pageNum + n) with (pageNum + S n) by lia. apply Hfail.
    + lia.
    + intros j Hj. replace (S pageNum + j) with (pageNum + S j) by lia. apply Hfull. lia.
Qed.

Lemma getAllJourneyActionMaps_loop_fails (P : Platform)
    (entities : nat -> option (list Actionmap)) (counts : nat -> Z) resp getErr :
  forall n fuel pageNum pageCount resources s,
    (forall h p, pageNum <= p < pageNum + n ->
       on_GetJourneyActionmaps P h p pageSize
       = Returned {| actionmap_Entities := entities p; PageCount := counts p |}) ->
    (forall h, on_GetJourneyActionmaps P h (pageNum + n) pageSize = Failed resp getErr) ->
    n < fuel ->
    (forall j, j < n -> nonempty (entities (pageNum + j))) ->
    (forall j, j <= n ->
       (Z.of_nat (pageNum + j) <= count_before pageCount counts pageNum j)%Z) ->
    getAllJourneyActionMaps_loop fuel P pageNum pageCount resources s
    = Some ((∅, ["Failed to get page of journey action maps: " +:+ getErr]),
            {| trace := trace s ++
                 ((fun p => GetJourneyActionmaps p pageSize) <$> seq pageNum (S n));
               now := now s |}).
Proof.
  induction n as [|n IH];
    intros fuel pageNum pageCount resources s Hpages Hfail Hfuel Hfull Hwithin;
    (destruct fuel as [|fuel]; [lia|]); cbn [getAllJourneyActionMaps_loop];
    pose proof (Hwithin 0 ltac:(lia)) as Hle;
    rewrite Nat.add_0_r in Hle; cbn [count_before] in Hle;
    (destruct (Z.leb_spec (Z.of_nat pageNum) pageCount) as [_|?]; [|lia]); run.
  - rewrite Nat.add_0_r in Hfail. by rewrite Hfail.
  - rewrite Hpages by lia.
    pose proof (Hfull 0 ltac:(lia)) as Hfirst. rewrite Nat.add_0_r in Hfirst.
    destruct (entities pageNum) as [[|e es]|]; try done.
    rewrite (IH fuel (S pageNum) (counts pageNum)).
    + cbn [trace now seq fmap list_fmap]. do 3 f_equal. by rewrite <- app_assoc.
    + intros h p Hp. apply Hpages. lia.
    + intros h. replace (S pageNum + n) with (pageNum + S n) by lia. apply Hfail.
    + lia.
    + intros j Hj. replace (S pageNum + j) with (pageNum + S j) by lia. apply Hfull. lia.
    + intros j Hj. specialize (Hwithin (S j) ltac:(lia)).
      replace (S pageNum + j) with (pageNum + S j) by lia.
      destruct j as [|j]; cbn [count_before] in *.
      * by rewrite Nat.add_0_r in Hwithin.
      * by replace (S pageNum + j) with (pageNum + S j) by lia.
Qed.

(** An id that is listed more than once keeps what was listed last. *)
Section LastWins.
Context {A : Type} (key : A -> string) (val : A -> ResourceMeta).
Let add (m : ResourceIDMetaMap) (l : list A) : ResourceIDMetaMap :=
  foldl (fun m e => <[key e := val e]> m) m l.

Lemma add_lookup_other (l : list A) :
  forall (m : ResourceIDMetaMap) id,
    (forall e, e ∈ l -> key e <> id) -> add m l !! id = m !! id.
Proof.
  induction l as [|e l IH]; intros m id Hother; cbn [add foldl]; [done|].
  fold (add (<[key e := val e]> m) l). rewrite IH.
  - apply lookup_insert_ne. apply Hother. left.
  - intros e' He'. apply Hother. by right.
Qed.

Lemma add_lookup_last (before after : list A) (e : A) (m : ResourceIDMetaMap) :
  (forall e', e' ∈ after -> key e' <> key e) ->
  add m (before ++ e :: after) !! key e = Some (val e).
Proof.
  intros Hlast. unfold add. rewrite foldl_app. cbn [foldl].
  fold (add (<[key e := val e]> (foldl (fun m e => <[key e := val e]> m) m before)) after).
  rewrite add_lookup_other by done. apply lookup_insert_eq.
Qed.
End LastWins.

(** X13: the segment listing fails as a whole: when the pages 1 to [n] have
    entities and the request for page [n + 1] fails, it returns the nil map
    -- the entities of the pages read so far are given up -- and one
    diagnostic that carries the error, after [n + 1] requests. *)
Theorem getAllJourneySegments_fails_as_a_whole (P : Platform) (n fuel : nat) (s : State)
    (entities : nat -> option (list Journeysegment)) resp getErr :
  (forall h p, 1 <= p < 1 + n ->
     on_GetJourneySegments P h pageSize p = Returned {| segment_Entities := entities p |}) ->
  (forall h, on_GetJourneySegments P h pageSize (1 + n) = Failed resp getErr) ->
  n < fuel ->
  (forall j, j < n -> nonempty (entities (1 + j))) ->
  getAllJourneySegments fuel P s
  = Some ((∅, ["Failed to get page of journey segments: " +:+ getErr]),
          {| trace := trace s ++ (GetJourneySegments 100 <$> seq 1 (S n));
             now := now s |}).
Proof.
  intros Hpages Hfail Hfuel Hfull.
  by apply (getAllJourneySegments_loop_fails P entities resp getErr n fuel 1 ∅ s).
Qed.

Lemma getAllJourneySegments_fails_as_a_whole_witness :
  getAllJourneySegments 5 (catalogueUntil 3 3 2) fresh
  = Some ((∅, ["Failed to get page of journey segments: API Error: 500 - internal server error"]),
          {| trace := [GetJourneySegments 100 1; GetJourneySegments 100 2;
                       GetJourneySegments 100 3];
             now := 0 |}).
Proof.
  apply (getAllJourneySegments_fails_as_a_whole (catalogueUntil 3 3 2) 2 5 fresh
           (fun p => Some ((fun id => theSegment id 1 (Some true)) <$> catalogueIds 3 2 p))
           (Some {| StatusCode := 500 |})).
  - intros h p Hp. cbn. destruct p as [|[|[|p]]]; [lia|reflexivity|reflexivity|lia].
  - intros h. reflexivity.
  - lia.
  - intros j Hj. destruct j as [|[|j]]; [exact I|exact I|lia].
Defined.

(** X14: the action map listing fails as a whole in the same way, when the
    failing page is within the page count the page before it reported. *)
Theorem getAllJourneyActionMaps_fails_as_a_whole (P : Platform) (n fuel : nat) (s : State)
    (entities : nat -> option (list Actionmap)) (counts : nat -> Z) resp getErr :
  (forall h p, 1 <= p < 1 + n ->
     on_GetJourneyActionmaps P h p pageSize
     = Returned {| actionmap_Entities := entities p; PageCount := counts p |}) ->
  (forall h, on_GetJourneyActionmaps P h (1 + n) pageSize = Failed resp getErr) ->
  n < fuel ->
  (forall j, j < n -> nonempty (entities (1 + j))) ->
  (forall j, j <= n -> (Z.of_nat (1 + j) <= count_before 1 counts 1 j)%Z) ->
  getAllJourneyActionMaps fuel P s
  = Some ((∅, ["Failed to get page of journey action maps: " +:+ getErr]),
          {| trace := trace s ++ ((fun p => GetJourneyActionmaps p 100) <$> seq 1 (S n));
             now := now s |}).
Proof.
  intros Hpages Hfail Hfuel Hfull Hwithin.
  by apply (getAllJourneyActionMaps_loop_fails P entities counts resp getErr n fuel 1 1%Z ∅ s).
Qed.

Lemma getAllJourneyActionMaps_fails_as_a_whole_witness :
  getAllJourneyActionMaps 5 (catalogueUntil 3 3 2) fresh
  = Some ((∅, ["Failed to get page of journey action maps: API Error: 500 - internal server error"]),
          {| trace := [GetJourneyActionmaps 1 100; GetJourneyActionmaps 2 100;
                       GetJourneyActionmaps 3 100];
             now := 0 |}).
Proof.
  apply (getAllJourneyActionMaps_fails_as_a_whole (catalogueUntil 3 3 2) 2 5 fresh
           (fun p => Some ((fun id => theActionMap id 1 true) <$> catalogueIds 3 2 p))
           (fun _ => 3%Z) (Some {| StatusCode := 500 |})).
  - intros h p Hp. cbn. destruct p as [|[|[|p]]]; [lia|reflexivity|reflexivity|lia].
  - intros h. reflexivity.
  - lia.
  - intros j Hj. destruct j as [|[|j]]; [exact I|exact I|lia].
  - intros j Hj. destruct j as [|[|[|j]]]; cbn; lia.
Defined.

(** X15: when the platform lists an id more than once, on one page or on
    several, the segment listing keeps one entry for it, with the display
    name of the entity that was listed last. *)
Theorem getAllJourneySegments_last_name_wins (P : Platform) (n fuel : nat) (s : State)
    (entities : nat -> option (list Journeysegment))
    (before after : list Journeysegment) (e : Journeysegment) :
  segments_paged P entities ->
  n < fuel ->
  (forall j, j < n -> nonempty (entities (1 + j))) ->
  ~ nonempty (entities (1 + n)) ->
  entities_of entities 1 n = before ++ e :: after ->
  (forall e', e' ∈ after -> segment_Id e' <> segment_Id e) ->
  exists resources s',
    getAllJourneySegments fuel P s = Some ((resources, []), s') /\
    resources !! segment_Id e = Some {| Name := segment_DisplayName e |}.
Proof.
  intros Hpaged Hfuel Hfull Hstop Hsplit Hlast.
  eexists _, _. split.
  - by apply (getAllJourneySegments_loop_spec P entities Hpaged n fuel 1 ∅ s).
  - rewrite Hsplit.
    apply (add_lookup_last segment_Id
             (fun x => {| Name := segment_DisplayName x |}) before after e ∅ Hlast).
Qed.

Lemma getAllJourneySegments_last_name_wins_witness :
  exists resources s',
    getAllJourneySegments 5 renaming fresh = Some ((resources, []), s') /\
    resources !! "s1" = Some {| Name := "Guests" |}.
Proof.
  apply (getAllJourneySegments_last_name_wins renaming 2 5 fresh renamed
           [theSegment "s1" 1 (Some true);
            {| segment_Id := "s2"; segment_DisplayName := "Buyers";
               segment_Version := 1; segment_IsActive := Some true |}]
           []
           {| segment_Id := "s1"; segment_DisplayName := "Guests";
              segment_Version := 2; segment_IsActive := Some true |}).
  - intros h p. reflexivity.
  - lia.
  - intros j Hj. destruct j as [|[|j]]; [exact I|exact I|lia].
  - intros H. exact H.
  - reflexivity.
  - intros e' He'. by apply elem_of_nil in He'.
Defined.

(** X16: the same for the action map listing, whichever way it stops. *)
Theorem getAllJourneyActionMaps_last_name_wins (P : Platform) (n fuel : nat) (s : State)
    (entities : nat -> option (list Actionmap)) (counts : nat -> Z) (extra : bool)
    (before after : list Actionmap) (e : Actionmap) :
  actionmaps_paged P entities counts ->
  n < fuel ->
  (forall j, j < n -> nonempty (entities (1 + j))) ->
  (forall j, j < n -> (Z.of_nat (1 + j) <= count_before 1 counts 1 j)%Z) ->
  (if extra
   then (Z.of_nat (1 + n) <= count_before 1 counts 1 n)%Z /\ ~ nonempty (entities (1 + n))
   else (count_before 1 counts 1 n < Z.of_nat (1 + n))%Z) ->
  entities_of entities 1 n = before ++ e :: after ->
  (forall e', e' ∈ after -> actionmap_Id e' <> actionmap_Id e) ->
  exists resources s',
    getAllJourneyActionMaps fuel P s = Some ((resources, []), s') /\
    resources !! actionmap_Id e = Some {| Name := actionmap_DisplayName e |}.
Proof.
  intros Hpaged Hfuel Hfull Hwithin Hstop Hsplit Hlast.
  eexists _, _. split.
  - by apply (getAllJourneyActionMaps_loop_spec P entities counts Hpaged n fuel 1 1%Z ∅ s extra).
  - rewrite Hsplit.
    apply (add_lookup_last actionmap_Id
             (fun x => {| Name := actionmap_DisplayName x |}) before after e ∅ Hlast).
Qed.

Lemma getAllJourneyActionMaps_last_name_wins_witness :
  exists resources s',
    getAllJourneyActionMaps 5 renamingMaps fresh = Some ((resources, []), s') /\
    resources !! "a1" = Some {| Name := "Offer callback" |}.
Proof.
  apply (getAllJourneyActionMaps_last_name_wins renamingMaps 2 5 fresh renamedMaps
           (fun _ => 2%Z) false
           [{| actionmap_Id := "a1"; actionmap_DisplayName := "Offer chat";
               actionmap_Version := 1; actionmap_IsActive := true |};
            {| actionmap_Id := "a2"; actionmap_DisplayName := "Offer help";
               actionmap_Version := 1; actionmap_IsActive := true |}]
           [{| actionmap_Id := "a3"; actionmap_DisplayName := "Offer survey";
               actionmap_Version := 1; actionmap_IsActive := true |}]
           {| actionmap_Id := "a1"; actionmap_DisplayName := "Offer callback";
              actionmap_Version := 2; actionmap_IsActive := true |}).
  - intros h p. reflexivity.
  - lia.
  - intros j Hj. do 2 (destruct j as [|j]; [exact I|]). lia.
  - intros j Hj. do 2 (destruct j as [|j]; [cbn; lia|]). lia.
  - cbn. lia.
  - reflexivity.
  - intros e' He'. apply list_elem_of_singleton in He' as ->. discriminate.
Defined.

(** ** The settings of the queue *)

Ltac in_list :=
  cbn; repeat first [apply list_elem_of_here | apply list_elem_of_further].

(** X17: a media setting that came from the platform and was written to the
    block is built back as it was: what [flattenMediaSetting] returns,
    [buildSdkMediaSetting] turns into the same setting, whatever blocks
    follow the first. *)
Theorem buildSdkMediaSetting_inverts_flattenMediaSetting (setting : Mediasetting)
    (flat : Block) (rest : list Block) :
  flattenMediaSetting setting = Some flat ->
  buildSdkMediaSetting (flat :: rest) = Some setting.
Proof.
  destruct setting as [[a|] [[[p|] [dur|]]|]]; cbn; try discriminate.
  intros [= <-]. reflexivity.
Qed.

Lemma buildSdkMediaSetting_inverts_flattenMediaSetting_witness :
  buildSdkMediaSetting [mediaBlock 8 eightTenths 20000]
  = Some {| AlertingTimeoutSeconds := Some 8%Z;
            ServiceLevel := Some {| Percentage := Some eightTenths;
                                    DurationMs := Some 20000%Z |} |}.
Proof.
  apply (buildSdkMediaSetting_inverts_flattenMediaSetting
           {| AlertingTimeoutSeconds := Some 8%Z;
              ServiceLevel := Some {| Percentage := Some eightTenths;
                                      DurationMs := Some 20000%Z |} |}
           (mediaBlock 8 eightTenths 20000) []).
  refine (bool_decide_unpack _ _). vm_compute. exact I.
Defined.

Lemma buildSdkMediaSetting_Some (settings : list Block) (setting : Mediasetting) :
  buildSdkMediaSetting settings = Some setting ->
  exists block a p dur,
    settings !! 0 = Some block /\
    block !! "alerting_timeout_sec" = Some (VInt a) /\
    block !! "service_level_percentage" = Some (VFloat p) /\
    block !! "service_level_duration_ms" = Some (VInt dur) /\
    setting = {| AlertingTimeoutSeconds := Some a;
                 ServiceLevel := Some {| Percentage := Some p; DurationMs := Some dur |} |}.
Proof.
  unfold buildSdkMediaSetting. intros Hbuild.
  destruct (settings !! 0) as [block|] eqn:Hblock; [|done]. cbn in Hbuild.
  destruct (block !! "alerting_timeout_sec") as [[| a | |]|] eqn:Ha; try done.
  destruct (block !! "service_level_percentage") as [[| | p |]|] eqn:Hp; try done.
  destruct (block !! "service_level_duration_ms") as [[| dur | |]|] eqn:Hdur; try done.
  cbn in Hbuild. injection Hbuild as <-. by exists block, a, p, dur.
Qed.

(** X18: a media settings block that is sent and read back is the block that
    was configured: when [buildSdkMediaSetting] accepts the blocks,
    [flattenMediaSetting] of its result has the three attributes of a media
    setting, each with the value it has in the first block. *)
Theorem flattenMediaSetting_gives_back_the_block (block : Block) (rest : list Block)
    (setting : Mediasetting) :
  buildSdkMediaSetting (block :: rest) = Some setting ->
  exists flat,
    flattenMediaSetting setting = Some flat /\
    flat ⊆ block /\
    dom flat = mediaSettingAttributes.
Proof.
  intros Hbuild.
  destruct (buildSdkMediaSetting_Some _ _ Hbuild) as (b & a & p & dur & Hb & Ha & Hp & Hdur & ->).
  injection Hb as <-.
  eexists. split; [reflexivity|]. split.
  - apply map_subseteq_spec. intros k v Hk.
    apply lookup_insert_Some in Hk as [[<- <-]|[_ Hk]]; [done|].
    apply lookup_insert_Some in Hk as [[<- <-]|[_ Hk]]; [done|].
    apply lookup_insert_Some in Hk as [[<- <-]|[_ Hk]]; [done|].
    by rewrite lookup_empty in Hk.
  - rewrite !dom_insert_L, dom_empty_L. refine (bool_decide_unpack _ _). vm_compute. exact I.
Qed.

Lemma flattenMediaSetting_gives_back_the_block_witness :
  exists flat,
    flattenMediaSetting {| AlertingTimeoutSeconds := Some 8%Z;
                           ServiceLevel := Some {| Percentage := Some eightTenths;
                                                   DurationMs := Some 20000%Z |} |}
    = Some flat /\
    flat ⊆ <["note" := VString "peak hours"]> (mediaBlock 8 eightTenths 20000) /\
    dom flat = mediaSettingAttributes.
Proof.
  apply (flattenMediaSetting_gives_back_the_block
           (<["note" := VString "peak hours"]> (mediaBlock 8 eightTenths 20000)) []).
  reflexivity.
Defined.

Lemma setMediaSetting_spec (key : string) (blocks : list Block)
    (settings : gmap string Mediasetting) :
  blocks = [] \/ is_Some (buildSdkMediaSetting blocks) ->
  exists settings',
    setMediaSetting key blocks settings = Some settings' /\
    (forall k, k <> key -> settings' !! k = settings !! k) /\
    settings' !! key
    = if 0 <? length blocks then buildSdkMediaSetting blocks else settings !! key.
Proof.
  unfold setMediaSetting. intros [->|[setting Hsetting]].
  - exists settings. by cbn.
  - destruct (0 <? length blocks).
    + rewrite Hsetting. cbn. eexists. split; [reflexivity|]. split.
      * intros k Hk. by rewrite lookup_insert_ne.
      * by rewrite lookup_insert_eq.
    + by exists settings.
Qed.

(** X19: every media type goes under a key of its own: when each media
    settings attribute has no block or blocks that [buildSdkMediaSetting]
    accepts, [buildSdkMediaSettings] returns a map that has, under the key
    of each of the seven attributes, the setting built from it if it has a
    block and nothing if it has none, and that has no other key. *)
Theorem buildSdkMediaSettings_one_key_per_media_type (d : QueueConfig) :
  (forall key blocks_of, (key, blocks_of) ∈ mediaSettings ->
     blocks_of d = [] \/ is_Some (buildSdkMediaSetting (blocks_of d))) ->
  exists settings,
    buildSdkMediaSettings d = Some settings /\
    (forall key blocks_of, (key, blocks_of) ∈ mediaSettings ->
       settings !! key
       = if 0 <? length (blocks_of d) then buildSdkMediaSetting (blocks_of d) else None) /\
    (forall key, is_Some (settings !! key) -> key ∈ mediaSettings.*1).
Proof.
  intros Hok. unfold buildSdkMediaSettings.
  destruct (setMediaSetting_spec mediaSettingsKeyCall (media_settings_call d) ∅)
    as (m1 & Hm1 & Ho1 & Hk1); [apply (Hok mediaSettingsKeyCall); in_list|].
  destruct (setMediaSetting_spec mediaSettingsKeyCallback (media_settings_callback d) m1)
    as (m2 & Hm2 & Ho2 & Hk2); [apply (Hok mediaSettingsKeyCallback); in_list|].
  destruct (setMediaSetting_spec mediaSettingsKeyChat (media_settings_chat d) m2)
    as (m3 & Hm3 & Ho3 & Hk3); [apply (Hok mediaSettingsKeyChat); in_list|].
  destruct (setMediaSetting_spec mediaSettingsKeyEmail (media_settings_email d) m3)
    as (m4 & Hm4 & Ho4 & Hk4); [apply (Hok mediaSettingsKeyEmail); in_list|].
  destruct (setMediaSetting_spec mediaSettingsKeyMessage (media_settings_message d) m4)
    as (m5 & Hm5 & Ho5 & Hk5); [apply (Hok mediaSettingsKeyMessage); in_list|].
  destruct (setMediaSetting_spec mediaSettingsKeySocial (media_settings_social d) m5)
    as (m6 & Hm6 & Ho6 & Hk6); [apply (Hok mediaSettingsKeySocial); in_list|].
  destruct (setMediaSetting_spec mediaSettingsKeyVideo (media_settings_video d) m6)
    as (m7 & Hm7 & Ho7 & Hk7); [apply (Hok mediaSettingsKeyVideo); in_list|].
  exists m7. split.
  { rewrite Hm1; cbn. rewrite Hm2; cbn. rewrite Hm3; cbn. rewrite Hm4; cbn.
    rewrite Hm5; cbn. rewrite Hm6; cbn. exact Hm7. }
  split.
  - intros key blocks_of Hin. unfold mediaSettings in Hin.
    repeat (apply elem_of_cons in Hin as [[= -> ->]|Hin]);
      [..|by apply elem_of_nil in Hin].
    + rewrite Ho7, Ho6, Ho5, Ho4, Ho3, Ho2 by done. rewrite Hk1.
      by destruct (0 <? _).
    + rewrite Ho7, Ho6, Ho5, Ho4, Ho3 by done. rewrite Hk2, Ho1 by done.
      by destruct (0 <? _).
    + rewrite Ho7, Ho6, Ho5, Ho4 by done. rewrite Hk3, Ho2, Ho1 by done.
      by destruct (0 <? _).
    + rewrite Ho7, Ho6, Ho5 by done. rewrite Hk4, Ho3, Ho2, Ho1 by done.
      by destruct (0 <? _).
    + rewrite Ho7, Ho6 by done. rewrite Hk5, Ho4, Ho3, Ho2, Ho1 by done.
      by destruct (0 <? _).
    + rewrite Ho7 by done. rewrite Hk6, Ho5, Ho4, Ho3, Ho2, Ho1 by done.
      by destruct (0 <? _).
    + rewrite Hk7, Ho6, Ho5, Ho4, Ho3, Ho2, Ho1 by done.
      by destruct (0 <? _).
  - intros key Hsome. cbn.
    destruct (decide (key = mediaSettingsKeyVideo)) as [->|H7]; [in_list|].
    destruct (decide (key = mediaSettingsKeySocial)) as [->|H6]; [in_list|].
    destruct (decide (key = mediaSettingsKeyMessage)) as [->|H5]; [in_list|].
    destruct (decide (key = mediaSettingsKeyEmail)) as [->|H4]; [in_list|].
    destruct (decide (key = mediaSettingsKeyChat)) as [->|H3]; [in_list|].
    destruct (decide (key = mediaSettingsKeyCallback)) as [->|H2]; [in_list|].
    destruct (decide (key = mediaSettingsKeyCall)) as [->|H1]; [in_list|].
    rewrite Ho7, Ho6, Ho5, Ho4, Ho3, Ho2, Ho1 in Hsome by done.
    rewrite lookup_empty in Hsome. by destruct Hsome.
Qed.

Lemma buildSdkMediaSettings_one_key_per_media_type_witness :
  exists settings,
    buildSdkMediaSettings callsAndChats = Some settings /\
    (forall key blocks_of, (key, blocks_of) ∈ mediaSettings ->
       settings !! key
       = if 0 <? length (blocks_of callsAndChats)
         then buildSdkMediaSetting (blocks_of callsAndChats) else None) /\
    (forall key, is_Some (settings !! key) -> key ∈ mediaSettings.*1).
Proof.
  apply (buildSdkMediaSettings_one_key_per_media_type callsAndChats).
  intros key blocks_of Hin. unfold mediaSettings in Hin.
  repeat (apply elem_of_cons in Hin as [[= -> ->]|Hin]);
    [..|by apply elem_of_nil in Hin]; cbn; eauto.
Defined.

(** ** The routing rules *)

Lemma buildSdkRoutingRules_range_flatten (sdkRules : list Routingrule) :
  forall routingRules,
    buildSdkRoutingRules_range (flattenRoutingRules sdkRules) routingRules
    = Some (routingRules ++ sdkRules).
Proof.
  induction sdkRules as [|sdkRule sdkRules IH]; intros routingRules;
    cbn [flattenRoutingRules fmap list_fmap buildSdkRoutingRules_range].
  - by rewrite app_nil_r.
  - fold (flattenRoutingRules sdkRules).
    assert (Hrule : forall k,
              k = "operator" \/ k = "threshold" \/ k = "wait_seconds" ->
              flattenRoutingRule sdkRule !! k
              = match k with
                | "operator" => VString <$> Operator sdkRule
                | "threshold" => VInt <$> rule_Threshold sdkRule
                | _ => VFloat <$> WaitSeconds sdkRule
                end).
    { intros k Hk. destruct sdkRule as [[o|] [t|] [w|]];
        destruct Hk as [-> | [-> | ->]]; reflexivity. }
    rewrite !Hrule by tauto.
    destruct sdkRule as [[o|] [t|] [w|]]; cbn; rewrite IH; by rewrite <- app_assoc.
Qed.

(** X20: routing rules that came from the platform are built back as they
    were: when the configuration holds what [flattenRoutingRules] returns
    for some rules, [buildSdkRoutingRules] returns these rules, in their
    order, with every field that was nil still nil. *)
Theorem buildSdkRoutingRules_inverts_flattenRoutingRules (d : QueueConfig)
    (sdkRules : list Routingrule) :
  routing_rules d = flattenRoutingRules sdkRules ->
  buildSdkRoutingRules d = Some sdkRules.
Proof.
  intros Hd. unfold buildSdkRoutingRules. rewrite Hd.
  destruct sdkRules as [|sdkRule sdkRules]; [done|].
  cbn [flattenRoutingRules fmap list_fmap length Nat.ltb Nat.leb].
  apply (buildSdkRoutingRules_range_flatten (sdkRule :: sdkRules) []).
Qed.

Lemma buildSdkRoutingRules_inverts_flattenRoutingRules_witness :
  buildSdkRoutingRules (ruled (flattenRoutingRules [goodAgent; anyAgent]))
  = Some [goodAgent; anyAgent].
Proof.
  apply (buildSdkRoutingRules_inverts_flattenRoutingRules
           (ruled (flattenRoutingRules [goodAgent; anyAgent])) [goodAgent; anyAgent]).
  reflexivity.
Defined.

Lemma flattenRoutingRule_lookup (sdkRule : Routingrule) (k : string) :
  flattenRoutingRule sdkRule !! k
  = if decide (k = "operator") then VString <$> Operator sdkRule
    else if decide (k = "threshold") then VInt <$> rule_Threshold sdkRule
    else if decide (k = "wait_seconds") then VFloat <$> WaitSeconds sdkRule
    else None.
Proof.
  unfold flattenRoutingRule.
  destruct sdkRule as [[o|] [t|] [w|]]; cbn [Operator rule_Threshold WaitSeconds];
    repeat (destruct (decide _) as [->|?]; [by (vm_compute)|]);
    rewrite ?lookup_insert_ne by done; apply lookup_empty.
Qed.

Lemma flattenRoutingRule_ruleOf (block : Block) :
  sameRule block (flattenRoutingRule (ruleOf block)).
Proof.
  unfold sameRule. split; [|split; [|split]].
  - apply map_subseteq_spec. intros k v. rewrite flattenRoutingRule_lookup.
    unfold ruleOf; cbn [Operator rule_Threshold WaitSeconds].
    repeat (destruct (decide _) as [->|?]).
    + by destruct (block !! "operator") as [[]|]; cbn; intros [= <-].
    + by destruct (block !! "threshold") as [[]|]; cbn; intros [= <-].
    + by destruct (block !! "wait_seconds") as [[]|]; cbn; intros [= <-].
    + done.
  - rewrite flattenRoutingRule_lookup. cbn.
    by destruct (block !! "operator") as [[]|].
  - rewrite flattenRoutingRule_lookup. cbn.
    by destruct (block !! "threshold") as [[]|].
  - rewrite flattenRoutingRule_lookup. cbn.
    by destruct (block !! "wait_seconds") as [[]|].
Qed.

Lemma buildSdkRoutingRules_range_spec (configRoutingRules : list Block) :
  Forall thresholdIsInt configRoutingRules ->
  forall routingRules,
    buildSdkRoutingRules_range configRoutingRules routingRules
    = Some (routingRules ++ (ruleOf <$> configRoutingRules)).
Proof.
  induction 1 as [|block blocks Hblock _ IH]; intros routingRules;
    cbn [buildSdkRoutingRules_range fmap list_fmap].
  - by rewrite app_nil_r.
  - fold (ruleOf <$> blocks). unfold ruleOf at 1.
    destruct Hblock as [Hnone|[t Ht]].
    + rewrite Hnone. cbn. rewrite IH. by rewrite <- app_assoc.
    + destruct (block !! "threshold") as [[]|]; try done.
      cbn in *. rewrite IH. by rewrite <- app_assoc.
Qed.

Lemma buildSdkRoutingRules_typed (d : QueueConfig) :
  Forall thresholdIsInt (routing_rules d) ->
  buildSdkRoutingRules d = Some (ruleOf <$> routing_rules d).
Proof.
  intros Hint. unfold buildSdkRoutingRules.
  destruct (routing_rules d) as [|block blocks] eqn:Hd; [done|].
  cbn [length Nat.ltb Nat.leb]. by rewrite buildSdkRoutingRules_range_spec.
Qed.

(** X21: routing rules that are sent and read back are the rules that were
    configured: when every threshold there is is an int,
    [buildSdkRoutingRules] returns rules that [flattenRoutingRules] turns
    into one block for each configured block, in the same order, that holds
    nothing the configured block does not hold and holds its operator,
    threshold and wait. *)
Theorem flattenRoutingRules_gives_back_the_rules (d : QueueConfig) :
  Forall thresholdIsInt (routing_rules d) ->
  exists sdkRules,
    buildSdkRoutingRules d = Some sdkRules /\
    Forall2 sameRule (routing_rules d) (flattenRoutingRules sdkRules).
Proof.
  intros Hint. exists (ruleOf <$> routing_rules d). split.
  - by apply buildSdkRoutingRules_typed.
  - unfold flattenRoutingRules. rewrite <- list_fmap_compose.
    apply Forall2_fmap_r, Forall_Forall2_diag, Forall_forall.
    intros block _. apply flattenRoutingRule_ruleOf.
Qed.

Lemma flattenRoutingRules_gives_back_the_rules_witness :
  exists sdkRules,
    buildSdkRoutingRules
      (ruled [ <["note" := VString "vip"]> (flattenRoutingRule goodAgent);
               flattenRoutingRule anyAgent ])
    = Some sdkRules /\
    Forall2 sameRule
      [ <["note" := VString "vip"]> (flattenRoutingRule goodAgent);
        flattenRoutingRule anyAgent ]
      (flattenRoutingRules sdkRules).
Proof.
  apply (flattenRoutingRules_gives_back_the_rules
           (ruled [ <["note" := VString "vip"]> (flattenRoutingRule goodAgent);
                    flattenRoutingRule anyAgent ])).
  apply Forall_cons. split; [right; by eexists|].
  apply Forall_cons. split; [left; reflexivity|].
  apply Forall_nil_2.
Defined.

(** X22: [buildSdkRoutingRules] panics on a threshold that is not an int,
    and on nothing else: it has no result exactly when some configured rule
    has a threshold of another type. *)
Theorem buildSdkRoutingRules_panics_on_threshold_only (d : QueueConfig) :
  buildSdkRoutingRules d = None <-> ~ Forall thresholdIsInt (routing_rules d).
Proof.
  split.
  - intros Hnone Hint.
    rewrite buildSdkRoutingRules_typed in Hnone; done.
  - intros Hnot. unfold buildSdkRoutingRules.
    destruct (routing_rules d) as [|block blocks]; [by destruct Hnot|].
    cbn [length Nat.ltb Nat.leb]. generalize (@nil Routingrule).
    induction (block :: blocks) as [|b bs IH]; intros acc; [by destruct Hnot|].
    cbn [buildSdkRoutingRules_range].
    destruct (b !! "threshold") as [v|] eqn:Hb.
    + destruct v; cbn; try reflexivity.
      apply IH. intros Hbs. apply Hnot. constructor; [|done].
      right. rewrite Hb. by eexists.
    + cbn. apply IH. intros Hbs. apply Hnot. constructor; [|done]. by left.
Qed.

(** ** The bullseye rings *)

Lemma skills_range_spec (skillIds : list string) :
  forall i σ sdkSkillsToRemove,
    i + length skillIds <= length sdkSkillsToRemove ->
    skills_range skillIds i σ sdkSkillsToRemove
    = (σ ++ skillIds,
       take i sdkSkillsToRemove
       ++ ((fun j => {| skill_Id := Some (length σ + j) |}) <$> seq 0 (length skillIds))
       ++ drop (i + length skillIds) sdkSkillsToRemove).
Proof.
  induction skillIds as [|id rest IH]; intros i σ sdk Hlen; cbn [skills_range length].
  - cbn. rewrite app_nil_r, Nat.add_0_r. by rewrite take_drop.
  - cbn [length] in Hlen. rewrite IH by (rewrite length_insert; lia).
    rewrite <- app_assoc. cbn [app]. f_equal.
    rewrite length_app. cbn [length seq fmap list_fmap].
    rewrite (take_S_r _ i {| skill_Id := Some (length σ) |})
      by (apply list_lookup_insert_eq; lia).
    rewrite take_insert_ge by lia. rewrite <- app_assoc. cbn [app].
    rewrite Nat.add_0_r. do 2 f_equal.
    rewrite <- (fmap_S_seq 0), <- list_fmap_compose. f_equal.
    + apply list_fmap_ext. intros ? j ?. cbn. do 2 f_equal. lia.
    + rewrite drop_insert_lt by lia. f_equal. lia.
Qed.

Lemma skills_range_make (skillIds : list string) (σ : store) :
  skills_range skillIds 0 σ (replicate (length skillIds) {| skill_Id := None |})
  = (σ ++ skillIds,
     (fun j => {| skill_Id := Some (length σ + j) |}) <$> seq 0 (length skillIds)).
Proof.
  rewrite skills_range_spec by (rewrite length_replicate; lia).
  rewrite take_0, Nat.add_0_l, drop_ge by (rewrite length_replicate; lia).
  cbn [app]. by rewrite app_nil_r.
Qed.

(** Every id is read back through its own pointer, whatever is stored
    later. *)
Lemma flattenSkills_own_pointers (skillIds : list string) (σ more : store) :
  flattenSkills (σ ++ skillIds ++ more)
    ((fun j => {| skill_Id := Some (length σ + j) |}) <$> seq 0 (length skillIds))
  = Some skillIds.
Proof.
  unfold flattenSkills. apply mapM_Some. apply Forall2_fmap_l.
  apply Forall2_same_length_lookup. split; [by rewrite length_seq|].
  intros j k id Hk Hid. apply lookup_seq in Hk as [-> Hj]. cbn.
  unfold deref. rewrite lookup_app_r by lia.
  replace (length σ + j - length σ) with j by lia.
  rewrite lookup_app_l by lia. by rewrite Hid.
Qed.

Lemma flattenExpansionCriteria_timeout (block : Block) :
  match as_float (block !! "expansion_timeout_seconds") with
  | Some waitSeconds =>
      flattenExpansionCriteria
        [{| VarType := Some bullseyeExpansionTypeTimeout;
            criterium_Threshold := Some waitSeconds |}] ∅
      = Some (<["expansion_timeout_seconds" := VFloat waitSeconds]> ∅)
  | None => True
  end.
Proof. by destruct (as_float _). Qed.

(** What the ring that is built from a block is flattened to, in a store
    that has grown since. *)
Lemma buildSdkRing_spec (block : Block) (σ : store) :
  skillsAreSet block ->
  exists ext sdkRing,
    buildSdkRing block σ = Some (σ ++ ext, sdkRing) /\
    forall more, exists flat,
      flattenBullseyeRing (σ ++ ext ++ more) sdkRing = Some flat /\
      sameRing block flat.
Proof.
  intros Hset. unfold buildSdkRing.
  set (criteria := match as_float (block !! "expansion_timeout_seconds") with
                   | Some w => Some [{| VarType := Some bullseyeExpansionTypeTimeout;
                                        criterium_Threshold := Some w |}]
                   | None => None
                   end).
  assert (Hcrit : exists ringSettings : Block,
             match criteria with
             | Some c => flattenExpansionCriteria c ∅
             | None => Some ∅
             end = Some ringSettings /\
             ringSettings !! "expansion_timeout_seconds"
             = (VFloat <$> as_float (block !! "expansion_timeout_seconds")) /\
             (forall k, k <> "expansion_timeout_seconds" -> ringSettings !! k = None)).
  { subst criteria.
    destruct (block !! "expansion_timeout_seconds") as [[| |w|]|] eqn:Hw; cbn;
      try (exists ∅; split; [done|]; split; [done|]; intros k _; apply lookup_empty).
    exists (<["expansion_timeout_seconds" := VFloat w]> ∅).
    rewrite bool_decide_eq_true_2 by done. split; [done|]. split.
    - by rewrite lookup_insert_eq.
    - intros k Hk. rewrite lookup_insert_ne by done. apply lookup_empty. }
  destruct Hcrit as (ringSettings & Hflat & Htimeout & Hother).
  assert (Hplain : forall more skills,
            as_set (block !! "skills_to_remove") = skills ->
            match skills with Some items => items = ∅ | None => True end ->
            exists flat,
              flattenBullseyeRing (σ ++ [] ++ more)
                {| ExpansionCriteria := criteria; ring_Actions := None |} = Some flat /\
              sameRing block flat).
  { intros more skills Hskills Hnone. exists ringSettings.
    unfold flattenBullseyeRing. cbn. rewrite Hflat. cbn. split; [done|].
    split; [done|]. split.
    - rewrite Hother by done. rewrite Hskills.
      destruct skills as [items|]; [|done]. cbn in Hnone. by destruct (decide (items = ∅)).
    - intros k Hk _. by apply Hother. }
  destruct Hset as [Hnone|[items Hitems]].
  - rewrite Hnone. exists [], {| ExpansionCriteria := criteria; ring_Actions := None |}.
    rewrite app_nil_r. split; [done|].
    intros more. apply (Hplain more None); [by rewrite Hnone|done].
  - destruct (block !! "skills_to_remove") as [[| | |items']|] eqn:Hskills; try done.
    cbn in Hitems. injection Hitems as ->. cbn.
    destruct (elements items) as [|id ids] eqn:Hel.
    + cbn. exists [], {| ExpansionCriteria := criteria; ring_Actions := None |}.
      rewrite app_nil_r. split; [done|].
      intros more. apply (Hplain more (Some items)); [done|].
      by apply elements_empty_inv, leibniz_equiv in Hel.
    + rewrite <- Hel.
      replace (match length (elements items) with 0 => false | S _ => true end)
        with true by (by rewrite Hel).
      rewrite skills_range_make.
      exists (elements items). eexists. split; [reflexivity|].
      intros more. exists (<["skills_to_remove" := VSet items]> ringSettings).
      unfold flattenBullseyeRing. cbn. rewrite Hflat. cbn.
      rewrite flattenSkills_own_pointers. cbn.
      rewrite list_to_set_elements_L. split; [done|]. split; [|split].
      * by rewrite lookup_insert_ne.
      * rewrite lookup_insert_eq, Hskills. cbn.
        destruct (decide (items = ∅)) as [->|]; [|done].
        by rewrite elements_empty in Hel.
      * intros k Hk1 Hk2. rewrite lookup_insert_ne by done. by apply Hother.
Qed.

Lemma buildSdkRings_spec (configRings : list Block) :
  Forall skillsAreSet configRings ->
  forall σ sdkRings,
  exists ext rings,
    buildSdkRings configRings σ sdkRings = Some (σ ++ ext, sdkRings ++ rings) /\
    forall more, exists flats,
      flattenBullseyeRings (σ ++ ext ++ more) rings = Some flats /\
      Forall2 sameRing configRings flats.
Proof.
  induction 1 as [|block blocks Hblock _ IH]; intros σ sdkRings; cbn [buildSdkRings].
  - exists [], []. rewrite !app_nil_r. split; [done|].
    intros more. exists []. split; [done|constructor].
  - destruct (buildSdkRing_spec block σ Hblock) as (ext1 & ring & -> & Hring). cbn.
    destruct (IH (σ ++ ext1) (sdkRings ++ [ring])) as (ext2 & rings & -> & Hrings).
    exists (ext1 ++ ext2), (ring :: rings). rewrite <- !app_assoc. split; [done|].
    intros more.
    destruct (Hring (ext2 ++ more)) as (flat & Hflat & Hsame).
    destruct (Hrings more) as (flats & Hflats & Hsames).
    exists (flat :: flats). split; [|by constructor].
    unfold flattenBullseyeRings in *. cbn [mapM].
    rewrite <- !app_assoc in *. rewrite Hflat. cbn. rewrite Hflats. done.
Qed.

(** X23: bullseye rings that are sent and read back are the rings that were
    configured, and every skill id arrives: when there are rings and the
    skills of each, if any, are a set, [buildSdkBullseyeSettings] returns
    rings that [flattenBullseyeRings] turns into one block for each
    configured ring, in the same order.  Each of these blocks holds the
    timeout of its ring and, when the set of skills of the ring is not
    empty, exactly this set; when the set is empty, as when the ring has no
    skills attribute, the block has no skills attribute; and it holds
    nothing else. *)
Theorem flattenBullseyeRings_gives_back_the_rings (d : QueueConfig) (σ : store) :
  bullseye_rings d <> [] ->
  Forall skillsAreSet (bullseye_rings d) ->
  exists σ' sdkRings flats,
    buildSdkBullseyeSettings d σ = Some (σ', Some {| Rings := Some sdkRings |}) /\
    flattenBullseyeRings σ' sdkRings = Some flats /\
    Forall2 sameRing (bullseye_rings d) flats.
Proof.
  intros Hrings Hsets. unfold buildSdkBullseyeSettings.
  destruct (buildSdkRings_spec _ Hsets σ []) as (ext & rings & Hbuild & Hflat).
  destruct (Hflat []) as (flats & Hflats & Hsame). rewrite app_nil_r in Hflats.
  exists (σ ++ ext), rings, flats.
  destruct (bullseye_rings d) as [|block blocks]; [done|].
  cbn [length Nat.ltb Nat.leb]. rewrite Hbuild. done.
Qed.

Lemma flattenBullseyeRings_gives_back_the_rings_witness :
  exists σ' sdkRings flats,
    buildSdkBullseyeSettings
      (ringed [ringBlock five {[ "sales"; "support" ]}; ringBlock five ∅]) ["x"]
    = Some (σ', Some {| Rings := Some sdkRings |}) /\
    flattenBullseyeRings σ' sdkRings = Some flats /\
    Forall2 sameRing [ringBlock five {[ "sales"; "support" ]}; ringBlock five ∅] flats.
Proof.
  apply (flattenBullseyeRings_gives_back_the_rings
           (ringed [ringBlock five {[ "sales"; "support" ]}; ringBlock five ∅]) ["x"]).
  - discriminate.
  - apply Forall_cons. split; [right; by eexists|].
    apply Forall_cons. split; [right; by eexists|].
    apply Forall_nil_2.
Defined.

Lemma flattenExpansionCriteria_first (before after : list Expansioncriterium)
    (criterium : Expansioncriterium) (threshold : float64) (ringSettings : Block) :
  Forall (fun c => exists t, VarType c = Some t /\ t <> bullseyeExpansionTypeTimeout)
         before ->
  VarType criterium = Some bullseyeExpansionTypeTimeout ->
  criterium_Threshold criterium = Some threshold ->
  flattenExpansionCriteria (before ++ criterium :: after) ringSettings
  = Some (<["expansion_timeout_seconds" := VFloat threshold]> ringSettings).
Proof.
  intros Hbefore Htype Hthreshold.
  induction Hbefore as [|c before (t & Ht & Hne) _ IH]; cbn [app flattenExpansionCriteria].
  - rewrite Htype. cbn. rewrite bool_decide_eq_true_2 by done. by rewrite Hthreshold.
  - rewrite Ht. cbn. by rewrite bool_decide_eq_false_2.
Qed.

(** X24: of the expansion criteria of a ring, the first one of the timeout
    type gives the timeout of the block: criteria of other types before it
    are passed over, and what follows it is not looked at -- not even a nil
    type or threshold there makes the function panic. *)
Theorem flattenBullseyeRings_takes_first_timeout (σ : store)
    (before after : list Expansioncriterium) (criterium : Expansioncriterium)
    (threshold : float64) :
  Forall (fun c => exists t, VarType c = Some t /\ t <> bullseyeExpansionTypeTimeout)
         before ->
  VarType criterium = Some bullseyeExpansionTypeTimeout ->
  criterium_Threshold criterium = Some threshold ->
  flattenBullseyeRings σ
    [{| ExpansionCriteria := Some (before ++ criterium :: after); ring_Actions := None |}]
  = Some [<["expansion_timeout_seconds" := VFloat threshold]> ∅].
Proof.
  intros Hbefore Htype Hthreshold.
  unfold flattenBullseyeRings, flattenBullseyeRing. cbn.
  by rewrite (flattenExpansionCriteria_first before after criterium threshold).
Qed.

Lemma flattenBullseyeRings_takes_first_timeout_witness :
  flattenBullseyeRings []
    [{| ExpansionCriteria :=
          Some ([{| VarType := Some "AGENT_COUNT"; criterium_Threshold := None |}]
                ++ {| VarType := Some "TIMEOUT_SECONDS"; criterium_Threshold := Some five |}
                :: [{| VarType := None; criterium_Threshold := None |}]);
        ring_Actions := None |}]
  = Some [<["expansion_timeout_seconds" := VFloat five]> ∅].
Proof.
  apply (flattenBullseyeRings_takes_first_timeout []
           [{| VarType := Some "AGENT_COUNT"; criterium_Threshold := None |}]
           [{| VarType := None; criterium_Threshold := None |}]
           {| VarType := Some "TIMEOUT_SECONDS"; criterium_Threshold := Some five |} five).
  - apply Forall_cons. split; [by eexists|]. apply Forall_nil_2.
  - reflexivity.
  - reflexivity.
Defined.

(** ** The outbound email address *)

(** X25: the round trip of the outbound email address keeps the two ids,
    and nothing but them.  The address [flattenQueueEmailAddress] has
    written to the block is built back with the id of its domain and the id
    of its route, and with no name: it is the same address only if the
    platform had sent none.  And the block of a configuration that
    [buildSdkQueueEmailAddress] accepts is read back with its two attributes
    and nothing else. *)
Theorem queueEmailAddress_round_trip (d : QueueConfig) :
  (forall address flat rest,
     flattenQueueEmailAddress address = Some flat ->
     outbound_email_address d = flat :: rest ->
     buildSdkQueueEmailAddress d = Some (Some (idsOnly address)) /\
     is_Some (Domain address ≫= domain_Id) /\
     is_Some (Route address ≫= route_Id)) /\
  (forall address block rest,
     outbound_email_address d = block :: rest ->
     buildSdkQueueEmailAddress d = Some (Some address) ->
     exists flat,
       flattenQueueEmailAddress address = Some flat /\
       flat ⊆ block /\
       dom flat = emailAddressAttributes).
Proof.
  split.
  - intros address flat rest Hflat Hd. unfold buildSdkQueueEmailAddress. rewrite Hd.
    destruct address as [[[[domainID|] domainName]|] [[[routeID|] routeName]|]];
      cbn in *; try discriminate.
    injection Hflat as <-. by repeat split.
  - intros address block rest Hd. unfold buildSdkQueueEmailAddress. rewrite Hd. cbn.
    destruct (block !! "domain_id") as [[domainID| | |]|] eqn:Hdomain; try done.
    destruct (block !! "route_id") as [[routeID| | |]|] eqn:Hroute; try done.
    cbn. intros [= <-]. eexists. split; [reflexivity|]. split.
    + apply map_subseteq_spec. intros k v Hk.
      apply lookup_insert_Some in Hk as [[<- <-]|[_ Hk]]; [done|].
      apply lookup_insert_Some in Hk as [[<- <-]|[_ Hk]]; [done|].
      by rewrite lookup_empty in Hk.
    + rewrite !dom_insert_L, dom_empty_L. refine (bool_decide_unpack _ _).
      vm_compute. exact I.
Qed.

Lemma queueEmailAddress_round_trip_witness :
  exists flat built,
    flattenQueueEmailAddress support = Some flat /\
    buildSdkQueueEmailAddress (mailing [flat]) = Some (Some built) /\
    built = {| Domain := Some {| domain_Id := Some "example.com"; domain_Name := None |};
               Route := Some {| route_Id := Some "support"; route_Name := None |} |} /\
    built <> support /\
    exists flat',
      flattenQueueEmailAddress built = Some flat' /\
      flat' ⊆ flat /\
      dom flat' = emailAddressAttributes.
Proof.
  exists (<["route_id" := VString "support"]> (<["domain_id" := VString "example.com"]> ∅)).
  exists (idsOnly support).
  destruct (queueEmailAddress_round_trip
              (mailing [<["route_id" := VString "support"]>
                          (<["domain_id" := VString "example.com"]> ∅)]))
    as [Hbuild Hflatten].
  destruct (Hbuild support
              (<["route_id" := VString "support"]> (<["domain_id" := VString "example.com"]> ∅))
              []) as (Hb & _ & _); [reflexivity|reflexivity|].
  split; [reflexivity|]. split; [exact Hb|]. split; [reflexivity|].
  split; [discriminate|].
  apply (Hflatten (idsOnly support)
           (<["route_id" := VString "support"]> (<["domain_id" := VString "example.com"]> ∅))
           []); [reflexivity|exact Hb].
Defined.

(** ** The keys of the default scripts *)

Section ValidationFacts.
Variable stringInSlice : string -> list string -> bool.
Hypothesis stringInSlice_spec :
  forall a slice, stringInSlice a slice = true <-> a ∈ slice.

Lemma validateMapCommTypes_range_nil (keys : list string) :
  validateMapCommTypes_range stringInSlice keys = []
  <-> Forall (fun k => k ∈ commTypes) keys.
Proof.
  induction keys as [|k keys IH]; cbn [validateMapCommTypes_range].
  - split; [constructor|done].
  - destruct (stringInSlice k commTypes) eqn:Hk; cbn [negb].
    + rewrite IH. split.
      * intros Hkeys. constructor; [by apply stringInSlice_spec|done].
      * by inversion 1.
    + split; [done|]. inversion 1 as [|? ? Hin _]; subst.
      apply stringInSlice_spec in Hin. congruence.
Qed.

Lemma validateMapCommTypes_range_names_a_key (keys : list string) :
  validateMapCommTypes_range stringInSlice keys = [] \/
  exists k, k ∈ keys /\ (k ∉ commTypes) /\
    validateMapCommTypes_range stringInSlice keys
    = [k +:+ " is an invalid communication type key."].
Proof.
  induction keys as [|k keys IH]; cbn [validateMapCommTypes_range]; [by left|].
  destruct (stringInSlice k commTypes) eqn:Hk; cbn [negb].
  - destruct IH as [IH|(k' & Hin & Hnot & IH)]; [by left|].
    right. exists k'. split; [by right|done].
  - right. exists k. split; [left|]. split; [|done].
    intros Hin. apply stringInSlice_spec in Hin. congruence.
Qed.
End ValidationFacts.

(** X26: [validateMapCommTypes] accepts a map exactly when every key is one
    of the nine communication types, in whatever order the keys are
    visited; when it rejects one, it returns one diagnostic, which names a
    key of the map that is none of them.  The nil interface is accepted.
    [stringInSlice] is taken to tell whether the string is in the slice. *)
Theorem validateMapCommTypes_accepts_communication_types
    (stringInSlice : string -> list string -> bool) (m : Block) (keys : list string) :
  (forall a slice, stringInSlice a slice = true <-> a ∈ slice) ->
  keysOf m keys ->
  validateMapCommTypes stringInSlice None keys = [] /\
  (validateMapCommTypes stringInSlice (Some m) keys = []
   <-> forall k, is_Some (m !! k) -> k ∈ commTypes) /\
  (validateMapCommTypes stringInSlice (Some m) keys = [] \/
   exists k, is_Some (m !! k) /\ (k ∉ commTypes) /\
     validateMapCommTypes stringInSlice (Some m) keys
     = [k +:+ " is an invalid communication type key."]).
Proof.
  intros Hspec Hkeys. unfold keysOf in Hkeys.
  assert (Hin : forall k, k ∈ keys <-> is_Some (m !! k)).
  { intros k. rewrite Hkeys, list_elem_of_fmap. split.
    - intros [[k' v] [-> Hkv]]. apply elem_of_map_to_list in Hkv. by exists v.
    - intros [v Hv]. exists (k, v). split; [done|]. by apply elem_of_map_to_list. }
  split; [done|]. cbn [validateMapCommTypes]. split.
  - rewrite (validateMapCommTypes_range_nil _ Hspec), Forall_forall.
    split; intros H k Hk; apply H; by apply Hin.
  - destruct (validateMapCommTypes_range_names_a_key _ Hspec keys)
      as [Hnil|(k & Hk & Hnot & Hdiag)]; [by left|].
    right. exists k. split; [by apply Hin|done].
Qed.

Lemma validateMapCommTypes_accepts_communication_types_witness :
  validateMapCommTypes inSlice None ["CHAT"; "FAX"; "CALL"] = [] /\
  (validateMapCommTypes inSlice (Some (scripts ["CALL"; "FAX"; "CHAT"]))
     ["CHAT"; "FAX"; "CALL"] = []
   <-> forall k, is_Some (scripts ["CALL"; "FAX"; "CHAT"] !! k) -> k ∈ commTypes) /\
  (validateMapCommTypes inSlice (Some (scripts ["CALL"; "FAX"; "CHAT"]))
     ["CHAT"; "FAX"; "CALL"] = [] \/
   exists k, is_Some (scripts ["CALL"; "FAX"; "CHAT"] !! k) /\ (k ∉ commTypes) /\
     validateMapCommTypes inSlice (Some (scripts ["CALL"; "FAX"; "CHAT"]))
       ["CHAT"; "FAX"; "CALL"]
     = [k +:+ " is an invalid communication type key."]).
Proof.
  apply (validateMapCommTypes_accepts_communication_types inSlice
           (scripts ["CALL"; "FAX"; "CHAT"]) ["CHAT"; "FAX"; "CALL"]).
  - intros a slice. unfold inSlice. apply bool_decide_eq_true.
  - unfold keysOf. refine (bool_decide_unpack _ _). vm_compute. exact I.
Defined.

(** ** The request mapping of an action map *)

(** X27: the request mapping makes the round trip both ways: the mapping
    [flattenRequestMapping] has written to the block is built back as it
    was, and a block that [buildSdkRequestMapping] accepts is read back with
    its four attributes and nothing else. *)
Theorem requestMapping_round_trip (requestMapping : Requestmapping) (block : Block) :
  (flattenRequestMapping requestMapping = Some block ->
   buildSdkRequestMapping block = Some requestMapping) /\
  (buildSdkRequestMapping block = Some requestMapping ->
   exists flat,
     flattenRequestMapping requestMapping = Some flat /\
     flat ⊆ block /\
     dom flat = requestMappingAttributes).
Proof.
  split.
  - destruct requestMapping as [[n|] [a|] [m|] [v|]]; cbn; try discriminate.
    by intros [= <-].
  - unfold buildSdkRequestMapping.
    destruct (block !! "name") as [[n| | |]|] eqn:Hn; try done.
    destruct (block !! "attribute_type") as [[a| | |]|] eqn:Ha; try done.
    destruct (block !! "mapping_type") as [[m| | |]|] eqn:Hm; try done.
    destruct (block !! "value") as [[v| | |]|] eqn:Hv; try done.
    cbn. intros [= <-]. eexists. split; [reflexivity|]. split.
    + apply map_subseteq_spec. intros k w Hk.
      apply lookup_insert_Some in Hk as [[<- <-]|[_ Hk]]; [done|].
      apply lookup_insert_Some in Hk as [[<- <-]|[_ Hk]]; [done|].
      apply lookup_insert_Some in Hk as [[<- <-]|[_ Hk]]; [done|].
      apply lookup_insert_Some in Hk as [[<- <-]|[_ Hk]]; [done|].
      by rewrite lookup_empty in Hk.
    + rewrite !dom_insert_L, dom_empty_L. refine (bool_decide_unpack _ _).
      vm_compute. exact I.
Qed.

Lemma requestMapping_round_trip_witness :
  exists block,
    flattenRequestMapping theMapping = Some block /\
    buildSdkRequestMapping block = Some theMapping /\
    exists flat,
      flattenRequestMapping theMapping = Some flat /\
      flat ⊆ block /\
      dom flat = requestMappingAttributes.
Proof.
  eexists. split; [reflexivity|].
  match goal with
  | |- buildSdkRequestMapping ?b = _ /\ _ =>
      destruct (requestMapping_round_trip theMapping b) as [Hbuild Hflatten]
  end.
  split; [apply Hbuild; reflexivity|].
  apply Hflatten, Hbuild. reflexivity.
Defined.

(** ** The trunk base settings data source *)

Lemma searchTrunkBaseSettings_passes_over (name : string) (entities : list Trunkbase) :
  Forall (fun t => ~ live name t) entities ->
  searchTrunkBaseSettings name entities = NoMatch.
Proof.
  induction 1 as [|t entities Ht _ IH]; cbn [searchTrunkBaseSettings]; [done|].
  destruct (trunk_Name t) as [n|] eqn:Hn; [|done].
  destruct (trunk_State t) as [state|] eqn:Hstate; [|done].
  destruct (decide (n = name)) as [->|Hne].
  - destruct (decide (state = "deleted")) as [->|Hlive].
    + rewrite bool_decide_eq_true_2 by done. cbn. done.
    + exfalso. apply Ht. split; [done|]. by exists state.
  - by rewrite bool_decide_eq_false_2.
Qed.

Lemma searchTrunkBaseSettings_first (name : string) (before after : list Trunkbase)
    (t : Trunkbase) :
  Forall (fun t => ~ live name t) before ->
  live name t ->
  searchTrunkBaseSettings name (before ++ t :: after)
  = match trunk_Id t with Some id => Match id | None => NilId end.
Proof.
  intros Hbefore [Hname (state & Hstate & Hlive)].
  induction Hbefore as [|b before Hb _ IH]; cbn [app searchTrunkBaseSettings].
  - rewrite Hname, Hstate, bool_decide_eq_true_2, bool_decide_eq_false_2 by done. done.
  - pose proof (searchTrunkBaseSettings_passes_over name [b]) as Hpass.
    cbn [searchTrunkBaseSettings] in Hpass.
    destruct (match trunk_Name b with Some _ => _ | None => _ end);
      [by specialize (Hpass ltac:(by constructor)); destruct (trunk_Id b)|done].
Qed.

(** The pages that are passed over are requested one after the other. *)
Lemma dataSourceTrunkBaseSettingsRead_attempt_passes_over
    (get : nat -> nat -> string -> Reply Trunkbaseentitylisting) (d : TrunkData) :
  forall n fuel pageNum,
    (forall j, j < n -> passedOver (trunk_name d) (get (pageNum + j) 100 (trunk_name d))) ->
    dataSourceTrunkBaseSettingsRead_attempt (n + fuel) get d pageNum
    = match dataSourceTrunkBaseSettingsRead_attempt fuel get d (pageNum + n) with
      | Some (result, requests) =>
          Some (result,
                ((fun p => GetTrunkbasesettings p 100 (trunk_name d)) <$> seq pageNum n)
                ++ requests)
      | None => None
      end.
Proof.
  induction n as [|n IH]; intros fuel pageNum Hpages.
  - rewrite Nat.add_0_r. cbn. by destruct (dataSourceTrunkBaseSettingsRead_attempt _ _ _ _) as [[]|].
  - cbn [Nat.add dataSourceTrunkBaseSettingsRead_attempt].
    destruct (Hpages 0 ltac:(lia)) as (entities & Hpage & Hne & Hnone).
    rewrite Nat.add_0_r in Hpage. rewrite Hpage.
    destruct entities as [|e es]; [done|].
    rewrite (searchTrunkBaseSettings_passes_over _ _ Hnone).
    rewrite IH.
    + replace (S pageNum + n) with (pageNum + S n) by lia.
      by destruct (dataSourceTrunkBaseSettingsRead_attempt _ _ _ _) as [[]|].
    + intros j Hj. replace (S pageNum + j) with (pageNum + S j) by lia. apply Hpages. lia.
Qed.

(** X28: one attempt of [dataSourceTrunkBaseSettingsRead] finds the first
    setting that has the name and is not deleted: when the pages 1 to [n]
    have settings of which none is such a one, and page [n + 1] has one
    with the id [id], after settings that are not, the attempt ends without
    an error and with [id] as the id of the data source, after one request
    for each of these [n + 1] pages; settings and pages that follow are not
    looked at. *)
Theorem dataSourceTrunkBaseSettingsRead_finds_first_live_match
    (get : nat -> nat -> string -> Reply Trunkbaseentitylisting) (d : TrunkData)
    (n fuel : nat) (before after : list Trunkbase) (t : Trunkbase) (id : string) :
  n < fuel ->
  (forall j, j < n -> passedOver (trunk_name d) (get (1 + j) 100 (trunk_name d))) ->
  get (1 + n) 100 (trunk_name d)
  = Returned {| trunk_Entities := Some (before ++ t :: after) |} ->
  Forall (fun t => ~ live (trunk_name d) t) before ->
  live (trunk_name d) t ->
  trunk_Id t = Some id ->
  dataSourceTrunkBaseSettingsRead_attempt fuel get d 1
  = Some (Finished None (trunk_SetId d id),
          (fun p => GetTrunkbasesettings p 100 (trunk_name d)) <$> seq 1 (S n)).
Proof.
  intros Hfuel Hpages Hpage Hbefore Hlive Hid.
  replace fuel with (n + S (fuel - S n)) by lia.
  rewrite dataSourceTrunkBaseSettingsRead_attempt_passes_over by done.
  cbn [dataSourceTrunkBaseSettingsRead_attempt]. rewrite Hpage.
  destruct (before ++ t :: after) as [|e es] eqn:Hentities;
    [by destruct before|].
  rewrite <- Hentities, searchTrunkBaseSettings_first, Hid by done.
  by rewrite seq_S, fmap_app.
Qed.

Lemma dataSourceTrunkBaseSettingsRead_finds_first_live_match_witness :
  dataSourceTrunkBaseSettingsRead_attempt 3 trunkPages
    {| trunk_name := "sip"; trunk_id := "" |} 1
  = Some (Finished None {| trunk_name := "sip"; trunk_id := "t3" |},
          [GetTrunkbasesettings 1 100 "sip"; GetTrunkbasesettings 2 100 "sip"]).
Proof.
  apply (dataSourceTrunkBaseSettingsRead_finds_first_live_match trunkPages
           {| trunk_name := "sip"; trunk_id := "" |} 1 3
           [] [trunk "t4" "sip" "active"] (trunk "t3" "sip" "active") "t3").
  - lia.
  - intros j Hj. destruct j as [|j]; [|lia]. eexists. split; [reflexivity|].
    split; [discriminate|].
    apply Forall_cons. split.
    { intros [_ (state & [= <-] & Hlive)]. by apply Hlive. }
    apply Forall_cons. split; [|apply Forall_nil_2].
    intros [[= Hname] _].
  - reflexivity.
  - apply Forall_nil_2.
  - split; [reflexivity|]. exists "active". split; [reflexivity|discriminate].
  - reflexivity.
Defined.

(** X29: one attempt of [dataSourceTrunkBaseSettingsRead] that finds no such
    setting reads on to the first page without settings and asks to be
    retried there: when the pages 1 to [n] have settings of which none has
    the name and is not deleted, and page [n + 1] has none, the attempt
    ends with a retryable error that names the name, and does not set an
    id. *)
Theorem dataSourceTrunkBaseSettingsRead_asks_to_retry
    (get : nat -> nat -> string -> Reply Trunkbaseentitylisting) (d : TrunkData)
    (n fuel : nat) (entities : option (list Trunkbase)) :
  n < fuel ->
  (forall j, j < n -> passedOver (trunk_name d) (get (1 + j) 100 (trunk_name d))) ->
  get (1 + n) 100 (trunk_name d) = Returned {| trunk_Entities := entities |} ->
  ~ nonempty entities ->
  dataSourceTrunkBaseSettingsRead_attempt fuel get d 1
  = Some (Finished
            (Some (RetryableError ("No trunkBaseSettings found with name " +:+ trunk_name d)))
            d,
          (fun p => GetTrunkbasesettings p 100 (trunk_name d)) <$> seq 1 (S n)).
Proof.
  intros Hfuel Hpages Hpage Hempty.
  replace fuel with (n + S (fuel - S n)) by lia.
  rewrite dataSourceTrunkBaseSettingsRead_attempt_passes_over by done.
  cbn [dataSourceTrunkBaseSettingsRead_attempt]. rewrite Hpage.
  rewrite seq_S, fmap_app.
  by destruct entities as [[|e es]|]; [| exfalso; apply Hempty |].
Qed.

Lemma dataSourceTrunkBaseSettingsRead_asks_to_retry_witness :
  dataSourceTrunkBaseSettingsRead_attempt 4 trunkPages
    {| trunk_name := "pbx"; trunk_id := "" |} 1
  = Some (Finished (Some (RetryableError "No trunkBaseSettings found with name pbx"))
            {| trunk_name := "pbx"; trunk_id := "" |},
          [GetTrunkbasesettings 1 100 "pbx"; GetTrunkbasesettings 2 100 "pbx";
           GetTrunkbasesettings 3 100 "pbx"]).
Proof.
  apply (dataSourceTrunkBaseSettingsRead_asks_to_retry trunkPages
           {| trunk_name := "pbx"; trunk_id := "" |} 2 4 (Some [])).
  - lia.
  - intros j Hj. destruct j as [|[|j]]; [| |lia];
      (eexists; split; [reflexivity|]; split; [discriminate|]);
      (apply Forall_cons; split; [by intros [[= Hname] _]|]);
      (apply Forall_cons; split; [by intros [[= Hname] _]|apply Forall_nil_2]).
  - reflexivity.
  - intros H. exact H.
Defined.

(** ** Members that the configuration leaves unset *)





(** ** The segment listing and the page count *)


